(** * Seismic telemetry services: socketService.js and the serial service

    A shallow embedding of [src/services/socketService.js]: the Socket.IO
    subscription registry, the native WebSocket message handler with its
    line grammar, the test encoders, and the Web Serial read loop.

    JavaScript strings are sequences of UTF-16 code units; they are modelled
    as lists of [N].  JavaScript numbers are modelled by the exact
    mathematical value of the decimal literal they were read from (a
    rational), plus NaN and the two infinities: the rounding of that value
    to the nearest double, and the sign of zero, are not represented. *)

From Stdlib Require Import Ascii String.
From Stdlib Require Import List Bool Arith NArith ZArith QArith Lia Sorted.
Import ListNotations.

Set Implicit Arguments.
Set Warnings "-register-all".
Open Scope nat_scope.

(** ** Strings as code-unit sequences *)

Definition jstring := list N.

Definition ch (a : ascii) : N := N_of_ascii a.

Fixpoint str (s : string) : jstring :=
  match s with
  | EmptyString => []
  | String a s' => ch a :: str s'
  end.

Definition jstring_eqb (a b : jstring) : bool :=
  if list_eq_dec N.eq_dec a b then true else false.

(** [String.prototype.startsWith] *)
Fixpoint startsWith (s p : jstring) {struct p} : bool :=
  match p with
  | [] => true
  | c :: p' =>
      match s with
      | [] => false
      | d :: s' => N.eqb c d && startsWith s' p'
      end
  end.

(** [String.prototype.includes] *)
Fixpoint includes (s p : jstring) : bool :=
  startsWith s p ||
  match s with
  | [] => false
  | _ :: s' => includes s' p
  end.

(** [breakOn sep s]: the text before the first occurrence of [sep] in [s]
    and the text after it, when there is one. *)
Fixpoint breakOn (sep s : jstring) : option (jstring * jstring) :=
  if startsWith s sep then Some ([], skipn (length sep) s)
  else match s with
       | [] => None
       | c :: s' =>
           match breakOn sep s' with
           | Some (a, b) => Some (c :: a, b)
           | None => None
           end
       end.

(** [String.prototype.split] with a non-empty separator: cut at every
    occurrence, left to right.  The recursion is on a counter that starts
    at the length of the text, which bounds the number of cuts. *)
Fixpoint split_fuel (n : nat) (sep s : jstring) : list jstring :=
  match n with
  | O => [s]
  | S n' =>
      match breakOn sep s with
      | Some (a, b) => a :: split_fuel n' sep b
      | None => [s]
      end
  end.

Definition split (sep s : jstring) : list jstring :=
  split_fuel (length s) sep s.

(** [Array.prototype.join] *)
Fixpoint join (sep : jstring) (l : list jstring) : jstring :=
  match l with
  | [] => []
  | [a] => a
  | a :: l' => a ++ sep ++ join sep l'
  end.

(** [String.prototype.substring(k)] *)
Definition substring (k : nat) (s : jstring) : jstring := skipn k s.

(** [String.prototype.indexOf] for one code unit; [None] stands for -1. *)
Fixpoint indexOf (c : N) (s : jstring) : option nat :=
  match s with
  | [] => None
  | d :: s' => if N.eqb d c then Some O
               else match indexOf c s' with
                    | Some i => Some (S i)
                    | None => None
                    end
  end.

(** WhiteSpace and LineTerminator code units of ECMAScript, the set that
    [trim] and [parseFloat] strip. *)
Definition isWhiteSpace (c : N) : bool :=
  ((9 <=? c) && (c <=? 13) || (c =? 32) || (c =? 160) || (c =? 5760)
   || ((8192 <=? c) && (c <=? 8202)) || (c =? 8232) || (c =? 8233)
   || (c =? 8239) || (c =? 8287) || (c =? 12288) || (c =? 65279))%N.

Fixpoint dropWhile (f : N -> bool) (s : jstring) : jstring :=
  match s with
  | [] => []
  | c :: s' => if f c then dropWhile f s' else s
  end.

Definition trimStart (s : jstring) : jstring := dropWhile isWhiteSpace s.
Definition trimEnd (s : jstring) : jstring := rev (dropWhile isWhiteSpace (rev s)).

(** [String.prototype.trim] *)
Definition trim (s : jstring) : jstring := trimEnd (trimStart s).

Definition isDigit (c : N) : bool := ((48 <=? c) && (c <=? 57))%N.

(** The longest prefix of code units satisfying [f], and the rest. *)
Fixpoint span (f : N -> bool) (s : jstring) : jstring * jstring :=
  match s with
  | [] => ([], [])
  | c :: s' => if f c then let (a, b) := span f s' in (c :: a, b)
               else ([], s)
  end.

(** Value of a sequence of decimal digits, most significant first. *)
Definition digitsValue (ds : jstring) : N :=
  fold_left (fun acc c => (acc * 10 + (c - 48))%N) ds 0%N.

(** ** Numbers *)

Inductive Number :=
| NaN
| Infinity (negative : bool)
| Fin (q : Q).

Definition isNaN (x : Number) : bool :=
  match x with NaN => true | _ => false end.

(** [m * 10^k] as a reduced fraction. *)
Definition decimalQ (m : N) (k : Z) : Q :=
  Qred (if (0 <=? k)%Z
        then inject_Z (Z.of_N m * 10 ^ k)
        else Qmake (Z.of_N m) (Z.to_pos (10 ^ (- k)))).

Definition signed (neg : bool) (q : Q) : Q := if neg then Qred (Qopp q) else q.

(** ExponentPart of a StrDecimalLiteral: [e] or [E], an optional sign and at
    least one digit.  An incomplete exponent is not part of the literal. *)
Definition exponentPart (s : jstring) : Z :=
  match s with
  | c :: r =>
      if (c =? ch "e") || (c =? ch "E") then
        let (neg, r') :=
          match r with
          | d :: r1 => if d =? ch "-" then (true, r1)
                       else if d =? ch "+" then (false, r1) else (false, r)
          | [] => (false, r)
          end in
        match fst (span isDigit r') with
        | [] => 0%Z
        | ds => if neg then (- Z.of_N (digitsValue ds))%Z else Z.of_N (digitsValue ds)
        end
      else 0%Z
  | [] => 0%Z
  end%N.

(** StrUnsignedDecimalLiteral: the longest prefix of the text that is
    [Infinity], [digits . digits? exponent?], [. digits exponent?] or
    [digits exponent?]; NaN when no prefix is one. *)
Definition unsignedLiteral (neg : bool) (s : jstring) : Number :=
  if startsWith s (str "Infinity") then Infinity neg
  else
    let (ip, r) := span isDigit s in
    match r with
    | c :: r1 =>
        if (c =? ch ".")%N then
          let (fp, r2) := span isDigit r1 in
          match ip, fp with
          | [], [] => NaN
          | _, _ => Fin (signed neg (decimalQ (digitsValue (ip ++ fp))
                                       (exponentPart r2 - Z.of_nat (length fp))))
          end
        else
          match ip with
          | [] => NaN
          | _ => Fin (signed neg (decimalQ (digitsValue ip) (exponentPart r)))
          end
    | [] =>
        match ip with
        | [] => NaN
        | _ => Fin (signed neg (decimalQ (digitsValue ip) 0))
        end
    end.

(** The global [parseFloat]: leading white space is skipped, then the
    longest prefix that is a StrDecimalLiteral is read. *)
Definition parseFloat (s : jstring) : Number :=
  match trimStart s with
  | c :: r =>
      if (c =? ch "-")%N then unsignedLiteral true r
      else if (c =? ch "+")%N then unsignedLiteral false r
      else unsignedLiteral false (c :: r)
  | [] => NaN
  end.

(** [parseInt] on a capture of [\d+]: the decimal value of the digits. *)
Definition parseInt (s : jstring) : N := digitsValue s.


(** ** JavaScript values, samples and callbacks *)

(** Values as [JSON.parse] and Socket.IO deliver them.  An object is the
    list of its own properties in insertion order. *)
Inductive JSValue :=
| JUndefined
| JNull
| JBool (b : bool)
| JNum (n : Number)
| JStr (s : jstring)
| JArr (l : list JSValue)
| JObj (kvs : list (jstring * JSValue)).

Definition JSObject := list (jstring * JSValue).

Inductive Exc (A : Type) :=
| Ok (a : A)
| Throw.
Arguments Ok {A} a.
Arguments Throw {A}.

Fixpoint objGet (k : jstring) (o : JSObject) : JSValue :=
  match o with
  | [] => JUndefined
  | (k', v) :: o' => if jstring_eqb k' k then v else objGet k o'
  end.

Fixpoint objSet (k : jstring) (v : JSValue) (o : JSObject) : JSObject :=
  match o with
  | [] => [(k, v)]
  | (k', v') :: o' => if jstring_eqb k' k then (k', v) :: o'
                      else (k', v') :: objSet k v o'
  end.

(** Property read [v.k]: a TypeError on [null] and [undefined], the own
    property on an object, [undefined] elsewhere (none of the keys read by
    the service is a built-in property of arrays, strings or numbers). *)
Definition getProp (v : JSValue) (k : jstring) : Exc JSValue :=
  match v with
  | JUndefined | JNull => Throw
  | JObj o => Ok (objGet k o)
  | _ => Ok JUndefined
  end.

Definition truthy (v : JSValue) : bool :=
  match v with
  | JUndefined | JNull => false
  | JBool b => b
  | JNum NaN => false
  | JNum (Fin q) => negb (Qeq_bool q 0)
  | JNum (Infinity _) => true
  | JStr s => match s with [] => false | _ => true end
  | JArr _ | JObj _ => true
  end.

(** Decimal digits of a natural number, as [String(n)] prints an index. *)
Fixpoint digitsOf_fuel (fuel : nat) (n : N) (acc : jstring) : jstring :=
  match fuel with
  | O => acc
  | S f => let acc' := (48 + n mod 10)%N :: acc in
           if (n <? 10)%N then acc' else digitsOf_fuel f (n / 10)%N acc'
  end.

Definition digitsOf (n : N) : jstring :=
  digitsOf_fuel (S (N.to_nat (N.log2 n))) n [].

Fixpoint indexed_from {A : Type} (i : nat) (l : list A) : list (nat * A) :=
  match l with
  | [] => []
  | a :: l' => (i, a) :: indexed_from (S i) l'
  end.

(** Object spread [{ ...v }]: the own enumerable properties of [v]. *)
Definition spread (v : JSValue) : JSObject :=
  match v with
  | JObj o => o
  | JArr l => map (fun p => (digitsOf (N.of_nat (fst p)), snd p)) (indexed_from 0 l)
  | JStr s => map (fun p => (digitsOf (N.of_nat (fst p)), JStr [snd p])) (indexed_from 0 s)
  | _ => []
  end.

Inductive Channel := ChX | ChY | ChZ.

(** The [metadata] object that the handler fills while it reads a frame. *)
Record FrameMeta := {
  temperature : option N;
  humidity : option N;
  voltage : option N;
  dataType : option jstring;
  secondWaveform : option bool;
  thirdWaveform : option bool
}.

Definition emptyMeta : FrameMeta :=
  {| temperature := None; humidity := None; voltage := None;
     dataType := None; secondWaveform := None; thirdWaveform := None |}.

(** The [metadata] of a sample: the fixed fields followed by the spread of
    the frame's [metadata], which shares no key with them. *)
Record SampleMeta := {
  source : jstring;
  raw : bool;
  batchIndex : option nat;
  batchSize : option nat;
  waveformType : option Channel;
  frameMeta : FrameMeta
}.

Record Sample := {
  amplitude : Number;
  timestamp : Z;
  metadata : SampleMeta
}.

(** What a data callback is called with: the spread payload of an envelope,
    one sample, or an array of samples. *)
Inductive Payload :=
| PObject (o : JSObject)
| PSample (s : Sample)
| PBatch (l : list Sample).

(** A callback is known by an identity and by whether it raises on a given
    argument; it does not touch the registry. *)
Record Callback := {
  cb_id : nat;
  cb_raises : Payload -> bool
}.

Inductive LogSite :=
| JsonParseFailed
| MessageHandlingFailed
| SocketError
| UnparsablePoint (c : option Channel) (point : jstring)
| UnparsableMessage (text : jstring).

(** The observable effects of a handler, in order.  [console.log] lines are
    left out; [console.warn] and [console.error] are kept. *)
Inductive Event :=
| EvData (cb : nat) (p : Payload)
| EvOnError
| EvOnConnect
| EvOnDisconnect
| EvWarn (site : LogSite)
| EvError (site : LogSite).

Inductive Outcome := Returned | Raised.

(** Calling a callback: the call is recorded, and it returns or raises. *)
Definition invoke (cb : Callback) (p : Payload) : list Event * Outcome :=
  ([EvData (cb_id cb) p], if cb_raises cb p then Raised else Returned).

(** The amplitude normalisation shared by both transports: a string
    amplitude that [parseFloat] reads as a number is replaced by that
    number, any other amplitude is kept as it is. *)
Definition normalizeAmplitude (amp : JSValue) (o : JSObject) : JSObject :=
  match amp with
  | JStr s =>
      let numValue := parseFloat s in
      if negb (isNaN numValue) then objSet (str "amplitude") (JNum numValue) o
      else o
  | _ => o
  end.

(** ** The native WebSocket handler: [connectNativeWebSocket] *)

Record Handlers := {
  onConnect : bool;
  onDisconnect : bool;
  onError : bool;
  onEarthquakeData : option Callback
}.

Definition expectChar (c : N) (s : jstring) : option jstring :=
  match s with
  | d :: r => if (d =? c)%N then Some r else None
  | [] => None
  end.

(** [\d+] followed by a non-digit: all the digits there are, at least one. *)
Definition digits1 (s : jstring) : option (jstring * jstring) :=
  match span isDigit s with
  | ([], _) => None
  | (ds, r) => Some (ds, r)
  end.

(** [event.data.match(/^T\d+H\d+V\d+,/)] as a test. *)
Definition matchMetaPrefix (s : jstring) : bool :=
  match expectChar (ch "T") s with
  | Some s1 =>
      match digits1 s1 with
      | Some (_, s2) =>
          match expectChar (ch "H") s2 with
          | Some s3 =>
              match digits1 s3 with
              | Some (_, s4) =>
                  match expectChar (ch "V") s4 with
                  | Some s5 =>
                      match digits1 s5 with
                      | Some (_, s6) =>
                          match expectChar (ch ",") s6 with
                          | Some _ => true
                          | None => false
                          end
                      | None => false
                      end
                  | None => false
                  end
              | None => false
              end
          | None => false
          end
      | None => false
      end
  | None => false
  end.

(** [s.match(/c(\d+)/)]: the digits captured at the leftmost place where
    the letter [c] is followed by a digit. *)
Fixpoint matchTagDigits (c : N) (s : jstring) : option jstring :=
  match s with
  | [] => None
  | d :: r =>
      if (d =? c)%N then
        match fst (span isDigit r) with
        | [] => matchTagDigits c r
        | ds => Some ds
        end
      else matchTagDigits c r
  end.

(** [s.split(',').map(p => p.trim()).filter(p => p.length > 0)] *)
Definition points (s : jstring) : list jstring :=
  filter (fun p => (0 <? length p)%nat) (map trim (split (str ",") s)).

(** [new Date(currentTime.getTime() - (n - 1 - index) * 10)], in
    milliseconds. *)
Definition pointTime (currentTime : Z) (n index : nat) : Z :=
  (currentTime - (Z.of_nat n - 1 - Z.of_nat index) * 10)%Z.

(** The body of the [map] over one waveform: [None] is the [null] returned
    for a point that [parseFloat] cannot read. *)
Definition mapPoint (currentTime : Z) (wave : option Channel) (meta : FrameMeta)
    (n : nat) (ip : nat * jstring) : option Sample :=
  let amp := parseFloat (snd ip) in
  if isNaN amp then None
  else Some {| amplitude := amp;
               timestamp := pointTime currentTime n (fst ip);
               metadata := {| source := str "external";
                              raw := true;
                              batchIndex := Some (fst ip);
                              batchSize := Some n;
                              waveformType := wave;
                              frameMeta := meta |} |}.

Definition mapPoints (currentTime : Z) (wave : option Channel) (meta : FrameMeta)
    (pts : list jstring) : list (option Sample) :=
  map (mapPoint currentTime wave meta (length pts)) (indexed_from 0 pts).

(** [.filter(point => point !== null)] *)
Fixpoint nonNull (l : list (option Sample)) : list Sample :=
  match l with
  | [] => []
  | Some s :: l' => s :: nonNull l'
  | None :: l' => nonNull l'
  end.

(** The samples of one waveform. *)
Definition dataPoints (currentTime : Z) (wave : option Channel) (meta : FrameMeta)
    (pts : list jstring) : list Sample :=
  nonNull (mapPoints currentTime wave meta pts).

(** The [console.warn] lines of one waveform, one per unreadable point. *)
Definition pointWarnings (wave : option Channel) (pts : list jstring) : list Event :=
  map (fun p => EvWarn (UnparsablePoint wave p))
      (filter (fun p => isNaN (parseFloat p)) pts).

(** The metadata prefix: the fields read from [event.data.split(',')[0]] and
    the text after the first comma. *)
Definition readMetaPrefix (data : jstring) : FrameMeta * jstring :=
  if matchMetaPrefix data then
    let metaPart := hd [] (split (str ",") data) in
    ({| temperature := option_map parseInt (matchTagDigits (ch "T") metaPart);
        humidity := option_map parseInt (matchTagDigits (ch "H") metaPart);
        voltage := option_map parseInt (matchTagDigits (ch "V") metaPart);
        dataType := None; secondWaveform := None; thirdWaveform := None |},
     match indexOf (ch ",") data with
     | Some i => substring (S i) data
     | None => substring 0 data
     end)
  else (emptyMeta, data).

Definition withDataType (m : FrameMeta) (t : string) (second third : option bool) : FrameMeta :=
  {| temperature := temperature m; humidity := humidity m; voltage := voltage m;
     dataType := Some (str t); secondWaveform := second; thirdWaveform := third |}.

(** The waveforms of a frame whose text starts with [X]: the metadata as
    completed by the branch taken, [firstWaveformPoints], and
    [secondWaveform] and [thirdWaveform] when they are set.  [Throw] is the
    TypeError of [xyParts[1].split] when the text before [,Z] has no [,Y].
    In the branch without [,Y] and [,Z] the source stores the points in
    [dataPoints], which nothing reads afterwards: [firstWaveformPoints]
    stays empty. *)
Definition splitWaveforms (meta : FrameMeta) (parsedMessage : jstring)
  : Exc (FrameMeta * list jstring * option (list jstring) * option (list jstring)) :=
  if includes parsedMessage (str ",Z") then
    let parts := split (str ",Z") parsedMessage in
    let xyParts := split (str ",Y") (nth 0 parts []) in
    let firstWaveformPoints := points (substring 1 (nth 0 xyParts [])) in
    match nth_error xyParts 1, nth_error parts 1 with
    | Some y, Some z =>
        Ok (withDataType meta "triple-waveform" (Some true) (Some true),
            firstWaveformPoints, Some (points y), Some (points z))
    | _, _ => Throw
    end
  else if includes parsedMessage (str ",Y") then
    let parts := split (str ",Y") parsedMessage in
    let firstWaveformPoints := points (substring 1 (nth 0 parts [])) in
    match nth_error parts 1 with
    | Some y =>
        Ok (withDataType meta "dual-waveform" (Some true) None,
            firstWaveformPoints, Some (points y), None)
    | None => Throw
    end
  else
    Ok (withDataType meta "waveform" None None, [], None, None).

Definition optionalWave (currentTime : Z) (c : Channel) (meta : FrameMeta)
    (w : option (list jstring)) : list Sample :=
  match w with
  | Some pts => dataPoints currentTime (Some c) meta pts
  | None => []
  end.

Definition optionalWarnings (c : Channel) (w : option (list jstring)) : list Event :=
  match w with
  | Some pts => pointWarnings (Some c) pts
  | None => []
  end.

(** [if (onEarthquakeData && cond) onEarthquakeData(p)] *)
Definition callData (h : Handlers) (cond : bool) (p : Payload) : list Event * Outcome :=
  match onEarthquakeData h with
  | Some cb => if cond then invoke cb p else ([], Returned)
  | None => ([], Returned)
  end.

(** What a [try { body } catch { console.error(...) }] leaves behind. *)
Definition caught (site : LogSite) (r : list Event * Outcome) : list Event :=
  match snd r with
  | Returned => fst r
  | Raised => fst r ++ [EvError site]
  end.

Section NativeWebSocket.

(** [JSON.parse] is the host's: [None] is a SyntaxError. *)
Variable JSON_parse : jstring -> option JSValue.

(** The structured-envelope branch, inside its own [try]. *)
Definition onEnvelope (h : Handlers) (text : jstring) : list Event * Outcome :=
  match JSON_parse text with
  | None => ([], Raised)
  | Some data =>
      match getProp data (str "type"), getProp data (str "payload") with
      | Ok ty, Ok payload =>
          match ty with
          | JStr t =>
              if jstring_eqb t (str "earthquake-data") && truthy payload then
                let processedData := spread payload in
                callData h true
                  (PObject (normalizeAmplitude (objGet (str "amplitude") processedData)
                                               processedData))
              else ([], Returned)
          | _ => ([], Returned)
          end
      | _, _ => ([], Raised)
      end
  end.

(** The comma-separated branch. *)
Definition onCommaSeparated (h : Handlers) (currentTime : Z) (data : jstring)
  : list Event * Outcome :=
  let (meta0, parsedMessage) := readMetaPrefix data in
  if startsWith parsedMessage (str "X") then
    match splitWaveforms meta0 parsedMessage with
    | Throw => ([], Raised)
    | Ok (meta, firstWaveformPoints, secondWaveform, thirdWaveform) =>
        let allProcessedPoints :=
          dataPoints currentTime (Some ChX) meta firstWaveformPoints
          ++ optionalWave currentTime ChY meta secondWaveform
          ++ optionalWave currentTime ChZ meta thirdWaveform in
        let warnings :=
          pointWarnings (Some ChX) firstWaveformPoints
          ++ optionalWarnings ChY secondWaveform
          ++ optionalWarnings ChZ thirdWaveform in
        let r := callData h (0 <? length allProcessedPoints)%nat (PBatch allProcessedPoints) in
        (warnings ++ fst r, snd r)
    end
  else
    let pts := points parsedMessage in
    let processedDataPoints := dataPoints currentTime None meta0 pts in
    let r := callData h (0 <? length processedDataPoints)%nat (PBatch processedDataPoints) in
    (pointWarnings None pts ++ fst r, snd r).

(** The single-value branch. *)
Definition onSingleValue (h : Handlers) (currentTime : Z) (data : jstring)
  : list Event * Outcome :=
  let amp := parseFloat data in
  if negb (isNaN amp) then
    callData h true
      (PSample {| amplitude := amp;
                  timestamp := currentTime;
                  metadata := {| source := str "external"; raw := true;
                                 batchIndex := None; batchSize := None;
                                 waveformType := None; frameMeta := emptyMeta |} |})
  else ([EvWarn (UnparsableMessage data)], Returned).

(** [nativeWs.onmessage] for a text message that arrives at [currentTime]. *)
Definition onmessage (h : Handlers) (currentTime : Z) (data : jstring) : list Event :=
  caught MessageHandlingFailed
    (if startsWith data (str "{") || startsWith data (str "[") then
       (caught JsonParseFailed (onEnvelope h data), Returned)
     else if includes data (str ",") then onCommaSeparated h currentTime data
     else onSingleValue h currentTime data).

(** The text messages of one connection, each with its arrival time,
    handled in the order they arrive.  The handler keeps nothing from one
    message to the next. *)
Definition onmessages (h : Handlers) (msgs : list (Z * jstring)) : list Event :=
  flat_map (fun m => onmessage h (fst m) (snd m)) msgs.

(** [nativeWs.onopen], [nativeWs.onclose] and [nativeWs.onerror]. *)
Definition onopen (h : Handlers) : list Event :=
  if onConnect h then [EvOnConnect] else [].

Definition onclose (h : Handlers) : list Event :=
  if onDisconnect h then [EvOnDisconnect] else [].

Definition onerror (h : Handlers) : list Event :=
  EvError SocketError :: (if onError h then [EvOnError] else []).

End NativeWebSocket.

(** ** The Socket.IO registry: [subscribeToEarthquakeData] *)

(** A Socket.IO client socket: the lifecycle callbacks given to
    [connectSocket] and the number of ['earthquake-data'] listeners attached
    so far.  Every such listener is the same closure over the module's
    [subscribers] variable, so their number is all that distinguishes two
    sockets. *)
Record Socket := {
  lifecycle : Handlers;
  dataListeners : nat
}.

(** The module state: [socket] and [subscribers]. *)
Record Service := {
  socket : option Socket;
  subscribers : list Callback
}.

Definition initialService : Service := {| socket := None; subscribers := [] |}.

Definition connectSocket (h : Handlers) (st : Service) : Service :=
  {| socket := Some {| lifecycle := h; dataListeners := 0 |};
     subscribers := subscribers st |}.

Definition disconnectSocket (st : Service) : Service :=
  {| socket := None; subscribers := subscribers st |}.

Definition subscribeToEarthquakeData (callback : Callback) (st : Service) : Service :=
  match socket st with
  | None => st
  | Some s =>
      {| socket := Some {| lifecycle := lifecycle s;
                           dataListeners := S (dataListeners s) |};
         subscribers := subscribers st ++ [callback] |}
  end.

Definition unsubscribeFromEarthquakeData (st : Service) : Service :=
  {| socket := match socket st with
               | Some s => Some {| lifecycle := lifecycle s; dataListeners := 0 |}
               | None => None
               end;
     subscribers := [] |}.

(** [subscribers.forEach(cb => cb(processedData))]: a callback that raises
    ends the loop, the exception leaves [forEach]. *)
Fixpoint forEach (cbs : list Callback) (p : Payload) : list Event * Outcome :=
  match cbs with
  | [] => ([], Returned)
  | cb :: rest =>
      match invoke cb p with
      | (ev, Raised) => (ev, Raised)
      | (ev, Returned) => let r := forEach rest p in (ev ++ fst r, snd r)
      end
  end.

(** The listener that each call of [subscribeToEarthquakeData] attaches. *)
Definition dataListener (subs : list Callback) (data : JSValue) : list Event * Outcome :=
  let processedData := spread data in
  match getProp data (str "amplitude") with
  | Throw => ([], Raised)
  | Ok amp => forEach subs (PObject (normalizeAmplitude amp processedData))
  end.

(** The emitter calls the listeners of an event in the order they were
    attached; an exception in one leaves the emitter. *)
Fixpoint emitTo (n : nat) (subs : list Callback) (data : JSValue) : list Event * Outcome :=
  match n with
  | O => ([], Returned)
  | S n' =>
      match dataListener subs data with
      | (ev, Raised) => (ev, Raised)
      | (ev, Returned) => let r := emitTo n' subs data in (ev ++ fst r, snd r)
      end
  end.

(** One incoming ['earthquake-data'] message. *)
Definition receive (st : Service) (data : JSValue) : list Event * Outcome :=
  match socket st with
  | Some s => emitTo (dataListeners s) (subscribers st) data
  | None => ([], Returned)
  end.

(** How often the callback [id] was called in a trace. *)
Fixpoint calls (id : nat) (tr : list Event) : nat :=
  match tr with
  | [] => 0
  | EvData i _ :: tr' => (if Nat.eqb i id then 1 else 0) + calls id tr'
  | _ :: tr' => calls id tr'
  end.

Fixpoint subscribeAll (cbs : list Callback) (st : Service) : Service :=
  match cbs with
  | [] => st
  | cb :: rest => subscribeAll rest (subscribeToEarthquakeData cb st)
  end.

(** ** The test encoders *)

Inductive ReadyState := CONNECTING | OPEN | CLOSING | CLOSED.

Definition isOpen (nativeWs : option ReadyState) : bool :=
  match nativeWs with Some OPEN => true | _ => false end.

Fixpoint zeros (n : nat) : jstring :=
  match n with O => [] | S n' => ch "0" :: zeros n' end.

(** [x.toFixed(2)] for [x >= 0], given the integer [n] that the method
    picks with [n / 100] nearest to [x]: the digits of [n], padded with
    zeros to three, with a point before the last two. *)
Definition toFixed2 (n : N) : jstring :=
  let m := digitsOf n in
  let m' := zeros (3 - length m) ++ m in
  let k := length m' in
  firstn (k - 2) m' ++ ch "." :: skipn (k - 2) m'.


(** [sendTripleWaveformTestData], given its random draws. *)
Definition sendTripleWaveformTestData (nativeWs : option ReadyState)
    (temperature humidity voltage : N) (xs ys zs : list N) : bool * option jstring :=
  if isOpen nativeWs then
    (true, Some (ch "T" :: digitsOf temperature ++ ch "H" :: digitsOf humidity
                 ++ ch "V" :: digitsOf voltage
                 ++ str ",X" ++ join (str ",") (map toFixed2 xs)
                 ++ str ",Y" ++ join (str ",") (map toFixed2 ys)
                 ++ str ",Z" ++ join (str ",") (map toFixed2 zs)))
  else (false, None).

(** The samples handed to data callbacks in a trace. *)
Definition payloadSamples (p : Payload) : list Sample :=
  match p with
  | PObject _ => []
  | PSample s => [s]
  | PBatch l => l
  end.

Fixpoint emittedSamples (tr : list Event) : list Sample :=
  match tr with
  | [] => []
  | EvData _ p :: tr' => payloadSamples p ++ emittedSamples tr'
  | _ :: tr' => emittedSamples tr'
  end.

Definition hasChannel (c : option Channel) (s : Sample) : bool :=
  match waveformType (metadata s), c with
  | Some ChX, Some ChX | Some ChY, Some ChY | Some ChZ, Some ChZ | None, None => true
  | _, _ => false
  end.


(** ** A reader for JSON texts

    [JSON.parse] belongs to the host; the handler above takes it as a
    parameter.  [JSON_parse_text] is a reader for the JSON grammar, used to
    run the handler on concrete envelopes. *)

Definition quote : N := 34.

(** A JSON text written with ['] where the text has the double quote. *)
Definition jsonText (s : string) : jstring :=
  map (fun c => if (c =? ch "'")%N then quote else c) (str s).

Definition isJsonSpace (c : N) : bool :=
  ((c =? 32) || (c =? 9) || (c =? 10) || (c =? 13))%N.

Definition hexValue (c : N) : option N :=
  (if (48 <=? c) && (c <=? 57) then Some (c - 48)
   else if (97 <=? c) && (c <=? 102) then Some (c - 87)
   else if (65 <=? c) && (c <=? 70) then Some (c - 55)
   else None)%N.

Definition escapeValue (c : N) : option N :=
  (if c =? quote then Some c
   else if c =? ch "\" then Some c
   else if c =? ch "/" then Some c
   else if c =? ch "b" then Some 8
   else if c =? ch "f" then Some 12
   else if c =? ch "n" then Some 10
   else if c =? ch "r" then Some 13
   else if c =? ch "t" then Some 9
   else None)%N.

(** The characters of a JSON string after its opening quote, and the text
    after its closing quote. *)
Fixpoint jsonString (s : jstring) : option (jstring * jstring) :=
  match s with
  | [] => None
  | c :: r =>
      if (c =? quote)%N then Some ([], r)
      else if (c =? ch "\")%N then
        match r with
        | e :: r1 =>
            if (e =? ch "u")%N then
              match r1 with
              | h1 :: h2 :: h3 :: h4 :: r2 =>
                  match hexValue h1, hexValue h2, hexValue h3, hexValue h4, jsonString r2 with
                  | Some a, Some b, Some c', Some d, Some (t, rest) =>
                      Some ((a * 4096 + b * 256 + c' * 16 + d)%N :: t, rest)
                  | _, _, _, _, _ => None
                  end
              | _ => None
              end
            else
              match escapeValue e, jsonString r1 with
              | Some v, Some (t, rest) => Some (v :: t, rest)
              | _, _ => None
              end
        | [] => None
        end
      else if (c <? 32)%N then None
      else match jsonString r with
           | Some (t, rest) => Some (c :: t, rest)
           | None => None
           end
  end.

(** A JSON number: [-? int frac? exp?], no leading zeros, at least one digit
    after a point and in an exponent. *)
Definition jsonNumber (s : jstring) : option (Number * jstring) :=
  let (neg, s1) := match s with
                   | c :: r => if (c =? ch "-")%N then (true, r) else (false, s)
                   | [] => (false, s)
                   end in
  let (ip, r) := span isDigit s1 in
  let intOk := match ip with
               | [] => false
               | [_] => true
               | c :: _ => negb (c =? ch "0")%N
               end in
  if negb intOk then None
  else
    let '(fp, r1, fracOk) :=
      match r with
      | c :: r' =>
          if (c =? ch ".")%N then
            let (fp, r1) := span isDigit r' in
            (fp, r1, match fp with [] => false | _ => true end)
          else ([], r, true)
      | [] => ([], r, true)
      end in
    if negb fracOk then None
    else
      let '(e, r2, expOk) :=
        match r1 with
        | c :: r' =>
            if ((c =? ch "e") || (c =? ch "E"))%N then
              let (eneg, r'') :=
                match r' with
                | d :: t => if (d =? ch "-")%N then (true, t)
                            else if (d =? ch "+")%N then (false, t) else (false, r')
                | [] => (false, r')
                end in
              let (ds, r2) := span isDigit r'' in
              (if eneg then (- Z.of_N (digitsValue ds))%Z else Z.of_N (digitsValue ds),
               r2, match ds with [] => false | _ => true end)
            else (0%Z, r1, true)
        | [] => (0%Z, r1, true)
        end in
      if negb expOk then None
      else Some (Fin (signed neg (decimalQ (digitsValue (ip ++ fp))
                                           (e - Z.of_nat (length fp)))), r2).

Definition jsonLiteral (word : string) (v : JSValue) (s : jstring) : option (JSValue * jstring) :=
  if startsWith s (str word) then Some (v, skipn (length (str word)) s) else None.

(** One JSON value at the head of the text, and the text after it.  The
    counter bounds the depth of the recursion; the text's length is
    enough. *)
Fixpoint jsonValue (fuel : nat) (s : jstring) : option (JSValue * jstring) :=
  match fuel with
  | O => None
  | S f =>
      match dropWhile isJsonSpace s with
      | [] => None
      | c :: r =>
          if (c =? ch "{")%N then
            match dropWhile isJsonSpace r with
            | d :: r' => if (d =? ch "}")%N then Some (JObj [], r')
                         else jsonMembers f [] (d :: r')
            | [] => None
            end
          else if (c =? ch "[")%N then
            match dropWhile isJsonSpace r with
            | d :: r' => if (d =? ch "]")%N then Some (JArr [], r')
                         else jsonElements f [] (d :: r')
            | [] => None
            end
          else if (c =? quote)%N then
            match jsonString r with
            | Some (t, rest) => Some (JStr t, rest)
            | None => None
            end
          else if (c =? ch "t")%N then jsonLiteral "true" (JBool true) (c :: r)
          else if (c =? ch "f")%N then jsonLiteral "false" (JBool false) (c :: r)
          else if (c =? ch "n")%N then jsonLiteral "null" JNull (c :: r)
          else match jsonNumber (c :: r) with
               | Some (n, rest) => Some (JNum n, rest)
               | None => None
               end
      end
  end
with jsonMembers (fuel : nat) (acc : JSObject) (s : jstring) : option (JSValue * jstring) :=
  match fuel with
  | O => None
  | S f =>
      match dropWhile isJsonSpace s with
      | c :: r =>
          if (c =? quote)%N then
            match jsonString r with
            | Some (k, r1) =>
                match dropWhile isJsonSpace r1 with
                | d :: r2 =>
                    if (d =? ch ":")%N then
                      match jsonValue f r2 with
                      | Some (v, r3) =>
                          match dropWhile isJsonSpace r3 with
                          | e :: r4 =>
                              if (e =? ch ",")%N then jsonMembers f (objSet k v acc) r4
                              else if (e =? ch "}")%N then Some (JObj (objSet k v acc), r4)
                              else None
                          | [] => None
                          end
                      | None => None
                      end
                    else None
                | [] => None
                end
            | None => None
            end
          else None
      | [] => None
      end
  end
with jsonElements (fuel : nat) (acc : list JSValue) (s : jstring) : option (JSValue * jstring) :=
  match fuel with
  | O => None
  | S f =>
      match jsonValue f s with
      | Some (v, r) =>
          match dropWhile isJsonSpace r with
          | e :: r1 =>
              if (e =? ch ",")%N then jsonElements f (acc ++ [v]) r1
              else if (e =? ch "]")%N then Some (JArr (acc ++ [v]), r1)
              else None
          | [] => None
          end
      | None => None
      end
  end.

(** A whole text is one value between optional white space. *)
Definition JSON_parse_text (s : jstring) : option JSValue :=
  match jsonValue (2 * length s + 2) s with
  | Some (v, rest) =>
      match dropWhile isJsonSpace rest with
      | [] => Some v
      | _ => None
      end
  | None => None
  end.

(** ** The serial service *)

Module Serial.

(** *** [textDecoder.decode(value)]: UTF-8, [fatal: false], [ignoreBOM: true] *)

(** The state of the UTF-8 decoder between two bytes of a sequence. *)
Record Utf8 := {
  codePoint : N;
  bytesNeeded : nat;
  lower : N;
  upper : N
}.

Definition replacement : N := 65533.

(** The first byte of a sequence: a code point at once, the start of a
    longer sequence, or an error. *)
Definition leadByte (b : N) : N + Utf8 :=
  (if b <=? 127 then inl b
   else if (194 <=? b) && (b <=? 223) then
     inr {| codePoint := N.land b 31; bytesNeeded := 1; lower := 128; upper := 191 |}
   else if (224 <=? b) && (b <=? 239) then
     inr {| codePoint := N.land b 15; bytesNeeded := 2;
            lower := if b =? 224 then 160 else 128;
            upper := if b =? 237 then 159 else 191 |}
   else if (240 <=? b) && (b <=? 244) then
     inr {| codePoint := N.land b 7; bytesNeeded := 3;
            lower := if b =? 240 then 144 else 128;
            upper := if b =? 244 then 143 else 191 |}
   else inl replacement)%N.

(** The decoder over the bytes of one chunk; [st] is [None] between
    sequences.  A byte that cannot continue the open sequence ends it with a
    replacement character and is read again as a first byte; the end of the
    chunk inside a sequence gives a replacement character. *)
Fixpoint utf8Decode (st : option Utf8) (bytes : list N) : list N :=
  match bytes with
  | [] => match st with Some _ => [replacement] | None => [] end
  | b :: rest =>
      let fresh (pre : list N) :=
        match leadByte b with
        | inl c => pre ++ c :: utf8Decode None rest
        | inr s => pre ++ utf8Decode (Some s) rest
        end in
      match st with
      | None => fresh []
      | Some s =>
          if ((b <? lower s) || (upper s <? b))%N then fresh [replacement]
          else
            let c := N.lor (N.shiftl (codePoint s) 6) (N.land b 63) in
            match bytesNeeded s with
            | S (S k) => utf8Decode (Some {| codePoint := c; bytesNeeded := S k;
                                             lower := 128; upper := 191 |}) rest
            | _ => c :: utf8Decode None rest
            end
      end
  end.

(** A code point as UTF-16 code units. *)
Definition codeUnits (c : N) : jstring :=
  (if c <? 65536 then [c]
   else [55296 + N.shiftr (c - 65536) 10; 56320 + N.land (c - 65536) 1023])%N.

Definition decode (value : list N) : jstring :=
  flat_map codeUnits (utf8Decode None value).

(** [text.replace(/\uFFFD/g, '?')] *)
Definition replaceReplacement (text : jstring) : jstring :=
  map (fun c => if (c =? replacement)%N then ch "?" else c) text.

(** The class [[\x00-\x08\x0B\x0C\x0E-\x1F\x7F]] *)
Definition strippedControl (c : N) : bool :=
  ((c <=? 8) || (c =? 11) || (c =? 12) || ((14 <=? c) && (c <=? 31)) || (c =? 127))%N.

(** [text.replace(/[\x00-\x08\x0B\x0C\x0E-\x1F\x7F]/g, '')] *)
Definition stripControls (text : jstring) : jstring :=
  filter (fun c => negb (strippedControl c)) text.

(** The text that [_readLoop] hands to the data callback for one chunk. *)
Definition chunkText (value : list N) : jstring :=
  stripControls (replaceReplacement (decode value)).

(** ASCII control characters: U+0000 to U+001F and U+007F. *)
Definition isControl (c : N) : bool := ((c <=? 31) || (c =? 127))%N.

(** *** The service object and the port it drives *)

Inductive ErrorKind :=
| NoOpenPort          (* '没有打开的串口' *)
| TypeError
| InvalidStateError
| DeviceError
| CallbackError.

Record Result := {
  success : bool;
  error : option ErrorKind
}.

Definition succeeded : Result := {| success := true; error := None |}.
Definition failed (e : ErrorKind) : Result := {| success := false; error := Some e |}.

Inductive ReadResult :=
| Chunk (value : list N)
| Done
| ReadFailed.

Inductive Promise :=
| Pending (r : nat)
| Fulfilled
| Rejected.

Inductive SEvent :=
| SData (text : jstring)
| SError (e : ErrorKind)
| SConsoleError.

(** The [SerialPort] and its readable stream: whether the port is open,
    which reader holds the lock of the stream, how many readers were
    created, and the readers on which [releaseLock()] and [cancel()] were
    called, in order. *)
Record Platform := {
  portOpened : bool;
  lockedBy : option nat;
  nextReader : nat;
  releases : list nat;
  cancels : list nat
}.

(** The fields of [serialService].  [port] says whether [this.port] is set,
    [reader] is the reader object in [this.reader]. *)
Record Service := {
  port : bool;
  reader : option nat;
  readLoopPromise : option Promise;
  dataCallback : option (jstring -> bool);
  errorCallback : option (ErrorKind -> bool);
  keepReading : bool;
  platform : Platform
}.

Definition initialPlatform : Platform :=
  {| portOpened := false; lockedBy := None; nextReader := 0;
     releases := []; cancels := [] |}.

Definition initialService : Service :=
  {| port := false; reader := None; readLoopPromise := None;
     dataCallback := None; errorCallback := None; keepReading := false;
     platform := initialPlatform |}.

Definition holdsLock (r : nat) (p : Platform) : bool :=
  match lockedBy p with
  | Some r' => Nat.eqb r r'
  | None => false
  end.

(** [reader.releaseLock()]: the call is recorded; the lock is given up when
    the reader holds it. *)
Definition releaseLock (r : nat) (p : Platform) : Platform :=
  {| portOpened := portOpened p;
     lockedBy := if holdsLock r p then None else lockedBy p;
     nextReader := nextReader p;
     releases := releases p ++ [r];
     cancels := cancels p |}.

(** [port.readable.getReader()]: a TypeError when the port is not open
    ([readable] is null) or the stream is locked. *)
Definition getReader (p : Platform) : option (nat * Platform) :=
  if portOpened p then
    match lockedBy p with
    | Some _ => None
    | None =>
        Some (nextReader p,
              {| portOpened := true; lockedBy := Some (nextReader p);
                 nextReader := S (nextReader p);
                 releases := releases p; cancels := cancels p |})
    end
  else None.

(** [reader.cancel()]: rejected with a TypeError once the reader has
    released its lock. *)
Definition cancel (r : nat) (p : Platform) : option Platform :=
  if holdsLock r p then
    Some {| portOpened := portOpened p; lockedBy := lockedBy p;
            nextReader := nextReader p; releases := releases p;
            cancels := cancels p ++ [r] |}
  else None.

(** [port.close()]: rejected when the port is not open or its readable
    stream is locked. *)
Definition close (p : Platform) : ErrorKind + Platform :=
  if negb (portOpened p) then inl InvalidStateError
  else match lockedBy p with
       | Some _ => inl TypeError
       | None => inr {| portOpened := false; lockedBy := None;
                        nextReader := nextReader p; releases := releases p;
                        cancels := cancels p |}
       end.

Definition withPlatform (st : Service) (p : Platform) : Service :=
  {| port := port st; reader := reader st; readLoopPromise := readLoopPromise st;
     dataCallback := dataCallback st; errorCallback := errorCallback st;
     keepReading := keepReading st; platform := p |}.

Definition withPromise (st : Service) (pr : option Promise) : Service :=
  {| port := port st; reader := reader st; readLoopPromise := pr;
     dataCallback := dataCallback st; errorCallback := errorCallback st;
     keepReading := keepReading st; platform := platform st |}.

Definition withKeepReading (st : Service) (k : bool) : Service :=
  {| port := port st; reader := reader st; readLoopPromise := readLoopPromise st;
     dataCallback := dataCallback st; errorCallback := errorCallback st;
     keepReading := k; platform := platform st |}.

(** [openPort(port, options)]; [deviceOk] says whether the device can be
    opened.  [this.port] is set before [port.open] is awaited.  The line
    parameters and the RTS and DTR signals set after opening play no part
    in reading and closing, and are left out. *)
Definition openPort (deviceOk : bool) (st : Service) : Service * Result :=
  let p := platform st in
  let st1 := {| port := true; reader := reader st; readLoopPromise := readLoopPromise st;
                dataCallback := dataCallback st; errorCallback := errorCallback st;
                keepReading := keepReading st; platform := p |} in
  if portOpened p then (st1, failed InvalidStateError)
  else if deviceOk then
    (withPlatform st1 {| portOpened := true; lockedBy := lockedBy p;
                         nextReader := nextReader p; releases := releases p;
                         cancels := cancels p |}, succeeded)
  else (st1, failed DeviceError).

(** [startReading(dataCallback, errorCallback)]: the loop it starts runs up
    to its first [await reader.read()]. *)
Definition startReading (dcb : option (jstring -> bool)) (ecb : option (ErrorKind -> bool))
    (st : Service) : Service * Result :=
  if negb (port st) then (st, failed NoOpenPort)
  else
    let st1 := {| port := port st; reader := reader st;
                  readLoopPromise := readLoopPromise st;
                  dataCallback := dcb; errorCallback := ecb;
                  keepReading := true; platform := platform st |} in
    match getReader (platform st) with
    | None => (st1, failed TypeError)
    | Some (r, p) =>
        ({| port := port st; reader := Some r;
            readLoopPromise := Some (Pending r);
            dataCallback := dcb; errorCallback := ecb;
            keepReading := true; platform := p |}, succeeded)
    end.

(** The [finally] of [_readLoop] and the settling of its promise. *)
Definition finish (r : nat) (pr : Promise) (st : Service) : Service :=
  withPromise (withPlatform st (releaseLock r (platform st))) (Some pr).

(** The [catch] of [_readLoop]. *)
Definition catchPath (r : nat) (e : ErrorKind) (st : Service) : Service * list SEvent :=
  match errorCallback st with
  | Some ecb => (finish r (if ecb e then Rejected else Fulfilled) st,
                 [SConsoleError; SError e])
  | None => (finish r Fulfilled st, [SConsoleError])
  end.

(** [_readLoop(reader)], one turn at a time: the pending [reader.read()]
    settles with [rr], and the loop runs to its next [await] or, through
    its [finally], to its end. *)
Definition readLoop (rr : ReadResult) (st : Service) : Service * list SEvent :=
  match readLoopPromise st with
  | Some (Pending r) =>
      match rr with
      | Done => (finish r Fulfilled st, [])
      | ReadFailed => catchPath r DeviceError st
      | Chunk value =>
          let text := chunkText value in
          let raised := match dataCallback st with
                        | Some cb => cb text
                        | None => false
                        end in
          let ev := match dataCallback st with
                    | Some _ => [SData text]
                    | None => []
                    end in
          if raised then
            let (st', ev') := catchPath r CallbackError st in (st', ev ++ ev')
          else if keepReading st then (st, ev)
          else (finish r Fulfilled st, ev)
      end
  | _ => (st, [])
  end.

(** The end of [closePort], once the read loop has settled. *)
Definition closeAfterLoop (st : Service) : Service * Result :=
  match readLoopPromise st with
  | Some Rejected => (st, failed CallbackError)
  | _ =>
      let afterCancel :=
        match reader st with
        | Some r =>
            match cancel r (platform st) with
            | Some p =>
                inr {| port := port st; reader := None;
                       readLoopPromise := readLoopPromise st;
                       dataCallback := dataCallback st;
                       errorCallback := errorCallback st;
                       keepReading := keepReading st; platform := p |}
            | None => inl TypeError
            end
        | None => inr st
        end in
      match afterCancel with
      | inl e => (st, failed e)
      | inr st1 =>
          match close (platform st1) with
          | inl e => (st1, failed e)
          | inr p =>
              ({| port := false; reader := reader st1;
                  readLoopPromise := readLoopPromise st1;
                  dataCallback := dataCallback st1;
                  errorCallback := errorCallback st1;
                  keepReading := keepReading st1; platform := p |}, succeeded)
          end
      end
  end.

(** [closePort()].  While it awaits the read loop, the loop is blocked in
    [reader.read()]; [next] is what that read settles with, if it ever
    does.  [None] as a result: [closePort] never returns. *)
Definition closePort (next : option ReadResult) (st : Service)
  : option (Service * Result * list SEvent) :=
  if negb (port st) then Some (st, failed NoOpenPort, [])
  else
    let st1 := withKeepReading st false in
    match readLoopPromise st1 with
    | Some (Pending _) =>
        match next with
        | None => None
        | Some rr =>
            let (st2, ev) := readLoop rr st1 in
            let (st3, res) := closeAfterLoop st2 in
            Some (st3, res, ev)
        end
    | _ => let (st3, res) := closeAfterLoop st1 in Some (st3, res, [])
    end.

(** The calls a client makes and the reads the device completes. *)
Inductive Op :=
| OpOpen (deviceOk : bool)
| OpStart (dcb : option (jstring -> bool)) (ecb : option (ErrorKind -> bool))
| OpRead (rr : ReadResult)
| OpClose (next : option ReadResult).

Definition step (op : Op) (st : Service) : option Service :=
  match op with
  | OpOpen ok => Some (fst (openPort ok st))
  | OpStart d e => Some (fst (startReading d e st))
  | OpRead rr => Some (fst (readLoop rr st))
  | OpClose next =>
      match closePort next st with
      | Some (st', _, _) => Some st'
      | None => None
      end
  end.

(** A run stops at a [closePort] that never returns. *)
Fixpoint run (ops : list Op) (st : Service) : Service :=
  match ops with
  | [] => st
  | op :: ops' =>
      match step op st with
      | Some st' => run ops' st'
      | None => st
      end
  end.


End Serial.

(** ** Vocabulary of the properties *)

Definition comma : N := ch ",".

Definition commaFree (t : jstring) : Prop := ~ In comma t.

Ltac in_range := split; [apply N.leb_le | apply N.ltb_lt]; reflexivity.

Definition canStartNumber (c : N) : bool :=
  (isWhiteSpace c || isDigit c || (c =? ch "+") || (c =? ch "-")
   || (c =? ch ".") || (c =? ch "I"))%N.

Definition digitStep (acc c : N) : N := (acc * 10 + (c - 48))%N.

Definition numeric (p : jstring) : Prop := isNaN (parseFloat p) = false.

(** The samples built from the points [l], which sit at the indices [k],
    [k + 1], ... of a waveform of [n] points. *)
Definition pointsFrom (now : Z) (w : option Channel) (m : FrameMeta) (n k : nat)
    (l : list jstring) : list Sample :=
  nonNull (map (mapPoint now w m n) (indexed_from k l)).

Definition singleSample (now : Z) (amp : Number) : Sample :=
  {| amplitude := amp; timestamp := now;
     metadata := {| source := str "external"; raw := true;
                    batchIndex := None; batchSize := None;
                    waveformType := None; frameMeta := emptyMeta |} |}.

(** The four shapes of what one message delivers. *)
Inductive Delivered (now : Z) : list Sample -> Prop :=
| DeliveredNothing : Delivered now []
| DeliveredOne amp : isNaN amp = false -> Delivered now [singleSample now amp]
| DeliveredUnlabeled meta pts : Delivered now (dataPoints now None meta pts)
| DeliveredWaves meta x y z :
    Delivered now (dataPoints now (Some ChX) meta x ++ optionalWave now ChY meta y
                   ++ optionalWave now ChZ meta z).

(** A sample is dated by its position in its batch: the arrival time less
    ten milliseconds for each point after it. *)
Definition sampleTimeOk (now : Z) (s : Sample) : Prop :=
  match batchIndex (metadata s), batchSize (metadata s) with
  | Some i, Some n =>
      i < n /\ timestamp s = (now - (Z.of_nat n - 1 - Z.of_nat i) * 10)%Z
  | None, None => timestamp s = now
  | _, _ => False
  end.

(** Callbacks and handlers to run the services on concrete inputs. *)
Definition quietCallback (id : nat) : Callback :=
  {| cb_id := id; cb_raises := fun _ => false |}.

Definition raisingCallback (id : nat) : Callback :=
  {| cb_id := id; cb_raises := fun _ => true |}.

Definition listening (cb : Callback) : Handlers :=
  {| onConnect := true; onDisconnect := true; onError := true;
     onEarthquakeData := Some cb |}.

Definition hundredths (n : N) : Number := Fin (Qred (Z.of_N n # 100)).

(** A point of a frame written by a peer: free of commas, and read by
    [parseFloat] as a number. *)
Definition numericToken (t : jstring) : Prop := numeric t /\ commaFree t.

(** A non-empty run of decimal digits. *)
Definition digitRun (t : jstring) : Prop :=
  t <> [] /\ Forall (fun c => isDigit c = true) t.

(** The text of a triple-waveform frame with a metadata prefix. *)
Definition tripleFrame (t h v : jstring) (xs ys zs : list jstring) : jstring :=
  ch "T" :: t ++ ch "H" :: h ++ ch "V" :: v
  ++ str ",X" ++ join (str ",") xs
  ++ str ",Y" ++ join (str ",") ys
  ++ str ",Z" ++ join (str ",") zs.

Definition hasPrefixMeta (t h v : jstring) (s : Sample) : Prop :=
  temperature (frameMeta (metadata s)) = Some (parseInt t) /\
  humidity (frameMeta (metadata s)) = Some (parseInt h) /\
  voltage (frameMeta (metadata s)) = Some (parseInt v).

(** The markers that open the second and the third waveform. *)
Definition markerY : jstring := [comma; ch "Y"].
Definition markerZ : jstring := [comma; ch "Z"].

(** What follows the second waveform: nothing, or a Z marker and its text. *)
Definition ending (tail : option jstring) : jstring :=
  match tail with
  | Some d => comma :: ch "Z" :: d
  | None => []
  end.

(** A frame that starts with the X marker and has two Y markers: [a] is
    the text up to the first one, [b] the text between the two, [c] the text
    after the second one. *)
Definition twiceY (a b c : jstring) (tail : option jstring) : jstring :=
  (ch "X" :: a ++ comma :: ch "Y" :: b ++ comma :: ch "Y" :: c) ++ ending tail.

(** The same frame without the second Y marker and the text after it. *)
Definition onceY (a b : jstring) (tail : option jstring) : jstring :=
  (ch "X" :: a ++ comma :: ch "Y" :: b) ++ ending tail.

(** The record of one call of a callback. *)
Definition called (p : Payload) (cb : Callback) : Event := EvData (cb_id cb) p.

(** What both transports hand over for a message with the payload [v] whose
    [amplitude] property is [amp]. *)
Definition processed (v amp : JSValue) : Payload :=
  PObject (normalizeAmplitude amp (spread v)).

Definition amplitudeOf (p : Payload) : JSValue :=
  match p with
  | PObject o => objGet (str "amplitude") o
  | _ => JUndefined
  end.

(** Bytes that the read loop forwards unchanged: printable ASCII, tab,
    line feed and carriage return. *)
Definition plainByte (b : N) : bool :=
  ((b =? 9) || (b =? 10) || (b =? 13) || ((32 <=? b) && (b <=? 126)))%N.

(** A byte that cannot start a UTF-8 sequence. *)
Definition invalidLead (b : N) : bool :=
  (((128 <=? b) && (b <=? 193)) || (245 <=? b))%N.


(** ** More of the services *)

(** The calls of the data callback in a trace: who was called, with what. *)
Fixpoint dataCalls (tr : list Event) : list (nat * Payload) :=
  match tr with
  | [] => []
  | EvData id p :: tr' => (id, p) :: dataCalls tr'
  | _ :: tr' => dataCalls tr'
  end.

Definition isWarn (e : Event) : bool :=
  match e with EvWarn _ => true | _ => false end.

(** A batch handed to the data callback is [PBatch l] with [l] not empty. *)
Definition properPayload (p : Payload) : Prop :=
  match p with
  | PBatch [] => False
  | _ => True
  end.

(** The text of a dual-waveform frame with a metadata prefix. *)
Definition dualFrame (t h v : jstring) (xs ys : list jstring) : jstring :=
  ch "T" :: t ++ ch "H" :: h ++ ch "V" :: v
  ++ str ",X" ++ join (str ",") xs
  ++ str ",Y" ++ join (str ",") ys.

(** [sendDualWaveformTestData], given its random draws. *)
Definition sendDualWaveformTestData (nativeWs : option ReadyState)
    (temperature humidity voltage : N) (xs ys : list N) : bool * option jstring :=
  if isOpen nativeWs then
    (true, Some (ch "T" :: digitsOf temperature ++ ch "H" :: digitsOf humidity
                 ++ ch "V" :: digitsOf voltage
                 ++ str ",X" ++ join (str ",") (map toFixed2 xs)
                 ++ str ",Y" ++ join (str ",") (map toFixed2 ys)))
  else (false, None).

(** The text of an unlabeled batch behind a metadata prefix. *)
Definition prefixedBatch (t h v : jstring) (ts : list jstring) : jstring :=
  ch "T" :: t ++ ch "H" :: h ++ ch "V" :: v ++ comma :: join (str ",") ts.

(** The whole numbers that a Number holds exactly, one by one: those up to
    [2^53].  [toString()] prints such a number as its decimal digits. *)
Definition safeCount (n : N) : bool := (n <=? 9007199254740992)%N.

(** The arguments of [sendRawAmplitude] that are covered: a string, whose
    [toString()] is itself, and a whole number up to [2^53]. *)
Inductive RawAmplitude :=
| RawText (s : jstring)
| RawCount (n : N) (safe : safeCount n = true).

Definition amplitudeToString (a : RawAmplitude) : jstring :=
  match a with
  | RawText s => s
  | RawCount n _ => digitsOf n
  end.

(** [sendRawAmplitude(amplitude)] *)
Definition sendRawAmplitude (nativeWs : option ReadyState) (amplitude : RawAmplitude)
  : bool * option jstring :=
  if isOpen nativeWs then (true, Some (amplitudeToString amplitude))
  else (false, None).

(** How the handler of one message can end: with nothing more, with one
    [console.error] line, with one call of the data callback, or with one
    call that raised followed by one [console.error] line. *)
Inductive Ending (h : Handlers) : list Event -> Prop :=
| EndNothing : Ending h []
| EndFailed site : Ending h [EvError site]
| EndCalled cb p :
    onEarthquakeData h = Some cb -> properPayload p -> cb_raises cb p = false ->
    Ending h [EvData (cb_id cb) p]
| EndRaised cb p site :
    onEarthquakeData h = Some cb -> properPayload p -> cb_raises cb p = true ->
    Ending h [EvData (cb_id cb) p; EvError site].

(** The metadata read from the prefix [T{t}H{h}V{v},] of a frame. *)
Definition prefixMeta (t h v : jstring) : FrameMeta :=
  {| temperature := Some (parseInt t); humidity := Some (parseInt h);
     voltage := Some (parseInt v);
     dataType := None; secondWaveform := None; thirdWaveform := None |}.

(** The number that is the integer [n]. *)
Definition whole (n : N) : Number := Fin (Qred (inject_Z (Z.of_N n))).

(** What a sample records of its waveform. *)
Definition channelOf (s : Sample) : option Channel := waveformType (metadata s).

(** The state of the serial service once a reader was created: the port is
    set and open, [this.reader] holds a reader, and either its loop runs and
    it holds the lock of the stream, or its loop has ended and the stream is
    unlocked. *)
Definition readerKept (st : Serial.Service) : Prop :=
  Serial.port st = true /\ Serial.portOpened (Serial.platform st) = true /\
  exists r, Serial.reader st = Some r /\
    ((Serial.readLoopPromise st = Some (Serial.Pending r) /\
      Serial.lockedBy (Serial.platform st) = Some r) \/
     ((Serial.readLoopPromise st = Some Serial.Fulfilled \/
       Serial.readLoopPromise st = Some Serial.Rejected) /\
      Serial.lockedBy (Serial.platform st) = None)).



(** ** More of the serial service: [sendData] and [getAvailablePorts] *)

Module SerialIO.

Definition isHighSurrogate (c : N) : bool := ((55296 <=? c) && (c <=? 56319))%N.
Definition isLowSurrogate (c : N) : bool := ((56320 <=? c) && (c <=? 57343))%N.

(** The UTF-8 bytes of a code point. *)
Definition utf8Bytes (c : N) : list N :=
  (if c <? 128 then [c]
   else if c <? 2048 then [192 + c / 64; 128 + c mod 64]
   else if c <? 65536 then [224 + c / 4096; 128 + (c / 64) mod 64; 128 + c mod 64]
   else [240 + c / 262144; 128 + (c / 4096) mod 64; 128 + (c / 64) mod 64;
         128 + c mod 64])%N.

(** [new TextEncoder().encode(data)]: the UTF-8 bytes of the text; a
    surrogate pair is one code point, a surrogate without its partner is
    encoded as U+FFFD. *)
Fixpoint encode (data : jstring) : list N :=
  match data with
  | [] => []
  | c :: rest =>
      if isHighSurrogate c then
        match rest with
        | d :: rest' =>
            if isLowSurrogate d
            then utf8Bytes (65536 + (c - 55296) * 1024 + (d - 56320)) ++ encode rest'
            else utf8Bytes Serial.replacement ++ encode rest
        | [] => utf8Bytes Serial.replacement
        end
      else if isLowSurrogate c then utf8Bytes Serial.replacement ++ encode rest
      else utf8Bytes c ++ encode rest
  end.




(** One entry of the list that [getAvailablePorts] returns. *)
Record PortEntry (P : Type) := {
  portId : jstring;
  portName : jstring;
  portOf : P
}.

(** The template [`port_${index}`] *)
Definition portIdOf (index : nat) : jstring :=
  str "port_" ++ digitsOf (N.of_nat index).

(** The template [`串口 ${index + 1}`]: two CJK characters, a space and
    the number. *)
Definition portNameOf (index : nat) : jstring :=
  [20018; 21475; 32]%N ++ digitsOf (N.of_nat (index + 1)).

(** [getAvailablePorts()]: [supported] is [isSupported()], [ports] what
    [navigator.serial.getPorts()] is fulfilled with, [None] when it is
    rejected. *)
Definition getAvailablePorts {P : Type} (supported : bool) (ports : option (list P))
  : list (PortEntry P) :=
  if supported then
    match ports with
    | Some l =>
        map (fun ip => {| portId := portIdOf (fst ip); portName := portNameOf (fst ip);
                          portOf := snd ip |})
            (indexed_from 0 l)
    | None => []
    end
  else [].

End SerialIO.

(** A code unit that [sendData] and the read loop carry unchanged:
    printable ASCII, tab, line feed, carriage return, and the characters
    U+0080 to U+07FF. *)
Definition carried (c : N) : bool := (plainByte c || ((128 <=? c) && (c <=? 2047)))%N.

(** ** The place of a sample in its waveform *)

(** The indices, among all the points of a waveform, of the points that
    [parseFloat] reads as numbers. *)
Definition readableIndices (pts : list jstring) : list nat :=
  filter (fun i => negb (isNaN (parseFloat (nth i pts [])))) (seq 0 (length pts)).

(** What a sample records of its place: its date, its index and the size of
    its batch. *)
Definition placeOf (s : Sample) : Z * option nat * option nat :=
  (timestamp s, batchIndex (metadata s), batchSize (metadata s)).

(** The place of the sample made from the point at index [i] of the [n]
    points of a waveform whose frame arrived at [A]. *)
Definition placeAt (A : Z) (n i : nat) : Z * option nat * option nat :=
  ((A - (Z.of_nat n - 1 - Z.of_nat i) * 10)%Z, Some i, Some n).

(** The places of the samples of a waveform with the points [pts] whose
    frame arrived at [A]: one for each readable point, at its index among
    all the points. *)
Definition placesOf (A : Z) (pts : list jstring) : list (Z * option nat * option nat) :=
  map (placeAt A (length pts)) (readableIndices pts).

Definition optionalPlaces (A : Z) (w : option (list jstring))
  : list (Z * option nat * option nat) :=
  match w with
  | Some pts => placesOf A pts
  | None => []
  end.

(** The points of a batch of comma-joined texts: trimmed, the empty ones
    left out. *)
Definition pointsOf (ts : list jstring) : list jstring :=
  filter (fun p => (0 <? length p)%nat) (map trim ts).

(** ** Points as a peer writes them *)






(** ** The pieces of a chunk of bytes *)

(** The bytes of a chunk fall into pieces: an ASCII byte, a byte that
    starts no UTF-8 sequence, a complete UTF-8 sequence of a lead byte [l]
    and its continuation bytes [cs], and a sequence that breaks off after
    the continuation bytes [cs], because the chunk ends there or because
    the next byte does not continue it. *)
Inductive Piece :=
| Ascii (b : N)
| Invalid (b : N)
| Sequence (l : N) (cs : list N)
| Broken (l : N) (cs : list N).

(** The number of continuation bytes that follow the lead byte [l], the
    range of the first of them, and the bits of the code point that the
    lead byte holds: [l - leadBase l]. *)
Definition needed (l : N) : nat :=
  if (l <=? 223)%N then 1 else if (l <=? 239)%N then 2 else 3.

Definition leadBase (l : N) : N :=
  (if l <=? 223 then 192 else if l <=? 239 then 224 else 240)%N.

Definition firstLow (l : N) : N :=
  (if l =? 224 then 160 else if l =? 240 then 144 else 128)%N.

Definition firstHigh (l : N) : N :=
  (if l =? 237 then 159 else if l =? 244 then 143 else 191)%N.

Definition continuation (c : N) : Prop := (128 <= c <= 191)%N.

Definition validTail (l : N) (cs : list N) : Prop :=
  match cs with
  | [] => True
  | c :: more => (firstLow l <= c <= firstHigh l)%N /\ Forall continuation more
  end.

(** Whether the byte [b] continues the sequence of [l] after [cs]. *)
Definition continues (l : N) (cs : list N) (b : N) : Prop :=
  match cs with
  | [] => (firstLow l <= b <= firstHigh l)%N
  | _ => continuation b
  end.

(** The code point of a sequence: six bits from each continuation byte
    after the bits of the lead byte. *)
Definition seqValue (l : N) (cs : list N) : N :=
  fold_left (fun acc c => (acc * 64 + (c - 128))%N) cs (l - leadBase l)%N.

Definition pieceBytes (p : Piece) : list N :=
  match p with
  | Ascii b | Invalid b => [b]
  | Sequence l cs | Broken l cs => l :: cs
  end.

Definition pieceOk (p : Piece) : Prop :=
  match p with
  | Ascii b => (b <= 127)%N
  | Invalid b => invalidLead b = true
  | Sequence l cs => (194 <= l <= 244)%N /\ length cs = needed l /\ validTail l cs
  | Broken l cs => (194 <= l <= 244)%N /\ length cs < needed l /\ validTail l cs
  end.

(** Every piece is as described, and the byte after a broken sequence,
    when there is one, does not continue it. *)
Fixpoint piecesOk (ps : list Piece) : Prop :=
  match ps with
  | [] => True
  | p :: rest =>
      pieceOk p /\
      match p with
      | Broken l cs =>
          match flat_map pieceBytes rest with
          | [] => True
          | b :: _ => ~ continues l cs b
          end
      | _ => True
      end /\
      piecesOk rest
  end.

(** The text that is forwarded for a piece: an ASCII byte as it is unless
    it is a stripped control character, [?] for a byte that starts no
    sequence, for a broken sequence and for an encoded U+FFFD, and the
    UTF-16 code units of its code point for any other sequence. *)
Definition pieceText (p : Piece) : jstring :=
  match p with
  | Ascii b => if Serial.strippedControl b then [] else [b]
  | Invalid _ | Broken _ _ => [ch "?"]
  | Sequence l cs =>
      if (seqValue l cs =? Serial.replacement)%N then [ch "?"]
      else Serial.codeUnits (seqValue l cs)
  end.

(** Printable ASCII other than [?], with tab, line feed and carriage
    return. *)
Definition keptAscii (c : N) : bool := plainByte c && negb (c =? ch "?")%N.

(** * Properties *)

Unset Implicit Arguments.

Example parseFloat_ex1 : parseFloat (str "3.5") = Fin (7 # 2).
Proof. reflexivity. Qed.
Example parseFloat_ex2 : parseFloat (str "  -12.50e1abc") = Fin (-125 # 1).
Proof. reflexivity. Qed.
Example parseFloat_ex3 : parseFloat (str "abc") = NaN.
Proof. reflexivity. Qed.
Example parseFloat_ex4 : parseFloat (str ".5") = Fin (1 # 2).
Proof. reflexivity. Qed.
Example parseFloat_ex5 : parseFloat (str "5.") = Fin (5 # 1).
Proof. reflexivity. Qed.
Example parseFloat_ex6 : parseFloat (str "1e") = Fin (1 # 1).
Proof. reflexivity. Qed.
Example parseFloat_ex7 : parseFloat (str "2E-2") = Fin (1 # 50).
Proof. reflexivity. Qed.
Example split_ex1 : split (str ",Y") (str "X1.0,Y0.5,Y0.6") = [str "X1.0"; str "0.5"; str "0.6"].
Proof. reflexivity. Qed.
Example split_ex2 : split (str ",") (str "") = [[]].
Proof. reflexivity. Qed.
Example split_ex3 : split (str ",") (str "a,,b,") = [str "a"; []; str "b"; []].
Proof. reflexivity. Qed.
Example toFixed2_ex1 : toFixed2 5 = str "0.05". Proof. reflexivity. Qed.
Example toFixed2_ex2 : toFixed2 1000 = str "10.00". Proof. reflexivity. Qed.
Example toFixed2_ex3 : toFixed2 314 = str "3.14". Proof. reflexivity. Qed.
Example digitsOf_ex1 : digitsOf 0 = str "0". Proof. reflexivity. Qed.
Example digitsOf_ex2 : digitsOf 1024 = str "1024". Proof. reflexivity. Qed.
Example JSON_parse_ex1 :
  JSON_parse_text (jsonText "{'type':'earthquake-data','payload':{'amplitude':'3.5'}}")
  = Some (JObj [(str "type", JStr (str "earthquake-data"));
                (str "payload", JObj [(str "amplitude", JStr (str "3.5"))])]).
Proof. vm_compute. reflexivity. Qed.
Example JSON_parse_ex2 : JSON_parse_text (jsonText "[1, 2.5e1, true, null, 'a\u0041'] ")
  = Some (JArr [JNum (Fin 1); JNum (Fin 25); JBool true; JNull; JStr (str "aA")]).
Proof. vm_compute. reflexivity. Qed.
Example JSON_parse_ex3 : JSON_parse_text (str "{") = None.
Proof. reflexivity. Qed.
Example JSON_parse_ex4 : JSON_parse_text (jsonText "{'a':01}") = None.
Proof. reflexivity. Qed.

(** ** Text search and splitting *)

Lemma startsWith_app (p r : jstring) : startsWith (p ++ r) p = true.
Proof.
  induction p as [|c p IH]; simpl; [reflexivity|].
  now rewrite N.eqb_refl, IH.
Qed.

Lemma startsWith_nil_l (p : jstring) : p <> [] -> startsWith [] p = false.
Proof. destruct p; [congruence | reflexivity]. Qed.

Lemma includes_start (s p : jstring) : startsWith s p = true -> includes s p = true.
Proof. intros H. destruct s; simpl; rewrite H; reflexivity. Qed.

Lemma includes_here (a p b : jstring) : includes (a ++ p ++ b) p = true.
Proof.
  induction a as [|c a IH].
  - change ([] ++ p ++ b) with (p ++ b). apply includes_start. apply startsWith_app.
  - simpl. rewrite IH. apply orb_true_r.
Qed.

Lemma includes_cons_false (c : N) (s p : jstring) :
  includes (c :: s) p = false -> startsWith (c :: s) p = false /\ includes s p = false.
Proof. simpl. intros H. apply orb_false_iff in H. exact H. Qed.

(** A text without the code unit [c] has no occurrence of a pattern that
    starts with [c]; such a prefix does not change where the pattern is
    found. *)
Lemma startsWith_head_ne (c d : N) (s p : jstring) :
  d <> c -> startsWith (d :: s) (c :: p) = false.
Proof. intros H. simpl. destruct (N.eqb_spec c d); [congruence | reflexivity]. Qed.

Lemma includes_skip (c : N) (a r p : jstring) :
  ~ In c a -> includes (a ++ r) (c :: p) = includes r (c :: p).
Proof.
  induction a as [|d a IH]; intros Ha; [reflexivity|].
  change ((d :: a) ++ r) with (d :: (a ++ r)).
  cbn [includes]. rewrite startsWith_head_ne by (intros ->; apply Ha; now left).
  cbn [orb]. apply IH. intros Hin. apply Ha. now right.
Qed.

Lemma includes_nil (c : N) (p : jstring) : includes [] (c :: p) = false.
Proof. reflexivity. Qed.

Lemma includes_free (c : N) (a p : jstring) : ~ In c a -> includes a (c :: p) = false.
Proof.
  intros Ha. rewrite <- (app_nil_r a), includes_skip by assumption. reflexivity.
Qed.

Lemma breakOn_found (sep s : jstring) :
  startsWith s sep = true -> breakOn sep s = Some ([], skipn (length sep) s).
Proof. intros H. destruct s; simpl; rewrite H; reflexivity. Qed.

Lemma breakOn_step (sep : jstring) (c : N) (s : jstring) :
  startsWith (c :: s) sep = false ->
  breakOn sep (c :: s) =
  match breakOn sep s with Some (a, b) => Some (c :: a, b) | None => None end.
Proof. intros H. cbn [breakOn]. rewrite H. reflexivity. Qed.

Lemma skipn_app_exact (p r : jstring) : skipn (length p) (p ++ r) = r.
Proof. induction p; simpl; auto. Qed.

(** The first occurrence of a one-unit separator. *)
Lemma breakOn_single (c : N) (a b : jstring) :
  ~ In c a -> breakOn [c] (a ++ c :: b) = Some (a, b).
Proof.
  induction a as [|d a IH]; intros Ha.
  - simpl. rewrite N.eqb_refl. reflexivity.
  - change ((d :: a) ++ c :: b) with (d :: (a ++ c :: b)).
    rewrite breakOn_step by (apply startsWith_head_ne; intros ->; apply Ha; now left).
    rewrite IH; [reflexivity | intros Hin; apply Ha; now right].
Qed.

(** The first occurrence of a two-unit separator with distinct units. *)
Lemma breakOn_pair (c1 c2 : N) (a b : jstring) :
  c1 <> c2 -> includes a [c1; c2] = false ->
  breakOn [c1; c2] (a ++ c1 :: c2 :: b) = Some (a, b).
Proof.
  intros Hne. induction a as [|d a IH]; intros Ha.
  - simpl. rewrite !N.eqb_refl. reflexivity.
  - apply includes_cons_false in Ha. destruct Ha as [Hs Hi].
    change ((d :: a) ++ c1 :: c2 :: b) with (d :: (a ++ c1 :: c2 :: b)).
    rewrite breakOn_step.
    + rewrite IH by assumption. reflexivity.
    + simpl in Hs |- *. destruct (N.eqb_spec c1 d); [|reflexivity].
      simpl in Hs |- *. destruct a as [|x a]; simpl in *.
      * destruct (N.eqb_spec c2 c1); [congruence | reflexivity].
      * destruct (c2 =? x)%N; [discriminate | reflexivity].
Qed.

Lemma breakOn_none (sep s : jstring) :
  includes s sep = false -> breakOn sep s = None.
Proof.
  induction s as [|c s IH]; intros H.
  - simpl in *. rewrite orb_false_r in H. rewrite H. reflexivity.
  - apply includes_cons_false in H. destruct H as [Hs Hi].
    rewrite breakOn_step by assumption. rewrite IH by assumption. reflexivity.
Qed.

Lemma startsWith_length (p s : jstring) :
  startsWith s p = true -> length p <= length s.
Proof.
  revert s. induction p as [|x p IH]; intros s E; simpl; [lia|].
  destruct s as [|d s]; simpl in E; [discriminate|].
  apply andb_true_iff in E. destruct E as [_ E]. apply IH in E. simpl. lia.
Qed.

Lemma breakOn_length (sep s a b : jstring) :
  breakOn sep s = Some (a, b) -> length s = length a + length sep + length b.
Proof.
  revert a b. induction s as [|c s IH]; intros a b H.
  - simpl in H. destruct (startsWith [] sep) eqn:E; [|discriminate].
    destruct sep; [|discriminate]. injection H as <- <-. reflexivity.
  - cbn [breakOn] in H. destruct (startsWith (c :: s) sep) eqn:E.
    + injection H as <- <-. apply startsWith_length in E.
      rewrite length_skipn. change (length (@nil N)) with 0. lia.
    + destruct (breakOn sep s) as [[a' b']|] eqn:E'; [|discriminate].
      injection H as <- <-. specialize (IH _ _ eq_refl). simpl. lia.
Qed.

Lemma split_fuel_stable (sep : jstring) (n m : nat) (s : jstring) :
  sep <> [] -> length s <= n -> length s <= m ->
  split_fuel n sep s = split_fuel m sep s.
Proof.
  intros Hsep. revert m s. induction n as [|n IH]; intros m s Hn Hm.
  - destruct m; [reflexivity|]. simpl.
    destruct (breakOn sep s) as [[a b]|] eqn:E; [|reflexivity].
    apply breakOn_length in E. destruct sep; [congruence|]. simpl in E. lia.
  - simpl. destruct (breakOn sep s) as [[a b]|] eqn:E.
    + pose proof (breakOn_length _ _ _ _ E) as Hl.
      assert (length sep > 0) by (destruct sep; [congruence | simpl; lia]).
      destruct m as [|m]; [lia|]. simpl. rewrite E. f_equal. apply IH; lia.
    + destruct m; simpl; [reflexivity|]. rewrite E. reflexivity.
Qed.

Lemma split_fuel_enough (sep : jstring) (n : nat) (s : jstring) :
  sep <> [] -> length s <= n -> split_fuel n sep s = split_fuel (length s) sep s.
Proof. intros Hsep Hn. apply split_fuel_stable; auto. Qed.

Lemma split_cons (sep s a b : jstring) :
  sep <> [] -> breakOn sep s = Some (a, b) -> split sep s = a :: split sep b.
Proof.
  intros Hsep E. unfold split.
  pose proof (breakOn_length _ _ _ _ E) as Hl.
  assert (length sep > 0) by (destruct sep; [congruence | simpl; lia]).
  destruct (length s) as [|n] eqn:El; [lia|].
  simpl. rewrite E. f_equal. apply split_fuel_enough; [assumption | lia].
Qed.

Lemma split_none (sep s : jstring) : breakOn sep s = None -> split sep s = [s].
Proof.
  intros E. unfold split. destruct (length s); simpl; [reflexivity|].
  rewrite E. reflexivity.
Qed.

(** ** Joining and splitting at commas *)

Lemma split_join_comma (ts : list jstring) :
  Forall commaFree ts -> ts <> [] -> split (str ",") (join (str ",") ts) = ts.
Proof.
  induction ts as [|a l IH]; intros Hf Hne; [congruence|].
  inversion Hf as [|? ? Ha Hl]; subst.
  destruct l as [|b l].
  - simpl join. apply split_none, breakOn_none, includes_free. exact Ha.
  - change (join (str ",") (a :: b :: l))
      with (a ++ comma :: join (str ",") (b :: l)).
    rewrite (split_cons (str ",") _ a (join (str ",") (b :: l))).
    + f_equal. apply IH; [assumption | discriminate].
    + discriminate.
    + apply (breakOn_single comma). exact Ha.
Qed.

Lemma points_join (ts : list jstring) :
  Forall commaFree ts ->
  points (join (str ",") ts) = filter (fun p => 0 <? length p) (map trim ts).
Proof.
  intros Hf. destruct ts as [|a l]; [reflexivity|].
  unfold points. rewrite split_join_comma; [reflexivity | assumption | discriminate].
Qed.

Lemma startsWith_one (c : N) (s : jstring) :
  hd_error s <> Some c -> startsWith s [c] = false.
Proof.
  destruct s as [|d s]; simpl; [reflexivity|]. intros H.
  destruct (N.eqb_spec c d); [subst; congruence | reflexivity].
Qed.

Lemma hd_join (c : N) (b : jstring) (l : list jstring) :
  c <> comma -> hd_error b <> Some c ->
  hd_error (join (str ",") (b :: l)) <> Some c.
Proof.
  intros Hc Hb. destruct l as [|x l]; [exact Hb|].
  change (join (str ",") (b :: x :: l)) with (b ++ comma :: join (str ",") (x :: l)).
  destruct b as [|d b]; simpl; [congruence | exact Hb].
Qed.

Lemma join_commaFree_includes (c : N) (ts : list jstring) :
  c <> comma ->
  Forall (fun t => commaFree t /\ hd_error t <> Some c) ts ->
  includes (join (str ",") ts) [comma; c] = false.
Proof.
  intros Hc. induction ts as [|a l IH]; intros Hf; [reflexivity|].
  inversion Hf as [|? ? [Ha Hh] Hl]; subst.
  destruct l as [|b l].
  - simpl join. apply includes_free. exact Ha.
  - change (join (str ",") (a :: b :: l))
      with (a ++ comma :: join (str ",") (b :: l)).
    rewrite includes_skip by exact Ha.
    cbn [includes]. rewrite (IH Hl), orb_false_r.
    inversion Hl as [|? ? [Hb Hhb] _]; subst.
    cbn [startsWith]. rewrite N.eqb_refl. cbn [andb].
    apply startsWith_one. apply hd_join; assumption.
Qed.

(** ** White space, [trim] and [parseFloat] *)

Lemma isWhiteSpace_range (d : N) :
  isWhiteSpace d = true -> (d <= 13 \/ d = 32 \/ 160 <= d)%N.
Proof.
  unfold isWhiteSpace. intros H.
  repeat (apply orb_true_iff in H; destruct H as [H|H]);
    repeat match goal with
           | H : (_ && _) = true |- _ => apply andb_true_iff in H; destruct H
           | H : (_ <=? _)%N = true |- _ => apply N.leb_le in H
           | H : (_ =? _)%N = true |- _ => apply N.eqb_eq in H
           end; lia.
Qed.

Lemma ws_not_digit (d : N) : isWhiteSpace d = true -> isDigit d = false.
Proof.
  intros H. apply isWhiteSpace_range in H. unfold isDigit.
  destruct (N.leb_spec 48 d), (N.leb_spec d 57); simpl; try reflexivity; lia.
Qed.

Lemma ws_neq (d c : N) :
  isWhiteSpace d = true -> (33 <= c < 160)%N -> (d =? c)%N = false.
Proof.
  intros H Hc. apply isWhiteSpace_range in H. apply N.eqb_neq. lia.
Qed.

Lemma dropWhile_split (f : N -> bool) (s : jstring) :
  exists w, s = w ++ dropWhile f s /\ forallb f w = true.
Proof.
  induction s as [|c s [w [E F]]]; [exists []; split; reflexivity|].
  simpl. destruct (f c) eqn:Hc.
  - exists (c :: w). simpl. rewrite Hc, F. split; [f_equal; exact E | reflexivity].
  - exists []. split; reflexivity.
Qed.

Lemma dropWhile_snoc (f : N -> bool) (l : jstring) (c : N) :
  f c = false -> exists l', dropWhile f (l ++ [c]) = l' ++ [c].
Proof.
  intros Hc. induction l as [|d l [l' E]]; simpl.
  - rewrite Hc. exists []. reflexivity.
  - destruct (f d); [exists l'; exact E | exists (d :: l); reflexivity].
Qed.

Lemma forallb_rev (f : N -> bool) (l : jstring) :
  forallb f l = true -> forallb f (rev l) = true.
Proof.
  intros H. apply forallb_forall. intros x Hx. apply in_rev in Hx.
  revert x Hx. apply forallb_forall. exact H.
Qed.

(** [trimEnd] removes a suffix of white space. *)
Lemma trimEnd_split (u : jstring) :
  exists w, u = trimEnd u ++ w /\ forallb isWhiteSpace w = true.
Proof.
  unfold trimEnd. destruct (dropWhile_split isWhiteSpace (rev u)) as [w [E F]].
  exists (rev w). split; [|apply forallb_rev; exact F].
  rewrite <- rev_app_distr, <- E, rev_involutive. reflexivity.
Qed.

Lemma trimEnd_head (c : N) (u : jstring) :
  isWhiteSpace c = false -> exists v, trimEnd (c :: u) = c :: v.
Proof.
  intros Hc. unfold trimEnd. simpl rev.
  destruct (dropWhile_snoc isWhiteSpace (rev u) c Hc) as [l' E].
  rewrite E, rev_app_distr. simpl. eauto.
Qed.

Lemma trimStart_head (s : jstring) :
  match trimStart s with
  | [] => True
  | c :: _ => isWhiteSpace c = false
  end.
Proof.
  unfold trimStart. induction s as [|c s IH]; simpl; [exact I|].
  destruct (isWhiteSpace c) eqn:E; [exact IH | exact E].
Qed.

Lemma trimStart_trim (s : jstring) : trimStart (trim s) = trim s.
Proof.
  unfold trim. pose proof (trimStart_head s) as H.
  destruct (trimStart s) as [|c u]; [reflexivity|].
  destruct (trimEnd_head c u H) as [v E]. rewrite E.
  unfold trimStart. simpl. rewrite H. reflexivity.
Qed.

Lemma trim_split (s : jstring) :
  exists w, trimStart s = trim s ++ w /\ forallb isWhiteSpace w = true.
Proof. unfold trim. apply trimEnd_split. Qed.

Lemma w_head (w : jstring) :
  forallb isWhiteSpace w = true ->
  match w with [] => True | d :: _ => isWhiteSpace d = true end.
Proof. intros Hw. destruct w; [exact I|]. simpl in Hw. apply andb_true_iff in Hw. tauto. Qed.

Lemma startsWith_trailing (w v p : jstring) :
  forallb isWhiteSpace w = true ->
  Forall (fun c => (33 <= c < 160)%N) p ->
  startsWith (v ++ w) p = startsWith v p.
Proof.
  intros Hw Hp. revert v. induction Hp as [|c p Hc Hp IH]; intros v; [reflexivity|].
  destruct v as [|x v]; simpl.
  - pose proof (w_head w Hw) as Hd. destruct w as [|d w']; [reflexivity|].
    assert ((c =? d)%N = false) as ->; [|reflexivity].
    rewrite N.eqb_sym. apply ws_neq; assumption.
  - rewrite IH. reflexivity.
Qed.

Lemma span_trailing (w v : jstring) :
  forallb isWhiteSpace w = true ->
  span isDigit (v ++ w) = (fst (span isDigit v), snd (span isDigit v) ++ w).
Proof.
  intros Hw. induction v as [|c v IH]; simpl.
  - pose proof (w_head w Hw) as Hd. destruct w as [|d w']; [reflexivity|].
    simpl. rewrite (ws_not_digit _ Hd). reflexivity.
  - destruct (isDigit c); [|reflexivity].
    rewrite IH. destruct (span isDigit v). reflexivity.
Qed.

Lemma exponentPart_ws (w : jstring) :
  forallb isWhiteSpace w = true -> exponentPart w = 0%Z.
Proof.
  intros Hw. pose proof (w_head w Hw) as Hd.
  destruct w as [|d w']; [reflexivity|]. cbn [exponentPart].
  rewrite !(ws_neq _ _ Hd) by in_range. reflexivity.
Qed.

Lemma exponentPart_trailing (w r : jstring) :
  forallb isWhiteSpace w = true -> exponentPart (r ++ w) = exponentPart r.
Proof.
  intros Hw.
  destruct r as [|c r]; cbn [app exponentPart].
  - apply exponentPart_ws. exact Hw.
  - destruct ((c =? ch "e") || (c =? ch "E"))%N; [|reflexivity].
    destruct r as [|d r]; cbn [app].
    + pose proof (w_head w Hw) as Hd. destruct w as [|d w']; [reflexivity|].
      rewrite !(ws_neq _ _ Hd) by in_range.
      cbn [span]. rewrite (ws_not_digit _ Hd). reflexivity.
    + destruct (d =? ch "-")%N; [rewrite span_trailing by exact Hw; reflexivity|].
      destruct (d =? ch "+")%N; [rewrite span_trailing by exact Hw; reflexivity|].
      change (d :: r ++ w) with ((d :: r) ++ w).
      rewrite span_trailing by exact Hw. reflexivity.
Qed.

Lemma unsignedLiteral_trailing (w : jstring) (neg : bool) (v : jstring) :
  forallb isWhiteSpace w = true ->
  unsignedLiteral neg (v ++ w) = unsignedLiteral neg v.
Proof.
  intros Hw. unfold unsignedLiteral.
  rewrite (startsWith_trailing w) by
    (try exact Hw; repeat (apply Forall_cons; [in_range|]); apply Forall_nil).
  destruct (startsWith v (str "Infinity")); [reflexivity|].
  rewrite span_trailing by exact Hw.
  destruct (span isDigit v) as [ip r]. simpl fst; simpl snd.
  destruct r as [|c r]; cbn [app].
  - pose proof (w_head w Hw) as Hd. pose proof (exponentPart_ws w Hw) as He.
    destruct w as [|d w']; [reflexivity|].
    rewrite (ws_neq _ _ Hd) by in_range. rewrite He. reflexivity.
  - destruct (c =? ch ".")%N.
    + rewrite span_trailing by exact Hw.
      destruct (span isDigit r) as [fp r2]. simpl fst; simpl snd.
      rewrite exponentPart_trailing by exact Hw. reflexivity.
    + change (c :: r ++ w) with ((c :: r) ++ w).
      rewrite exponentPart_trailing by exact Hw. reflexivity.
Qed.

(** Trimming a point does not change what [parseFloat] reads from it. *)
Lemma parseFloat_trim (s : jstring) : parseFloat (trim s) = parseFloat s.
Proof.
  unfold parseFloat at 1. rewrite trimStart_trim.
  unfold parseFloat. destruct (trim_split s) as [w [E Hw]]. rewrite E.
  pose proof (trimStart_head s) as Hh. rewrite E in Hh.
  destruct (trim s) as [|c r]; cbn [app].
  - pose proof (w_head w Hw) as Hd. destruct w as [|d w']; [reflexivity|].
    cbn [app] in Hh. rewrite Hd in Hh. discriminate.
  - destruct (c =? ch "-")%N; [apply eq_sym, unsignedLiteral_trailing; exact Hw|].
    destruct (c =? ch "+")%N; [apply eq_sym, unsignedLiteral_trailing; exact Hw|].
    change (c :: r ++ w) with ((c :: r) ++ w).
    apply eq_sym, unsignedLiteral_trailing; exact Hw.
Qed.

(** ** What a point that reads as a number starts with *)

Lemma parseFloat_head (c : N) (t : jstring) :
  isNaN (parseFloat (c :: t)) = false -> canStartNumber c = true.
Proof.
  unfold canStartNumber, parseFloat, trimStart. cbn [dropWhile].
  destruct (isWhiteSpace c) eqn:Ews; [reflexivity|]. cbn [orb].
  destruct (c =? ch "-")%N eqn:Em; [rewrite !orb_true_r; reflexivity|].
  destruct (c =? ch "+")%N eqn:Ep; [rewrite !orb_true_r; reflexivity|].
  unfold unsignedLiteral.
  destruct (startsWith (c :: t) (str "Infinity")) eqn:Ei.
  - change (str "Infinity") with (ch "I" :: str "nfinity") in Ei.
    cbn [startsWith] in Ei. apply andb_true_iff in Ei. destruct Ei as [Ei _].
    rewrite N.eqb_sym in Ei. rewrite Ei, !orb_true_r. reflexivity.
  - cbn [span]. destruct (isDigit c) eqn:Ed; [reflexivity|].
    destruct (c =? ch ".")%N eqn:Edot; [rewrite !orb_true_r; reflexivity|].
    simpl. discriminate.
Qed.

Lemma numeric_hd (t : jstring) (c : N) :
  isNaN (parseFloat t) = false -> canStartNumber c = false -> hd_error t <> Some c.
Proof.
  intros Hn Hc. destruct t as [|d t]; [discriminate|].
  simpl. intros [= ->]. apply parseFloat_head in Hn. congruence.
Qed.

Lemma numeric_trim_nonempty (t : jstring) :
  isNaN (parseFloat t) = false -> (0 <? length (trim t)) = true.
Proof.
  intros Hn. rewrite <- parseFloat_trim in Hn.
  destruct (trim t); [discriminate | reflexivity].
Qed.

(** ** Decimal digits *)

Lemma digitsValue_app (a b : jstring) :
  digitsValue (a ++ b) = fold_left digitStep b (digitsValue a).
Proof. unfold digitsValue. apply fold_left_app. Qed.

Lemma digitsOf_fuel_acc (fuel : nat) (n : N) (acc : jstring) :
  digitsOf_fuel fuel n acc = digitsOf_fuel fuel n [] ++ acc.
Proof.
  revert n acc. induction fuel as [|f IH]; intros n acc; [reflexivity|].
  simpl. destruct (n <? 10)%N; [reflexivity|].
  rewrite IH. rewrite (IH _ [_]). rewrite <- app_assoc. reflexivity.
Qed.

Lemma digitsOf_fuel_value (fuel : nat) (n : N) :
  (n < 2 ^ N.of_nat fuel)%N -> digitsValue (digitsOf_fuel fuel n []) = n.
Proof.
  revert n. induction fuel as [|f IH]; intros n Hn.
  - simpl in Hn. assert (n = 0%N) as -> by lia. reflexivity.
  - cbn [digitsOf_fuel]. destruct (N.ltb_spec n 10) as [Hlt|Hge].
    + unfold digitsValue. cbn [fold_left]. rewrite N.mod_small by assumption. lia.
    + rewrite digitsOf_fuel_acc, digitsValue_app, IH.
      * cbn [fold_left]. unfold digitStep.
        pose proof (N.div_mod n 10 ltac:(lia)) as Hd.
        revert Hd. generalize (n / 10)%N (n mod 10)%N. intros q r Hd. lia.
      * rewrite Nat2N.inj_succ, N.pow_succ_r' in Hn.
        assert (n / 10 <= n / 2)%N.
        { apply N.div_le_compat_l. lia. }
        assert (n / 2 < 2 ^ N.of_nat f)%N.
        { apply N.Div0.div_lt_upper_bound. lia. }
        lia.
Qed.

Lemma digitsOf_fuel_digits (fuel : nat) (n : N) (acc : jstring) :
  Forall (fun c => isDigit c = true) acc ->
  Forall (fun c => isDigit c = true) (digitsOf_fuel fuel n acc).
Proof.
  revert n acc. induction fuel as [|f IH]; intros n acc Ha; [exact Ha|].
  assert (Hd : isDigit (48 + n mod 10) = true).
  { unfold isDigit. pose proof (N.mod_upper_bound n 10 ltac:(lia)) as Hb.
    revert Hb. generalize (n mod 10)%N. intros r Hb.
    apply andb_true_iff. split; apply N.leb_le; lia. }
  simpl. destruct (n <? 10)%N; [|apply IH]; constructor; assumption.
Qed.

Lemma digitsOf_fuel_nonempty (fuel : nat) (n : N) (acc : jstring) :
  digitsOf_fuel (S fuel) n acc <> [].
Proof.
  simpl. destruct (n <? 10)%N; [discriminate|].
  rewrite digitsOf_fuel_acc. intros H. apply app_eq_nil in H. destruct H; discriminate.
Qed.

Lemma digitsOf_value (n : N) : digitsValue (digitsOf n) = n.
Proof.
  unfold digitsOf. apply digitsOf_fuel_value.
  rewrite Nat2N.inj_succ, N2Nat.id.
  destruct (N.eq_dec n 0) as [->|Hn]; [reflexivity|].
  apply N.log2_spec. lia.
Qed.

Lemma digitsOf_digits (n : N) : Forall (fun c => isDigit c = true) (digitsOf n).
Proof. apply digitsOf_fuel_digits. constructor. Qed.

Lemma digitsOf_nonempty (n : N) : digitsOf n <> [].
Proof. apply digitsOf_fuel_nonempty. Qed.

Lemma span_digits_stop (a : jstring) (c : N) (r : jstring) :
  Forall (fun d => isDigit d = true) a -> isDigit c = false ->
  span isDigit (a ++ c :: r) = (a, c :: r).
Proof.
  intros Ha Hc. induction Ha as [|d a Hd Ha IH]; simpl.
  - rewrite Hc. reflexivity.
  - rewrite Hd, IH. reflexivity.
Qed.

Lemma span_digits_all (a : jstring) :
  Forall (fun d => isDigit d = true) a -> span isDigit a = (a, []).
Proof.
  intros Ha. induction Ha as [|d a Hd Ha IH]; simpl; [reflexivity|].
  rewrite Hd, IH. reflexivity.
Qed.

Lemma digit_not_ws (c : N) : isDigit c = true -> isWhiteSpace c = false.
Proof.
  intros H. destruct (isWhiteSpace c) eqn:E; [|reflexivity].
  apply ws_not_digit in E. congruence.
Qed.

Lemma digit_range (c : N) : isDigit c = true -> (48 <= c <= 57)%N.
Proof.
  unfold isDigit. intros H. apply andb_true_iff in H. destruct H as [H1 H2].
  apply N.leb_le in H1, H2. lia.
Qed.

Lemma digit_neq (c d : N) : isDigit c = true -> (d < 48 \/ 57 < d)%N -> (c =? d)%N = false.
Proof. intros H Hd. apply digit_range in H. apply N.eqb_neq. lia. Qed.

Lemma zeros_digits (k : nat) : Forall (fun c => isDigit c = true) (zeros k).
Proof. induction k; simpl; constructor; [reflexivity | assumption]. Qed.

Lemma zeros_value (k : nat) (m : jstring) : digitsValue (zeros k ++ m) = digitsValue m.
Proof. induction k; simpl; [reflexivity | exact IHk]. Qed.

(** What [toFixed(2)] prints: digits, a point, two digits. *)
Lemma toFixed2_parts (n : N) :
  exists x a b,
    toFixed2 n = (x :: a) ++ ch "." :: b /\
    Forall (fun c => isDigit c = true) (x :: a) /\
    Forall (fun c => isDigit c = true) b /\
    length b = 2 /\ digitsValue ((x :: a) ++ b) = n.
Proof.
  unfold toFixed2.
  set (m' := zeros (3 - length (digitsOf n)) ++ digitsOf n).
  assert (Hdig : Forall (fun c => isDigit c = true) m').
  { apply Forall_app. split; [apply zeros_digits | apply digitsOf_digits]. }
  assert (Hval : digitsValue m' = n).
  { unfold m'. rewrite zeros_value. apply digitsOf_value. }
  assert (Hlen : 3 <= length m').
  { unfold m'. rewrite length_app.
    assert (length (zeros (3 - length (digitsOf n))) = 3 - length (digitsOf n)).
    { generalize (3 - length (digitsOf n)). induction n0; simpl; congruence. }
    lia. }
  set (k := length m') in *.
  assert (Ha : Forall (fun c => isDigit c = true) (firstn (k - 2) m')).
  { rewrite <- (firstn_skipn (k - 2) m') in Hdig. apply Forall_app in Hdig. tauto. }
  assert (Hb : Forall (fun c => isDigit c = true) (skipn (k - 2) m')).
  { rewrite <- (firstn_skipn (k - 2) m') in Hdig. apply Forall_app in Hdig. tauto. }
  assert (Hbl : length (skipn (k - 2) m') = 2) by (rewrite length_skipn; lia).
  assert (Hal : length (firstn (k - 2) m') = k - 2) by (rewrite length_firstn; lia).
  assert (Hab : digitsValue (firstn (k - 2) m' ++ skipn (k - 2) m') = n)
    by (rewrite firstn_skipn; exact Hval).
  destruct (firstn (k - 2) m') as [|x a] eqn:Ea; [simpl in Hal; lia|].
  exists x, a, (skipn (k - 2) m'). repeat split; assumption.
Qed.

(** Reading back what [toFixed(2)] printed gives the printed number of
    hundredths. *)
Lemma parseFloat_toFixed2 (n : N) :
  parseFloat (toFixed2 n) = Fin (Qred (Z.of_N n # 100)).
Proof.
  destruct (toFixed2_parts n) as (x & a & b & E & Ha & Hb & Hbl & Hab).
  rewrite E. apply Forall_cons_iff in Ha. destruct Ha as [Hx Ha'].
  unfold parseFloat, trimStart. cbn [app dropWhile].
  rewrite (digit_not_ws _ Hx).
  rewrite !(digit_neq _ _ Hx) by (right + left; reflexivity).
  unfold unsignedLiteral.
  assert (startsWith (x :: a ++ ch "." :: b) (str "Infinity") = false) as ->.
  { change (str "Infinity") with (ch "I" :: str "nfinity"). cbn [startsWith].
    rewrite N.eqb_sym, (digit_neq _ _ Hx) by (right; reflexivity). reflexivity. }
  change (x :: a ++ ch "." :: b) with ((x :: a) ++ ch "." :: b).
  rewrite span_digits_stop by (first [reflexivity | constructor; assumption]).
  rewrite N.eqb_refl. rewrite span_digits_all by assumption.
  rewrite Hab, Hbl. reflexivity.
Qed.

Lemma toFixed2_commaFree (n : N) : commaFree (toFixed2 n).
Proof.
  destruct (toFixed2_parts n) as (x & a & b & E & Ha & Hb & _).
  rewrite E. unfold commaFree. intros Hin. apply in_app_or in Hin.
  assert (Hd : forall l, Forall (fun c => isDigit c = true) l -> ~ In comma l).
  { intros l Hl Hc. rewrite Forall_forall in Hl. apply Hl in Hc. discriminate. }
  destruct Hin as [Hin|[Hin|Hin]].
  - exact (Hd _ Ha Hin).
  - discriminate.
  - exact (Hd _ Hb Hin).
Qed.


(** ** The samples of one waveform *)

Lemma dataPoints_from (now : Z) (w : option Channel) (m : FrameMeta) (pts : list jstring) :
  dataPoints now w m pts = pointsFrom now w m (length pts) 0 pts.
Proof. reflexivity. Qed.

Lemma pointsFrom_cons now w m n k p l :
  pointsFrom now w m n k (p :: l) =
  match mapPoint now w m n (k, p) with
  | Some s => s :: pointsFrom now w m n (S k) l
  | None => pointsFrom now w m n (S k) l
  end.
Proof. unfold pointsFrom. simpl. destruct (mapPoint now w m n (k, p)); reflexivity. Qed.

Lemma mapPoint_some now w m n k p s :
  mapPoint now w m n (k, p) = Some s ->
  amplitude s = parseFloat p /\ isNaN (parseFloat p) = false /\
  timestamp s = pointTime now n k /\
  batchIndex (metadata s) = Some k /\ batchSize (metadata s) = Some n /\
  waveformType (metadata s) = w /\ frameMeta (metadata s) = m.
Proof.
  unfold mapPoint. simpl. destruct (isNaN (parseFloat p)) eqn:E; [discriminate|].
  intros [= <-]. simpl. repeat split; reflexivity.
Qed.

Lemma mapPoint_none now w m n k p :
  mapPoint now w m n (k, p) = None -> isNaN (parseFloat p) = true.
Proof.
  unfold mapPoint. simpl. destruct (isNaN (parseFloat p)); [reflexivity | discriminate].
Qed.

Lemma pointsFrom_amplitudes now w m n k l :
  map amplitude (pointsFrom now w m n k l) =
  filter (fun a => negb (isNaN a)) (map parseFloat l).
Proof.
  revert k. induction l as [|p l IH]; intros k; [reflexivity|].
  rewrite pointsFrom_cons. simpl.
  destruct (mapPoint now w m n (k, p)) as [s|] eqn:E.
  - apply mapPoint_some in E. destruct E as (Ha & Hn & _).
    rewrite Hn. simpl. rewrite Ha, IH. reflexivity.
  - apply mapPoint_none in E. rewrite E. simpl. apply IH.
Qed.

(** Every sample records the index of its point and the number of points
    of its waveform, and is dated by them. *)
Lemma pointsFrom_spec now w m n k l :
  Forall (fun s => exists i p,
            k <= i < k + length l /\ nth_error l (i - k) = Some p /\
            amplitude s = parseFloat p /\ isNaN (amplitude s) = false /\
            timestamp s = pointTime now n i /\
            batchIndex (metadata s) = Some i /\ batchSize (metadata s) = Some n /\
            waveformType (metadata s) = w /\ frameMeta (metadata s) = m)
         (pointsFrom now w m n k l).
Proof.
  revert k. induction l as [|p l IH]; intros k; [constructor|].
  rewrite pointsFrom_cons.
  assert (Hrest : Forall (fun s => exists i p0,
            k <= i < k + length (p :: l) /\ nth_error (p :: l) (i - k) = Some p0 /\
            amplitude s = parseFloat p0 /\ isNaN (amplitude s) = false /\
            timestamp s = pointTime now n i /\
            batchIndex (metadata s) = Some i /\ batchSize (metadata s) = Some n /\
            waveformType (metadata s) = w /\ frameMeta (metadata s) = m)
         (pointsFrom now w m n (S k) l)).
  { eapply Forall_impl; [|apply IH].
    intros s (i & p0 & Hi & Hnth & Hrest). exists i, p0.
    split; [simpl; lia|]. split; [|exact Hrest].
    replace (i - k) with (S (i - S k)) by lia. exact Hnth. }
  destruct (mapPoint now w m n (k, p)) as [s|] eqn:E; [|exact Hrest].
  constructor; [|exact Hrest].
  apply mapPoint_some in E. destruct E as (Ha & Hn & Ht & Hi & Hs & Hw & Hm).
  exists k, p. rewrite Nat.sub_diag. simpl. rewrite Ha.
  repeat split; try assumption; lia.
Qed.

Lemma pointTime_lt now n i j : i < j -> (pointTime now n i < pointTime now n j)%Z.
Proof. unfold pointTime. lia. Qed.

Lemma pointsFrom_sorted now w m n k l :
  StronglySorted Z.lt (map timestamp (pointsFrom now w m n k l)).
Proof.
  revert k. induction l as [|p l IH]; intros k; [constructor|].
  rewrite pointsFrom_cons.
  destruct (mapPoint now w m n (k, p)) as [s|] eqn:E; [|apply IH].
  simpl. constructor; [apply IH|].
  apply mapPoint_some in E. destruct E as (_ & _ & Ht & _).
  apply Forall_map. eapply Forall_impl; [|apply (pointsFrom_spec now w m n (S k) l)].
  intros s' (i & p0 & Hi & _ & _ & _ & Ht' & _). simpl.
  rewrite Ht, Ht'. apply pointTime_lt. lia.
Qed.

Lemma pointsFrom_numeric now w m n k l :
  Forall numeric l ->
  map timestamp (pointsFrom now w m n k l) =
  map (pointTime now n) (seq k (length l)).
Proof.
  intros Hl. revert k. induction Hl as [|p l Hp Hl IH]; intros k; [reflexivity|].
  rewrite pointsFrom_cons. unfold mapPoint. simpl fst; simpl snd.
  unfold numeric in Hp. rewrite Hp. simpl. rewrite IH. reflexivity.
Qed.

Lemma pointsFrom_length now w m n k l :
  Forall numeric l -> length (pointsFrom now w m n k l) = length l.
Proof.
  intros Hl. rewrite <- (length_map timestamp), pointsFrom_numeric by assumption.
  rewrite length_map, length_seq. reflexivity.
Qed.

Lemma pointsFrom_channel now w m n k l c :
  filter (hasChannel c) (pointsFrom now w m n k l) =
  if hasChannel c {| amplitude := NaN; timestamp := 0;
                     metadata := {| source := []; raw := true; batchIndex := None;
                                    batchSize := None; waveformType := w;
                                    frameMeta := m |} |}
  then pointsFrom now w m n k l else [].
Proof.
  assert (H : forall s, In s (pointsFrom now w m n k l) ->
            hasChannel c s =
            hasChannel c {| amplitude := NaN; timestamp := 0;
                     metadata := {| source := []; raw := true; batchIndex := None;
                                    batchSize := None; waveformType := w;
                                    frameMeta := m |} |}).
  { pose proof (pointsFrom_spec now w m n k l) as Hs.
    rewrite Forall_forall in Hs. intros s Hin.
    destruct (Hs s Hin) as (i & p & _ & _ & _ & _ & _ & _ & _ & Hw & _).
    unfold hasChannel. simpl. rewrite Hw. reflexivity. }
  induction (pointsFrom now w m n k l) as [|s ss IH]; simpl.
  - destruct (hasChannel c _); reflexivity.
  - rewrite (H s (or_introl eq_refl)).
    rewrite IH by (intros s' Hin; apply H; right; exact Hin).
    destruct (hasChannel c _); reflexivity.
Qed.

(** ** The samples that [onmessage] hands to the data callback *)

Lemma emittedSamples_app (a b : list Event) :
  emittedSamples (a ++ b) = emittedSamples a ++ emittedSamples b.
Proof.
  induction a as [|e a IH]; [reflexivity|].
  destruct e; simpl; rewrite IH; try reflexivity. apply app_assoc.
Qed.

Lemma emittedSamples_warnings (w : option Channel) (pts : list jstring) :
  emittedSamples (pointWarnings w pts) = [].
Proof.
  unfold pointWarnings. induction (filter _ pts) as [|p l IH]; [reflexivity | exact IH].
Qed.

Lemma emittedSamples_optionalWarnings (c : Channel) (w : option (list jstring)) :
  emittedSamples (optionalWarnings c w) = [].
Proof. destruct w; [apply emittedSamples_warnings | reflexivity]. Qed.

Lemma emittedSamples_caught (site : LogSite) (r : list Event * Outcome) :
  emittedSamples (caught site r) = emittedSamples (fst r).
Proof.
  unfold caught. destruct (snd r); [reflexivity|].
  rewrite emittedSamples_app. simpl. apply app_nil_r.
Qed.

Lemma emittedSamples_callData (h : Handlers) (cond : bool) (p : Payload) :
  emittedSamples (fst (callData h cond p)) =
  match onEarthquakeData h with
  | Some _ => if cond then payloadSamples p else []
  | None => []
  end.
Proof.
  unfold callData. destruct (onEarthquakeData h); [|reflexivity].
  destruct cond; [|reflexivity]. simpl. apply app_nil_r.
Qed.

Lemma emittedSamples_batch (h : Handlers) (l : list Sample) :
  emittedSamples (fst (callData h (0 <? length l) (PBatch l))) =
  match onEarthquakeData h with Some _ => l | None => [] end.
Proof.
  rewrite emittedSamples_callData. destruct (onEarthquakeData h); [|reflexivity].
  destruct l; reflexivity.
Qed.

Section Samples.

Variable JSON_parse : jstring -> option JSValue.

Lemma samples_envelope (h : Handlers) (data : jstring) :
  emittedSamples (fst (onEnvelope JSON_parse h data)) = [].
Proof.
  unfold onEnvelope. destruct (JSON_parse data) as [v|]; [|reflexivity].
  destruct (getProp v (str "type")) as [ty|]; [|reflexivity].
  destruct (getProp v (str "payload")) as [pl|]; [|reflexivity].
  destruct ty; try reflexivity.
  destruct (jstring_eqb s (str "earthquake-data") && truthy pl); [|reflexivity].
  rewrite emittedSamples_callData. destruct (onEarthquakeData h); reflexivity.
Qed.

Lemma samples_single (h : Handlers) (now : Z) (data : jstring) :
  emittedSamples (fst (onSingleValue h now data)) =
  match onEarthquakeData h with
  | Some _ => if isNaN (parseFloat data) then [] else [singleSample now (parseFloat data)]
  | None => []
  end.
Proof.
  unfold onSingleValue. destruct (isNaN (parseFloat data)); simpl.
  - destruct (onEarthquakeData h); reflexivity.
  - rewrite emittedSamples_callData. destruct (onEarthquakeData h); reflexivity.
Qed.

Lemma samples_comma (h : Handlers) (now : Z) (data : jstring) :
  emittedSamples (fst (onCommaSeparated h now data)) =
  match onEarthquakeData h with
  | None => []
  | Some _ =>
      let (meta0, parsedMessage) := readMetaPrefix data in
      if startsWith parsedMessage (str "X") then
        match splitWaveforms meta0 parsedMessage with
        | Throw => []
        | Ok (meta, x, y, z) =>
            dataPoints now (Some ChX) meta x ++ optionalWave now ChY meta y
            ++ optionalWave now ChZ meta z
        end
      else dataPoints now None meta0 (points parsedMessage)
  end.
Proof.
  unfold onCommaSeparated. destruct (readMetaPrefix data) as [meta0 pm].
  destruct (startsWith pm (str "X")).
  - destruct (splitWaveforms meta0 pm) as [[[[meta x] y] z]|].
    + cbn [fst]. rewrite !emittedSamples_app, emittedSamples_warnings,
        !emittedSamples_optionalWarnings, emittedSamples_batch.
      destruct (onEarthquakeData h); reflexivity.
    + destruct (onEarthquakeData h); reflexivity.
  - cbn [fst]. rewrite emittedSamples_app, emittedSamples_warnings, emittedSamples_batch.
    destruct (onEarthquakeData h); reflexivity.
Qed.

Lemma samples_onmessage (h : Handlers) (now : Z) (data : jstring) :
  emittedSamples (onmessage JSON_parse h now data) =
  if startsWith data (str "{") || startsWith data (str "[") then []
  else if includes data (str ",") then emittedSamples (fst (onCommaSeparated h now data))
  else emittedSamples (fst (onSingleValue h now data)).
Proof.
  unfold onmessage. rewrite emittedSamples_caught.
  destruct (startsWith data (str "{") || startsWith data (str "[")).
  - cbn [fst]. rewrite emittedSamples_caught. apply samples_envelope.
  - destruct (includes data (str ",")); reflexivity.
Qed.

Lemma onmessage_delivered (h : Handlers) (now : Z) (data : jstring) :
  Delivered now (emittedSamples (onmessage JSON_parse h now data)).
Proof.
  rewrite samples_onmessage.
  destruct (startsWith data (str "{") || startsWith data (str "[")); [constructor|].
  destruct (includes data (str ",")).
  - rewrite samples_comma. destruct (onEarthquakeData h); [|constructor].
    destruct (readMetaPrefix data) as [meta0 pm].
    destruct (startsWith pm (str "X")); [|constructor].
    destruct (splitWaveforms meta0 pm) as [[[[meta x] y] z]|]; constructor.
  - rewrite samples_single. destruct (onEarthquakeData h); [|constructor].
    destruct (isNaN (parseFloat data)) eqn:E; constructor. exact E.
Qed.

End Samples.

Lemma dataPoints_timeOk now w m pts :
  Forall (fun s => sampleTimeOk now s /\ (timestamp s <= now)%Z
                   /\ isNaN (amplitude s) = false)
         (dataPoints now w m pts).
Proof.
  rewrite dataPoints_from. eapply Forall_impl; [|apply pointsFrom_spec].
  intros s (i & p & Hi & _ & _ & Hn & Ht & Hb & Hs & _).
  unfold sampleTimeOk. rewrite Hb, Hs. unfold pointTime in Ht.
  repeat split; try assumption; lia.
Qed.

Lemma optionalWave_timeOk now c m y :
  Forall (fun s => sampleTimeOk now s /\ (timestamp s <= now)%Z
                   /\ isNaN (amplitude s) = false)
         (optionalWave now c m y).
Proof. destruct y; [apply dataPoints_timeOk | constructor]. Qed.

Lemma delivered_timeOk now ss :
  Delivered now ss ->
  Forall (fun s => sampleTimeOk now s /\ (timestamp s <= now)%Z
                   /\ isNaN (amplitude s) = false) ss.
Proof.
  intros [|amp Ha|meta pts|meta x y z].
  - constructor.
  - constructor; [|constructor]. unfold sampleTimeOk. simpl.
    repeat split; [lia | exact Ha].
  - apply dataPoints_timeOk.
  - repeat (apply Forall_app; split);
      [apply dataPoints_timeOk | apply optionalWave_timeOk | apply optionalWave_timeOk].
Qed.

Lemma delivered_sorted now ss c :
  Delivered now ss -> StronglySorted Z.lt (map timestamp (filter (hasChannel c) ss)).
Proof.
  intros [|amp Ha|meta pts|meta x y z].
  - constructor.
  - simpl. destruct (hasChannel c _); simpl; repeat constructor.
  - rewrite dataPoints_from, pointsFrom_channel.
    destruct (hasChannel c _); [apply pointsFrom_sorted | constructor].
  - rewrite !filter_app.
    destruct c as [[| |]|];
      destruct y as [ypts|]; destruct z as [zpts|]; unfold optionalWave;
      rewrite ?dataPoints_from, ?pointsFrom_channel; cbn [hasChannel waveformType metadata filter app];
      rewrite ?app_nil_r; try apply pointsFrom_sorted; constructor.
Qed.

(** ** Unlabeled batches *)


Lemma readMetaPrefix_none (data : jstring) :
  matchMetaPrefix data = false -> readMetaPrefix data = (emptyMeta, data).
Proof. intros H. unfold readMetaPrefix. rewrite H. reflexivity. Qed.




Lemma number_head_routes (x : N) (r : jstring) :
  canStartNumber x = true ->
  startsWith (x :: r) (str "{") = false /\ startsWith (x :: r) (str "[") = false /\
  startsWith (x :: r) (str "X") = false /\ matchMetaPrefix (x :: r) = false.
Proof.
  intros Hx.
  assert (Hne : forall c, canStartNumber c = false -> (c =? x)%N = false /\ (x =? c)%N = false).
  { intros c Hc. split; apply N.eqb_neq; intros E; subst; congruence. }
  unfold matchMetaPrefix, expectChar.
  change (str "{") with [ch "{"]. change (str "[") with [ch "["].
  change (str "X") with [ch "X"]. cbn [startsWith].
  rewrite (proj1 (Hne (ch "{") eq_refl)), (proj1 (Hne (ch "[") eq_refl)),
    (proj1 (Hne (ch "X") eq_refl)), (proj2 (Hne (ch "T") eq_refl)).
  repeat split; reflexivity.
Qed.




(** C5, what fails: the batch read from ["1.0,abc"] at time 1000 has one
    sample, and that sample, the last of its batch, is dated 990. *)
Lemma last_sample_before_arrival :
  let ss := emittedSamples
              (onmessage JSON_parse_text (listening (quietCallback 0)) 1000
                         (str "1.0,abc")) in
  length ss = 1 /\
  map timestamp ss = [990%Z] /\
  (1000 - (Z.of_nat (length ss) - 1 - 0) * 10)%Z = 1000%Z.
Proof. vm_compute. repeat split; reflexivity. Qed.

(** ** The metadata prefix *)

Lemma digits1_run (t : jstring) (c : N) (r : jstring) :
  digitRun t -> isDigit c = false -> digits1 (t ++ c :: r) = Some (t, c :: r).
Proof.
  intros [Hne Hd] Hc. unfold digits1. rewrite span_digits_stop by assumption.
  destruct t; [congruence | reflexivity].
Qed.

Lemma matchMetaPrefix_frame (t h v rest : jstring) :
  digitRun t -> digitRun h -> digitRun v ->
  matchMetaPrefix (ch "T" :: t ++ ch "H" :: h ++ ch "V" :: v ++ comma :: rest) = true.
Proof.
  intros Ht Hh Hv. unfold matchMetaPrefix. cbn [expectChar]. rewrite N.eqb_refl.
  rewrite digits1_run by (assumption || reflexivity).
  cbn [expectChar]. rewrite N.eqb_refl.
  rewrite digits1_run by (assumption || reflexivity).
  cbn [expectChar]. rewrite N.eqb_refl.
  rewrite digits1_run by (assumption || reflexivity).
  cbn [expectChar]. rewrite N.eqb_refl. reflexivity.
Qed.

Lemma matchTagDigits_skip (c : N) (t r : jstring) :
  Forall (fun d => isDigit d = true) t -> isDigit c = false ->
  matchTagDigits c (t ++ r) = matchTagDigits c r.
Proof.
  intros Ht Hc. induction Ht as [|d t Hd Ht IH]; [reflexivity|].
  cbn [app matchTagDigits].
  destruct (N.eqb_spec d c) as [->|_]; [congruence | exact IH].
Qed.

Lemma matchTagDigits_here (c : N) (t r : jstring) :
  digitRun t -> fst (span isDigit (t ++ r)) = t ->
  matchTagDigits c (c :: t ++ r) = Some t.
Proof.
  intros [Hne _] Hs. cbn [matchTagDigits]. rewrite N.eqb_refl, Hs.
  destruct t; [congruence | reflexivity].
Qed.

Lemma digits_commaFree (t : jstring) :
  Forall (fun d => isDigit d = true) t -> ~ In comma t.
Proof. intros Ht Hin. rewrite Forall_forall in Ht. apply Ht in Hin. discriminate. Qed.

Lemma indexOf_first (c : N) (a r : jstring) :
  ~ In c a -> indexOf c (a ++ c :: r) = Some (length a).
Proof.
  induction a as [|d a IH]; intros Ha; simpl.
  - rewrite N.eqb_refl. reflexivity.
  - destruct (N.eqb_spec d c) as [->|_]; [exfalso; apply Ha; now left|].
    rewrite IH; [reflexivity | intros Hin; apply Ha; now right].
Qed.

Lemma skipn_past (a : jstring) (c : N) (r : jstring) :
  skipn (S (length a)) (a ++ c :: r) = r.
Proof. induction a as [|d a IH]; [reflexivity | exact IH]. Qed.

Lemma readMetaPrefix_frame (t h v rest : jstring) :
  digitRun t -> digitRun h -> digitRun v ->
  readMetaPrefix (ch "T" :: t ++ ch "H" :: h ++ ch "V" :: v ++ comma :: rest) =
  ({| temperature := Some (parseInt t); humidity := Some (parseInt h);
      voltage := Some (parseInt v);
      dataType := None; secondWaveform := None; thirdWaveform := None |}, rest).
Proof.
  intros Ht Hh Hv. unfold readMetaPrefix.
  rewrite matchMetaPrefix_frame by assumption.
  set (a := ch "T" :: t ++ ch "H" :: h ++ ch "V" :: v).
  assert (Ea : ch "T" :: t ++ ch "H" :: h ++ ch "V" :: v ++ comma :: rest
               = a ++ comma :: rest).
  { unfold a. simpl. rewrite <- !app_assoc. simpl. rewrite <- !app_assoc. reflexivity. }
  rewrite Ea.
  assert (Ha : ~ In comma a).
  { unfold a. destruct Ht as [_ Ht], Hh as [_ Hh], Hv as [_ Hv].
    intros [Hin|Hin]; [discriminate|].
    apply in_app_or in Hin. destruct Hin as [Hin|[Hin|Hin]];
      [exact (digits_commaFree _ Ht Hin) | discriminate |].
    apply in_app_or in Hin. destruct Hin as [Hin|[Hin|Hin]];
      [exact (digits_commaFree _ Hh Hin) | discriminate |
       exact (digits_commaFree _ Hv Hin)]. }
  rewrite (split_cons (str ",") _ a rest) by
    (first [discriminate | apply (breakOn_single comma); exact Ha]).
  cbn [hd]. change (ch ",") with comma. rewrite (indexOf_first comma a rest Ha).
  unfold substring.
  rewrite skipn_past.
  assert (ET : matchTagDigits (ch "T") a = Some t).
  { unfold a. apply matchTagDigits_here; [exact Ht|].
    rewrite span_digits_stop by (first [apply Ht | reflexivity]). reflexivity. }
  assert (EH : matchTagDigits (ch "H") a = Some h).
  { unfold a. cbn [matchTagDigits].
    change (ch "T" =? ch "H")%N with false.
    rewrite matchTagDigits_skip by (first [apply Ht | reflexivity]).
    apply matchTagDigits_here; [exact Hh|].
    rewrite span_digits_stop by (first [apply Hh | reflexivity]). reflexivity. }
  assert (EV : matchTagDigits (ch "V") a = Some v).
  { unfold a. cbn [matchTagDigits].
    change (ch "T" =? ch "V")%N with false.
    rewrite matchTagDigits_skip by (first [apply Ht | reflexivity]).
    cbn [matchTagDigits]. change (ch "H" =? ch "V")%N with false.
    rewrite matchTagDigits_skip by (first [apply Hh | reflexivity]).
    rewrite <- (app_nil_r v) at 1. apply matchTagDigits_here; [exact Hv|].
    rewrite app_nil_r, span_digits_all by apply Hv. reflexivity. }
  rewrite ET, EH, EV. reflexivity.
Qed.

(** ** Occurrences of a two-unit marker *)

Lemma includes_prefix (s r p : jstring) :
  includes (s ++ r) p = false -> includes s p = false.
Proof.
  assert (Hs : forall p s r, startsWith s p = true -> startsWith (s ++ r) p = true).
  { clear. induction p as [|c p IH]; intros s r H; [reflexivity|].
    destruct s as [|d s]; [discriminate|]. simpl in *.
    apply andb_true_iff in H. destruct H as [H1 H2].
    rewrite H1. simpl. apply IH. exact H2. }
  induction s as [|c s IH]; intros H.
  - destruct p as [|x p]; [|reflexivity].
    destruct r; simpl in H; discriminate.
  - change ((c :: s) ++ r) with (c :: (s ++ r)) in H.
    apply includes_cons_false in H. destruct H as [H1 H2].
    cbn [includes]. rewrite (IH H2), orb_false_r.
    destruct (startsWith (c :: s) p) eqn:E; [|reflexivity].
    apply (Hs _ _ r) in E. simpl app in E. congruence.
Qed.

Lemma includes_pair_app (c1 c2 : N) (a b : jstring) :
  includes a [c1; c2] = false -> includes b [c1; c2] = false ->
  hd_error b <> Some c2 ->
  includes (a ++ b) [c1; c2] = false.
Proof.
  intros Ha Hb Hh. induction a as [|d a IH]; [exact Hb|].
  apply includes_cons_false in Ha. destruct Ha as [Hs Hi].
  change ((d :: a) ++ b) with (d :: (a ++ b)). cbn [includes].
  rewrite (IH Hi), orb_false_r.
  cbn [startsWith] in Hs |- *.
  destruct (c1 =? d)%N; [|reflexivity]. cbn [andb] in Hs |- *.
  destruct a as [|e a]; [|exact Hs].
  cbn [app]. apply startsWith_one. exact Hh.
Qed.

Lemma split_nonempty (sep s : jstring) : exists x l, split sep s = x :: l.
Proof.
  unfold split. destruct (length s); simpl; [eauto|].
  destruct (breakOn sep s) as [[a b]|]; eauto.
Qed.

Lemma split_pair_first (c1 c2 : N) (a b : jstring) :
  c1 <> c2 -> includes a [c1; c2] = false ->
  split [c1; c2] (a ++ c1 :: c2 :: b) = a :: split [c1; c2] b.
Proof.
  intros Hne Ha. apply split_cons; [discriminate|]. apply breakOn_pair; assumption.
Qed.

Lemma split_absent (sep s : jstring) : includes s sep = false -> split sep s = [s].
Proof. intros H. apply split_none, breakOn_none, H. Qed.

(** ** Frames that start with the X marker *)


Lemma filter_all {A : Type} (f : A -> bool) (l : list A) :
  Forall (fun x => f x = true) l -> filter f l = l.
Proof. induction 1 as [|x l Hx Hl IH]; simpl; [|rewrite Hx, IH]; reflexivity. Qed.

Lemma points_numeric_join (xs : list jstring) :
  Forall numericToken xs ->
  points (join (str ",") xs) = map trim xs /\ Forall numeric (map trim xs).
Proof.
  intros Hx. split.
  - rewrite points_join by (eapply Forall_impl; [|exact Hx]; intros t Ht; apply Ht).
    apply filter_all, Forall_map. eapply Forall_impl; [|exact Hx].
    intros t [Hn _]. apply numeric_trim_nonempty. exact Hn.
  - apply Forall_map. eapply Forall_impl; [|exact Hx].
    intros t [Hn _]. unfold numeric. rewrite parseFloat_trim. exact Hn.
Qed.

Lemma join_no_marker (c : N) (xs : list jstring) :
  Forall numericToken xs -> canStartNumber c = false -> c <> comma ->
  includes (join (str ",") xs) [comma; c] = false /\
  hd_error (join (str ",") xs) <> Some c.
Proof.
  intros Hx Hc Hne.
  assert (Hf : Forall (fun t => commaFree t /\ hd_error t <> Some c) xs).
  { eapply Forall_impl; [|exact Hx]. intros t [Hn Hcf]. split; [exact Hcf|].
    apply numeric_hd; assumption. }
  split; [apply join_commaFree_includes; assumption|].
  destruct xs as [|x xs]; [discriminate|].
  apply hd_join; [assumption|]. inversion Hf as [|? ? [_ H] _]. exact H.
Qed.

Lemma nth_error_split_hd (sep s : jstring) :
  nth_error (split sep s) 0 = Some (hd [] (split sep s)).
Proof. destruct (split_nonempty sep s) as (x & l & E). rewrite E. reflexivity. Qed.

(** The branch taken when the text has a Z marker. *)
Lemma splitWaveforms_Z (meta : FrameMeta) (body d xa yb : jstring) (more : list jstring) :
  includes body markerZ = false ->
  split markerY body = (ch "X" :: xa) :: yb :: more ->
  splitWaveforms meta (body ++ comma :: ch "Z" :: d) =
  Ok (withDataType meta "triple-waveform" (Some true) (Some true),
      points xa, Some (points yb), Some (points (hd [] (split markerZ d)))).
Proof.
  intros Hz Hy. unfold splitWaveforms.
  change (str ",Z") with markerZ. change (str ",Y") with markerY.
  assert (includes (body ++ comma :: ch "Z" :: d) markerZ = true) as ->.
  { apply (includes_here body markerZ d). }
  assert (Ep : split markerZ (body ++ comma :: ch "Z" :: d) = body :: split markerZ d).
  { apply split_pair_first; [discriminate | exact Hz]. }
  rewrite Ep. cbn [nth]. rewrite Hy. cbn [nth nth_error substring skipn].
  destruct (split_nonempty markerZ d) as (x & l & E). rewrite E.
  reflexivity.
Qed.

(** The branch taken when the text has a Y marker and no Z marker. *)
Lemma splitWaveforms_Y (meta : FrameMeta) (body xa yb : jstring) (more : list jstring) :
  includes body markerZ = false ->
  split markerY body = (ch "X" :: xa) :: yb :: more ->
  splitWaveforms meta body =
  Ok (withDataType meta "dual-waveform" (Some true) None,
      points xa, Some (points yb), None).
Proof.
  intros Hz Hy. unfold splitWaveforms.
  change (str ",Z") with markerZ. change (str ",Y") with markerY.
  rewrite Hz.
  assert (includes body markerY = true) as ->.
  { destruct (includes body markerY) eqn:E; [reflexivity|].
    rewrite (split_absent _ _ E) in Hy. discriminate. }
  rewrite Hy. reflexivity.
Qed.

Lemma X_not_meta (m : jstring) : readMetaPrefix (ch "X" :: m) = (emptyMeta, ch "X" :: m).
Proof. reflexivity. Qed.

Lemma samples_X (JSON_parse : jstring -> option JSValue)
    (h : Handlers) (cb : Callback) (now : Z) (data m : jstring) (meta0 : FrameMeta) :
  onEarthquakeData h = Some cb ->
  (startsWith data (str "{") || startsWith data (str "[")) = false ->
  includes data (str ",") = true ->
  readMetaPrefix data = (meta0, ch "X" :: m) ->
  emittedSamples (onmessage JSON_parse h now data) =
  match splitWaveforms meta0 (ch "X" :: m) with
  | Throw => []
  | Ok (meta, x, y, z) =>
      dataPoints now (Some ChX) meta x ++ optionalWave now ChY meta y
      ++ optionalWave now ChZ meta z
  end.
Proof.
  intros Hcb H1 H2 H3.
  rewrite samples_onmessage, H1, H2, samples_comma, Hcb, H3.
  change (str "X") with [ch "X"]. cbn [startsWith]. rewrite N.eqb_refl. reflexivity.
Qed.

Lemma tripleFrame_eq (t h v : jstring) (xs ys zs : list jstring) :
  tripleFrame t h v xs ys zs =
  ch "T" :: t ++ ch "H" :: h ++ ch "V" :: v ++ comma ::
    ((ch "X" :: join (str ",") xs ++ comma :: ch "Y" :: join (str ",") ys)
     ++ comma :: ch "Z" :: join (str ",") zs).
Proof.
  unfold tripleFrame. cbn [str app].
  rewrite <- (app_assoc (join _ xs)). reflexivity.
Qed.


(** ** Triple-waveform frames *)

Lemma includes_In (c : N) (s : jstring) : In c s -> includes s [c] = true.
Proof.
  induction s as [|d s IH]; intros Hin; [contradiction|].
  cbn [includes startsWith]. destruct Hin as [->|Hin].
  - rewrite N.eqb_refl. reflexivity.
  - rewrite (IH Hin). apply orb_true_r.
Qed.

Lemma numeric_amplitudes (xs : list jstring) :
  Forall numericToken xs ->
  filter (fun a => negb (isNaN a)) (map parseFloat (map trim xs)) = map parseFloat xs.
Proof.
  induction 1 as [|x xs [Hn _] Hxs IH]; [reflexivity|].
  simpl. rewrite parseFloat_trim. unfold numeric in Hn. rewrite Hn. simpl.
  rewrite IH. reflexivity.
Qed.

Lemma dataPoints_hasMeta now w m pts (P : FrameMeta -> Prop) :
  P m -> Forall (fun s => P (frameMeta (metadata s))) (dataPoints now w m pts).
Proof.
  intros Hm. rewrite dataPoints_from. eapply Forall_impl; [|apply pointsFrom_spec].
  intros s (i & p & _ & _ & _ & _ & _ & _ & _ & _ & E). rewrite E. exact Hm.
Qed.

(** The samples of a triple-waveform frame, waveform by waveform. *)
Lemma tripleFrame_samples (JSON_parse : jstring -> option JSValue)
    (h : Handlers) (cb : Callback) (now : Z)
    (t hu v : jstring) (xs ys zs : list jstring) :
  onEarthquakeData h = Some cb ->
  digitRun t -> digitRun hu -> digitRun v ->
  Forall numericToken xs -> Forall numericToken ys -> Forall numericToken zs ->
  exists meta,
    temperature meta = Some (parseInt t) /\ humidity meta = Some (parseInt hu) /\
    voltage meta = Some (parseInt v) /\
    emittedSamples (onmessage JSON_parse h now (tripleFrame t hu v xs ys zs)) =
    dataPoints now (Some ChX) meta (map trim xs)
    ++ dataPoints now (Some ChY) meta (map trim ys)
    ++ dataPoints now (Some ChZ) meta (map trim zs).
Proof.
  intros Hcb Ht Hh Hv Hxs Hys Hzs.
  destruct (points_numeric_join xs Hxs) as [Epx _].
  destruct (points_numeric_join ys Hys) as [Epy _].
  destruct (points_numeric_join zs Hzs) as [Epz _].
  destruct (join_no_marker (ch "Y") xs Hxs eq_refl ltac:(discriminate)) as [HxY _].
  destruct (join_no_marker (ch "Z") xs Hxs eq_refl ltac:(discriminate)) as [HxZ _].
  destruct (join_no_marker (ch "Y") ys Hys eq_refl ltac:(discriminate)) as [HyY _].
  destruct (join_no_marker (ch "Z") ys Hys eq_refl ltac:(discriminate)) as [HyZ _].
  destruct (join_no_marker (ch "Z") zs Hzs eq_refl ltac:(discriminate)) as [HzZ _].
  fold markerY in HxY, HyY. fold markerZ in HxZ, HyZ, HzZ.
  set (jx := join (str ",") xs) in *. set (jy := join (str ",") ys) in *.
  set (jz := join (str ",") zs) in *.
  set (body := ch "X" :: jx ++ comma :: ch "Y" :: jy).
  assert (Hbody : includes body markerZ = false).
  { unfold body. change (ch "X" :: jx ++ comma :: ch "Y" :: jy)
      with ((ch "X" :: jx) ++ comma :: ch "Y" :: jy).
    apply includes_pair_app.
    - cbn [includes]. fold markerZ. rewrite HxZ. reflexivity.
    - cbn [includes]. fold markerZ. rewrite HyZ. reflexivity.
    - discriminate. }
  assert (Hsplit : split markerY body = [ch "X" :: jx; jy]).
  { unfold body. change (ch "X" :: jx ++ comma :: ch "Y" :: jy)
      with ((ch "X" :: jx) ++ comma :: ch "Y" :: jy).
    unfold markerY at 1. rewrite split_pair_first.
    - fold markerY. rewrite (split_absent _ _ HyY). reflexivity.
    - discriminate.
    - cbn [includes]. fold markerY. rewrite HxY. reflexivity. }
  set (meta0 := {| temperature := Some (parseInt t); humidity := Some (parseInt hu);
                   voltage := Some (parseInt v);
                   dataType := None; secondWaveform := None; thirdWaveform := None |}).
  exists (withDataType meta0 "triple-waveform" (Some true) (Some true)).
  split; [reflexivity|]. split; [reflexivity|]. split; [reflexivity|].
  rewrite tripleFrame_eq. fold jx jy jz. fold body.
  assert (Erest : ch "X" :: jx ++ comma :: ch "Y" :: jy ++ comma :: ch "Z" :: jz
                  = body ++ comma :: ch "Z" :: jz).
  { unfold body. cbn [app]. rewrite <- app_assoc. reflexivity. }
  rewrite (samples_X JSON_parse h cb now _
             (jx ++ comma :: ch "Y" :: jy ++ comma :: ch "Z" :: jz) meta0 Hcb).
  - rewrite Erest. rewrite (splitWaveforms_Z _ body jz jx jy [] Hbody Hsplit).
    rewrite (split_absent _ _ HzZ). cbn [hd optionalWave].
    rewrite Epx, Epy, Epz. reflexivity.
  - reflexivity.
  - apply (includes_In comma). right.
    apply in_or_app; right; right.
    apply in_or_app; right; right.
    apply in_or_app; right; left; reflexivity.
  - rewrite (readMetaPrefix_frame t hu v _ Ht Hh Hv). rewrite Erest. reflexivity.
Qed.

(** Counting the samples of a triple-waveform frame. *)
Lemma tripleFrame_counts (JSON_parse : jstring -> option JSValue)
    (h : Handlers) (cb : Callback) (now : Z)
    (t hu v : jstring) (xs ys zs : list jstring) :
  onEarthquakeData h = Some cb ->
  digitRun t -> digitRun hu -> digitRun v ->
  Forall numericToken xs -> Forall numericToken ys -> Forall numericToken zs ->
  let ss := emittedSamples (onmessage JSON_parse h now (tripleFrame t hu v xs ys zs)) in
  length ss = length xs + length ys + length zs /\
  length (filter (hasChannel (Some ChX)) ss) = length xs /\
  length (filter (hasChannel (Some ChY)) ss) = length ys /\
  length (filter (hasChannel (Some ChZ)) ss) = length zs /\
  Forall (hasPrefixMeta t hu v) ss /\
  map amplitude ss = map parseFloat (xs ++ ys ++ zs).
Proof.
  intros Hcb Ht Hh Hv Hxs Hys Hzs ss.
  destruct (tripleFrame_samples JSON_parse h cb now t hu v xs ys zs
              Hcb Ht Hh Hv Hxs Hys Hzs) as (meta & HT & HH & HV & E).
  fold ss in E. rewrite E.
  destruct (points_numeric_join xs Hxs) as [_ Hnx].
  destruct (points_numeric_join ys Hys) as [_ Hny].
  destruct (points_numeric_join zs Hzs) as [_ Hnz].
  assert (Lx : length (dataPoints now (Some ChX) meta (map trim xs)) = length xs).
  { rewrite dataPoints_from, pointsFrom_length, length_map by assumption. reflexivity. }
  assert (Ly : length (dataPoints now (Some ChY) meta (map trim ys)) = length ys).
  { rewrite dataPoints_from, pointsFrom_length, length_map by assumption. reflexivity. }
  assert (Lz : length (dataPoints now (Some ChZ) meta (map trim zs)) = length zs).
  { rewrite dataPoints_from, pointsFrom_length, length_map by assumption. reflexivity. }
  split; [rewrite !length_app; lia|].
  split; [|split; [|split; [|split]]].
  - rewrite !filter_app, !dataPoints_from, !pointsFrom_channel.
    cbn [hasChannel waveformType metadata]. rewrite !app_nil_r.
    rewrite <- dataPoints_from. exact Lx.
  - rewrite !filter_app, !dataPoints_from, !pointsFrom_channel.
    cbn [hasChannel waveformType metadata]. rewrite !app_nil_r. cbn [app].
    rewrite <- dataPoints_from. exact Ly.
  - rewrite !filter_app, !dataPoints_from, !pointsFrom_channel.
    cbn [hasChannel waveformType metadata]. cbn [app].
    rewrite <- dataPoints_from. exact Lz.
  - assert (Hm : hasPrefixMeta t hu v
                   {| amplitude := NaN; timestamp := 0;
                      metadata := {| source := []; raw := true; batchIndex := None;
                                     batchSize := None; waveformType := None;
                                     frameMeta := meta |} |})
      by (unfold hasPrefixMeta; cbn; auto).
    repeat (apply Forall_app; split);
      apply (dataPoints_hasMeta now _ meta _
               (fun m => temperature m = Some (parseInt t) /\
                         humidity m = Some (parseInt hu) /\
                         voltage m = Some (parseInt v))); exact Hm.
  - rewrite !map_app, !dataPoints_from, !pointsFrom_amplitudes.
    rewrite !numeric_amplitudes by assumption. reflexivity.
Qed.


Lemma toFixed2_numericToken (n : N) : numericToken (toFixed2 n).
Proof.
  split; [|apply toFixed2_commaFree].
  unfold numeric. rewrite parseFloat_toFixed2. reflexivity.
Qed.

Lemma digitsOf_digitRun (n : N) : digitRun (digitsOf n).
Proof. split; [apply digitsOf_nonempty | apply digitsOf_digits]. Qed.

Lemma parseFloat_sent (l : list N) : map parseFloat (map toFixed2 l) = map hundredths l.
Proof.
  induction l as [|n l IH]; [reflexivity|].
  simpl. rewrite parseFloat_toFixed2, IH. reflexivity.
Qed.

(** C4: a frame [T{t}H{h}V{v},X{xs},Y{ys},Z{zs}] whose points are free of
    commas and read as numbers is delivered as [len xs + len ys + len zs]
    samples, [len xs] of them tagged X, [len ys] tagged Y and [len zs]
    tagged Z, each with the temperature, humidity and voltage of the
    prefix in its metadata; the amplitudes are the values of the points, in
    order.  In particular the frame that [sendTripleWaveformTestData] sends
    for the numbers [t], [h], [v] and the values [xs], [ys], [zs] is
    delivered with [temperature = t], [humidity = h], [voltage = v] and
    those values. *)
Theorem triple_frame_decodes (JSON_parse : jstring -> option JSValue)
    (h : Handlers) (cb : Callback) (now : Z) :
  onEarthquakeData h = Some cb ->
  (forall (t hu v : jstring) (xs ys zs : list jstring),
      digitRun t -> digitRun hu -> digitRun v ->
      Forall numericToken xs -> Forall numericToken ys -> Forall numericToken zs ->
      let ss := emittedSamples (onmessage JSON_parse h now (tripleFrame t hu v xs ys zs)) in
      length ss = length xs + length ys + length zs /\
      length (filter (hasChannel (Some ChX)) ss) = length xs /\
      length (filter (hasChannel (Some ChY)) ss) = length ys /\
      length (filter (hasChannel (Some ChZ)) ss) = length zs /\
      Forall (hasPrefixMeta t hu v) ss /\
      map amplitude ss = map parseFloat (xs ++ ys ++ zs)) /\
  (forall (tN hN vN : N) (xs ys zs : list N) (text : jstring),
      sendTripleWaveformTestData (Some OPEN) tN hN vN xs ys zs = (true, Some text) ->
      let ss := emittedSamples (onmessage JSON_parse h now text) in
      length ss = length xs + length ys + length zs /\
      length (filter (hasChannel (Some ChX)) ss) = length xs /\
      length (filter (hasChannel (Some ChY)) ss) = length ys /\
      length (filter (hasChannel (Some ChZ)) ss) = length zs /\
      Forall (fun s => temperature (frameMeta (metadata s)) = Some tN /\
                       humidity (frameMeta (metadata s)) = Some hN /\
                       voltage (frameMeta (metadata s)) = Some vN) ss /\
      map amplitude ss = map hundredths (xs ++ ys ++ zs)).
Proof.
  intros Hcb. split.
  - intros t hu v xs ys zs. apply (tripleFrame_counts JSON_parse h cb now); exact Hcb.
  - intros tN hN vN xs ys zs text Hsent.
    unfold sendTripleWaveformTestData in Hsent. cbn [isOpen] in Hsent.
    injection Hsent as <-.
    change (ch "T" :: digitsOf tN ++ ch "H" :: digitsOf hN ++ ch "V" :: digitsOf vN
            ++ str ",X" ++ join (str ",") (map toFixed2 xs)
            ++ str ",Y" ++ join (str ",") (map toFixed2 ys)
            ++ str ",Z" ++ join (str ",") (map toFixed2 zs))
      with (tripleFrame (digitsOf tN) (digitsOf hN) (digitsOf vN)
              (map toFixed2 xs) (map toFixed2 ys) (map toFixed2 zs)).
    assert (Hn : forall l, Forall numericToken (map toFixed2 l)).
    { intros l. apply Forall_map, Forall_forall. intros n _. apply toFixed2_numericToken. }
    destruct (tripleFrame_counts JSON_parse h cb now
                (digitsOf tN) (digitsOf hN) (digitsOf vN)
                (map toFixed2 xs) (map toFixed2 ys) (map toFixed2 zs) Hcb
                (digitsOf_digitRun tN) (digitsOf_digitRun hN) (digitsOf_digitRun vN)
                (Hn xs) (Hn ys) (Hn zs))
      as (H1 & H2 & H3 & H4 & H5 & H6).
    repeat rewrite length_map in H1. rewrite length_map in H2, H3, H4.
    cbv zeta.
    split; [exact H1|]. split; [exact H2|]. split; [exact H3|]. split; [exact H4|].
    split.
    + eapply Forall_impl; [|exact H5]. unfold hasPrefixMeta, parseInt.
      rewrite !digitsOf_value. intros s Hs. exact Hs.
    + etransitivity; [exact H6|].
      rewrite <- !map_app, parseFloat_sent. reflexivity.
Qed.

Lemma triple_frame_decodes_witness :
  let ss := emittedSamples
              (onmessage JSON_parse_text (listening (quietCallback 0)) 1000
                         (str "T25H60V90,X1.0,2.0,Y0.5,Z2.1,2.2,2.3")) in
  length ss = 6 /\
  length (filter (hasChannel (Some ChX)) ss) = 2 /\
  length (filter (hasChannel (Some ChY)) ss) = 1 /\
  length (filter (hasChannel (Some ChZ)) ss) = 3 /\
  Forall (hasPrefixMeta (str "25") (str "60") (str "90")) ss /\
  map amplitude ss =
  map parseFloat [str "1.0"; str "2.0"; str "0.5"; str "2.1"; str "2.2"; str "2.3"].
Proof.
  apply (proj1 (triple_frame_decodes JSON_parse_text (listening (quietCallback 0))
                  (quietCallback 0) 1000 eq_refl)
               (str "25") (str "60") (str "90")
               [str "1.0"; str "2.0"] [str "0.5"] [str "2.1"; str "2.2"; str "2.3"]).
  - split; [discriminate | repeat constructor].
  - split; [discriminate | repeat constructor].
  - split; [discriminate | repeat constructor].
  - repeat constructor; unfold commaFree; simpl; intuition discriminate.
  - repeat constructor; unfold commaFree; simpl; intuition discriminate.
  - repeat constructor; unfold commaFree; simpl; intuition discriminate.
Defined.

(** ** A repeated Y marker *)

Lemma onmessage_X (JSON_parse : jstring -> option JSValue)
    (h : Handlers) (now : Z) (m : jstring) :
  includes (ch "X" :: m) (str ",") = true ->
  onmessage JSON_parse h now (ch "X" :: m) =
  caught MessageHandlingFailed
    (match splitWaveforms emptyMeta (ch "X" :: m) with
     | Throw => ([], Raised)
     | Ok (meta, x, y, z) =>
         let all := dataPoints now (Some ChX) meta x ++ optionalWave now ChY meta y
                    ++ optionalWave now ChZ meta z in
         let r := callData h (0 <? length all) (PBatch all) in
         ((pointWarnings (Some ChX) x ++ optionalWarnings ChY y
           ++ optionalWarnings ChZ z) ++ fst r, snd r)
     end).
Proof.
  intros Hc. unfold onmessage.
  change (startsWith (ch "X" :: m) (str "{") || startsWith (ch "X" :: m) (str "["))
    with false.
  cbv iota. rewrite Hc. unfold onCommaSeparated. rewrite X_not_meta.
  change (startsWith (ch "X" :: m) (str "X")) with true. cbv iota.
  destruct (splitWaveforms emptyMeta (ch "X" :: m)) as [[[[meta x] y] z]|]; reflexivity.
Qed.

Lemma twiceY_split (a b c : jstring) :
  includes a markerY = false -> includes b markerY = false ->
  split markerY (ch "X" :: a ++ comma :: ch "Y" :: b ++ comma :: ch "Y" :: c) =
  (ch "X" :: a) :: b :: split markerY c.
Proof.
  intros Ha Hb.
  change (ch "X" :: a ++ comma :: ch "Y" :: b ++ comma :: ch "Y" :: c)
    with ((ch "X" :: a) ++ comma :: ch "Y" :: b ++ comma :: ch "Y" :: c).
  unfold markerY at 1. rewrite split_pair_first.
  - fold markerY. f_equal. apply split_pair_first; [discriminate | exact Hb].
  - discriminate.
  - cbn [includes]. fold markerY. rewrite Ha. reflexivity.
Qed.

Lemma onceY_split (a b : jstring) :
  includes a markerY = false -> includes b markerY = false ->
  split markerY (ch "X" :: a ++ comma :: ch "Y" :: b) = [ch "X" :: a; b].
Proof.
  intros Ha Hb.
  change (ch "X" :: a ++ comma :: ch "Y" :: b) with ((ch "X" :: a) ++ comma :: ch "Y" :: b).
  unfold markerY at 1. rewrite split_pair_first.
  - fold markerY. rewrite (split_absent _ _ Hb). reflexivity.
  - discriminate.
  - cbn [includes]. fold markerY. rewrite Ha. reflexivity.
Qed.

Lemma onceY_prefix (a b c : jstring) :
  ch "X" :: a ++ comma :: ch "Y" :: b ++ comma :: ch "Y" :: c =
  (ch "X" :: a ++ comma :: ch "Y" :: b) ++ comma :: ch "Y" :: c.
Proof. cbn [app]. rewrite <- app_assoc. reflexivity. Qed.

(** The waveforms read from both frames. *)
Lemma twiceY_waveforms (a b c : jstring) (tail : option jstring) :
  includes a markerY = false -> includes b markerY = false ->
  includes (ch "X" :: a ++ comma :: ch "Y" :: b ++ comma :: ch "Y" :: c) markerZ = false ->
  exists meta z,
    splitWaveforms emptyMeta (twiceY a b c tail) = Ok (meta, points a, Some (points b), z) /\
    splitWaveforms emptyMeta (onceY a b tail) = Ok (meta, points a, Some (points b), z) /\
    z = match tail with
        | Some d => Some (points (hd [] (split markerZ d)))
        | None => None
        end.
Proof.
  intros Ha Hb Hz.
  assert (Hz' : includes (ch "X" :: a ++ comma :: ch "Y" :: b) markerZ = false).
  { rewrite onceY_prefix in Hz. apply includes_prefix in Hz. exact Hz. }
  unfold twiceY, onceY. destruct tail as [d|]; cbn [ending].
  - do 2 eexists. split; [|split; [|reflexivity]].
    + apply (splitWaveforms_Z emptyMeta _ d a b _ Hz (twiceY_split a b c Ha Hb)).
    + apply (splitWaveforms_Z emptyMeta _ d a b _ Hz' (onceY_split a b Ha Hb)).
  - rewrite !app_nil_r. do 2 eexists. split; [|split; [|reflexivity]].
    + apply (splitWaveforms_Y emptyMeta _ a b _ Hz (twiceY_split a b c Ha Hb)).
    + apply (splitWaveforms_Y emptyMeta _ a b _ Hz' (onceY_split a b Ha Hb)).
Qed.

Lemma has_comma_Y (a r : jstring) (tail : jstring) :
  includes ((ch "X" :: a ++ comma :: r) ++ tail) (str ",") = true.
Proof.
  apply (includes_In comma). apply in_or_app. left. right.
  apply in_or_app. right. left. reflexivity.
Qed.

(** C10: in a frame that starts with the X marker and has a second Y
    marker before any Z marker, the Y waveform is made of the points between
    the first and the second Y marker; what follows the second Y marker, up
    to the Z marker if there is one, has no effect at all: the handler does
    exactly what it does on the frame without it. *)
Theorem second_Y_marker_drops_rest (JSON_parse : jstring -> option JSValue)
    (h : Handlers) (cb : Callback) (now : Z) (a b c : jstring) (tail : option jstring) :
  onEarthquakeData h = Some cb ->
  includes a markerY = false ->
  includes b markerY = false ->
  includes (ch "X" :: a ++ comma :: ch "Y" :: b ++ comma :: ch "Y" :: c) markerZ = false ->
  onmessage JSON_parse h now (twiceY a b c tail) =
  onmessage JSON_parse h now (onceY a b tail) /\
  exists meta,
    emittedSamples (onmessage JSON_parse h now (twiceY a b c tail)) =
    dataPoints now (Some ChX) meta (points a)
    ++ dataPoints now (Some ChY) meta (points b)
    ++ match tail with
       | Some d => dataPoints now (Some ChZ) meta (points (hd [] (split markerZ d)))
       | None => []
       end.
Proof.
  intros Hcb Ha Hb Hz.
  destruct (twiceY_waveforms a b c tail Ha Hb Hz) as (meta & z & E2 & E1 & Ez).
  assert (C2 : includes (twiceY a b c tail) (str ",") = true) by apply has_comma_Y.
  assert (C1 : includes (onceY a b tail) (str ",") = true) by apply has_comma_Y.
  split.
  - unfold twiceY, onceY in *. cbn [app] in *.
    rewrite (onmessage_X JSON_parse h now _ C2), (onmessage_X JSON_parse h now _ C1).
    rewrite E2, E1. reflexivity.
  - exists meta. unfold twiceY in *. cbn [app] in *.
    rewrite (samples_X JSON_parse h cb now
               (ch "X" :: (a ++ comma :: ch "Y" :: b ++ comma :: ch "Y" :: c) ++ ending tail)
               _ emptyMeta Hcb eq_refl C2 (X_not_meta _)).
    rewrite E2, Ez. destruct tail; reflexivity.
Qed.

Lemma second_Y_marker_drops_rest_witness :
  onmessage JSON_parse_text (listening (quietCallback 0)) 1000 (str "X1.0,Y0.5,Y0.6") =
  onmessage JSON_parse_text (listening (quietCallback 0)) 1000 (str "X1.0,Y0.5") /\
  map (fun s => (amplitude s, waveformType (metadata s)))
      (emittedSamples (onmessage JSON_parse_text (listening (quietCallback 0)) 1000
                                 (str "X1.0,Y0.5,Y0.6")))
  = [(Fin 1, Some ChX); (Fin (1 # 2), Some ChY)].
Proof.
  split.
  - exact (proj1 (second_Y_marker_drops_rest JSON_parse_text (listening (quietCallback 0))
                    (quietCallback 0) 1000 (str "1.0") (str "0.5") (str "0.6") None
                    eq_refl eq_refl eq_refl eq_refl)).
  - reflexivity.
Defined.

(** A frame with the X marker alone delivers nothing: its points are never
    stored in [firstWaveformPoints]. *)
Remark X_alone_delivers_nothing :
  onmessage JSON_parse_text (listening (quietCallback 0)) 1000 (str "X1.0,2.0,3.0") = [].
Proof. reflexivity. Qed.

(** ** The Socket.IO fan-out *)

Lemma forEach_quiet (cbs : list Callback) (p : Payload) :
  Forall (fun cb => cb_raises cb p = false) cbs ->
  forEach cbs p = (map (called p) cbs, Returned).
Proof.
  induction 1 as [|cb cbs Hcb Hq IH]; [reflexivity|].
  simpl. rewrite Hcb, IH. reflexivity.
Qed.

Lemma forEach_raise (pre post : list Callback) (c : Callback) (p : Payload) :
  Forall (fun cb => cb_raises cb p = false) pre ->
  cb_raises c p = true ->
  forEach (pre ++ c :: post) p = (map (called p) (pre ++ [c]), Raised).
Proof.
  intros Hq Hc. induction Hq as [|cb pre Hcb Hq IH]; simpl.
  - rewrite Hc. reflexivity.
  - rewrite Hcb, IH. reflexivity.
Qed.

Lemma emitTo_returned (n : nat) (subs : list Callback) (data : JSValue) (ev : list Event) :
  dataListener subs data = (ev, Returned) ->
  emitTo n subs data = (concat (repeat ev n), Returned).
Proof.
  intros H. induction n as [|n IH]; [reflexivity|].
  simpl. rewrite H, IH. reflexivity.
Qed.

Lemma emitTo_raised (n : nat) (subs : list Callback) (data : JSValue) (ev : list Event) :
  dataListener subs data = (ev, Raised) ->
  emitTo (S n) subs data = (ev, Raised).
Proof. intros H. simpl. rewrite H. reflexivity. Qed.

Lemma subscribeAll_connected (cbs : list Callback) (st : Service) (s : Socket) :
  socket st = Some s ->
  subscribeAll cbs st =
  {| socket := Some {| lifecycle := lifecycle s;
                       dataListeners := dataListeners s + length cbs |};
     subscribers := subscribers st ++ cbs |}.
Proof.
  revert st s. induction cbs as [|cb cbs IH]; intros st s Hs.
  - simpl. rewrite Nat.add_0_r, app_nil_r. destruct st as [so subs]. simpl in *.
    subst so. destruct s. reflexivity.
  - simpl. unfold subscribeToEarthquakeData at 1. rewrite Hs.
    rewrite (IH {| socket := Some {| lifecycle := lifecycle s;
                                     dataListeners := S (dataListeners s) |};
                   subscribers := subscribers st ++ [cb] |}
                {| lifecycle := lifecycle s; dataListeners := S (dataListeners s) |}
                eq_refl).
    simpl. rewrite <- app_assoc. simpl. repeat f_equal. lia.
Qed.

Lemma calls_app (id : nat) (a b : list Event) :
  calls id (a ++ b) = calls id a + calls id b.
Proof.
  induction a as [|e a IH]; [reflexivity|].
  destruct e; simpl; rewrite IH; lia.
Qed.

Lemma calls_repeat (id : nat) (tr : list Event) (n : nat) :
  calls id (concat (repeat tr n)) = n * calls id tr.
Proof.
  induction n as [|n IH]; [reflexivity|].
  simpl. rewrite calls_app, IH. reflexivity.
Qed.

Lemma calls_absent (id : nat) (p : Payload) (cbs : list Callback) :
  ~ In id (map cb_id cbs) -> calls id (map (called p) cbs) = 0.
Proof.
  induction cbs as [|cb cbs IH]; intros H; [reflexivity|].
  simpl. destruct (Nat.eqb_spec (cb_id cb) id) as [E|_].
  - exfalso. apply H. left. exact E.
  - apply IH. intros Hin. apply H. right. exact Hin.
Qed.

Lemma calls_once (p : Payload) (cbs : list Callback) (cb : Callback) :
  NoDup (map cb_id cbs) -> In cb cbs -> calls (cb_id cb) (map (called p) cbs) = 1.
Proof.
  induction cbs as [|c cbs IH]; intros Hnd Hin; [contradiction|].
  simpl in Hnd. inversion Hnd as [|? ? Hnotin Hnd']; subst.
  simpl. destruct Hin as [->|Hin].
  - rewrite Nat.eqb_refl, calls_absent by assumption. reflexivity.
  - destruct (Nat.eqb_spec (cb_id c) (cb_id cb)) as [E|_].
    + exfalso. apply Hnotin. rewrite E. apply in_map. exact Hin.
    + apply IH; assumption.
Qed.

(** C1, what fails: with two subscribers of which the first raises, the
    second is not called for the message. *)
Lemma raising_subscriber_blocks_next :
  let st := subscribeAll [raisingCallback 0; quietCallback 1]
              (connectSocket (listening (quietCallback 9)) initialService) in
  let data := JObj [(str "amplitude", JNum (Fin 1))] in
  map cb_id (subscribers st) = [0; 1] /\
  calls 1 (fst (receive st data)) = 0 /\
  snd (receive st data) = Raised.
Proof. vm_compute. repeat split; reflexivity. Qed.

(** C1, as the listener has it: for a message whose data is neither [null]
    nor [undefined], if none of the registered callbacks raises, every
    listener calls all of them, in the order of registration; if some
    callback raises, the callbacks before the first that does and that one
    are called once, the exception leaves [forEach] and the emitter, and the
    callbacks after it are not called. *)
Theorem fanout_stops_at_first_raise (st : Service) (s : Socket) (data amp : JSValue)
    (pre post : list Callback) :
  socket st = Some s ->
  1 <= dataListeners s ->
  getProp data (str "amplitude") = Ok amp ->
  subscribers st = pre ++ post ->
  Forall (fun cb => cb_raises cb (processed data amp) = false) pre ->
  match post with
  | [] => True
  | c :: _ => cb_raises c (processed data amp) = true
  end ->
  receive st data =
  match post with
  | [] => (concat (repeat (map (called (processed data amp)) pre) (dataListeners s)),
           Returned)
  | c :: _ => (map (called (processed data amp)) (pre ++ [c]), Raised)
  end.
Proof.
  intros Hs Hn Hamp Hsubs Hpre Hpost. unfold receive. rewrite Hs, Hsubs.
  destruct post as [|c post].
  - rewrite app_nil_r. apply emitTo_returned.
    unfold dataListener. rewrite Hamp. apply forEach_quiet. exact Hpre.
  - destruct (dataListeners s) as [|n]; [lia|].
    apply emitTo_raised. unfold dataListener. rewrite Hamp.
    apply forEach_raise; assumption.
Qed.

Lemma fanout_stops_at_first_raise_witness :
  receive (subscribeAll [quietCallback 0; raisingCallback 1; quietCallback 2]
             (connectSocket (listening (quietCallback 9)) initialService))
          (JObj [(str "amplitude", JStr (str "3.5"))])
  = ([EvData 0 (PObject [(str "amplitude", JNum (Fin (7 # 2)))]);
      EvData 1 (PObject [(str "amplitude", JNum (Fin (7 # 2)))])], Raised).
Proof.
  apply (fanout_stops_at_first_raise
           (subscribeAll [quietCallback 0; raisingCallback 1; quietCallback 2]
              (connectSocket (listening (quietCallback 9)) initialService))
           {| lifecycle := listening (quietCallback 9); dataListeners := 3 |}
           (JObj [(str "amplitude", JStr (str "3.5"))]) (JStr (str "3.5"))
           [quietCallback 0] [raisingCallback 1; quietCallback 2]).
  - reflexivity.
  - simpl. lia.
  - reflexivity.
  - reflexivity.
  - repeat constructor.
  - reflexivity.
Defined.

(** C9, what fails: after two subscriptions, of which the first callback
    raises, one message calls the first callback once and the second not at
    all, not twice each. *)
Lemma two_subscriptions_one_call :
  let st := subscribeAll [raisingCallback 0; quietCallback 1]
              (connectSocket (listening (quietCallback 9)) initialService) in
  let tr := fst (receive st (JObj [(str "amplitude", JNum (Fin 1))])) in
  length (subscribers st) = 2 /\ calls 0 tr = 1 /\ calls 1 tr = 0.
Proof. vm_compute. repeat split; reflexivity. Qed.

(** C9, as the registry has it: after [k] subscriptions on a freshly
    connected socket there are [k] listeners and [k] subscribers, and a
    message whose data is neither [null] nor [undefined], on which no
    callback raises, makes each of the [k] listeners call all [k] callbacks
    in order: every callback is called [k] times. *)
Theorem each_subscription_multiplies_delivery (h : Handlers) (cbs : list Callback)
    (data amp : JSValue) :
  let st := subscribeAll cbs (connectSocket h initialService) in
  getProp data (str "amplitude") = Ok amp ->
  Forall (fun cb => cb_raises cb (processed data amp) = false) cbs ->
  receive st data =
    (concat (repeat (map (called (processed data amp)) cbs) (length cbs)), Returned) /\
  (NoDup (map cb_id cbs) ->
   forall cb, In cb cbs -> calls (cb_id cb) (fst (receive st data)) = length cbs).
Proof.
  intros st Hamp Hq.
  assert (Est : st = {| socket := Some {| lifecycle := h; dataListeners := length cbs |};
                        subscribers := cbs |}).
  { unfold st.
    rewrite (subscribeAll_connected cbs (connectSocket h initialService)
               {| lifecycle := h; dataListeners := 0 |} eq_refl).
    reflexivity. }
  assert (E : receive st data =
              (concat (repeat (map (called (processed data amp)) cbs) (length cbs)),
               Returned)).
  { rewrite Est. unfold receive. cbn [socket subscribers dataListeners].
    apply emitTo_returned. unfold dataListener. rewrite Hamp.
    apply forEach_quiet. exact Hq. }
  split; [exact E|].
  intros Hnd cb Hin. rewrite E. cbn [fst].
  rewrite calls_repeat, (calls_once _ _ _ Hnd Hin). lia.
Qed.

Lemma each_subscription_multiplies_delivery_witness :
  let st := subscribeAll [quietCallback 0; quietCallback 1; quietCallback 2]
              (connectSocket (listening (quietCallback 9)) initialService) in
  let tr := fst (receive st (JObj [(str "amplitude", JNum (Fin 1))])) in
  calls 0 tr = 3 /\ calls 1 tr = 3 /\ calls 2 tr = 3.
Proof.
  intros st tr.
  destruct (each_subscription_multiplies_delivery (listening (quietCallback 9))
              [quietCallback 0; quietCallback 1; quietCallback 2]
              (JObj [(str "amplitude", JNum (Fin 1))]) (JNum (Fin 1))
              eq_refl ltac:(repeat constructor)) as [_ H].
  assert (Hnd : NoDup (map cb_id [quietCallback 0; quietCallback 1; quietCallback 2])).
  { simpl. repeat constructor; simpl; intuition discriminate. }
  repeat split; apply (H Hnd); simpl; auto.
Defined.

(** ** Structured envelopes *)

Lemma jstring_eqb_refl (s : jstring) : jstring_eqb s s = true.
Proof. unfold jstring_eqb. destruct (list_eq_dec N.eq_dec s s); congruence. Qed.

Lemma objGet_objSet (k : jstring) (v : JSValue) (o : JSObject) :
  objGet k (objSet k v o) = v.
Proof.
  induction o as [|[k' v'] o IH]; simpl.
  - rewrite jstring_eqb_refl. reflexivity.
  - destruct (jstring_eqb k' k) eqn:E; simpl; rewrite E; [reflexivity | exact IH].
Qed.

(** A string amplitude becomes a number exactly when [parseFloat] reads one
    from it; otherwise it stays the string it was. *)
Lemma normalized_amplitude (s : jstring) (o : JSObject) :
  objGet (str "amplitude") o = JStr s ->
  objGet (str "amplitude") (normalizeAmplitude (JStr s) o) =
  if isNaN (parseFloat s) then JStr s else JNum (parseFloat s).
Proof.
  intros Ho. unfold normalizeAmplitude.
  destruct (isNaN (parseFloat s)); simpl; [exact Ho | apply objGet_objSet].
Qed.

Lemma index_key_not_amplitude (n : N) :
  jstring_eqb (digitsOf n) (str "amplitude") = false.
Proof.
  unfold jstring_eqb. destruct (list_eq_dec N.eq_dec _ _) as [E|]; [|reflexivity].
  pose proof (digitsOf_digits n) as H. rewrite E in H.
  inversion H as [|? ? Hd _]. discriminate.
Qed.

Lemma indexed_no_amplitude {A : Type} (f : A -> JSValue) (l : list A) (i : nat) :
  objGet (str "amplitude")
         (map (fun p => (digitsOf (N.of_nat (fst p)), f (snd p))) (indexed_from i l))
  = JUndefined.
Proof.
  revert i. induction l as [|a l IH]; intros i; [reflexivity|].
  cbn [indexed_from map objGet fst]. rewrite index_key_not_amplitude. apply IH.
Qed.

Lemma getProp_spread (v : JSValue) (s : jstring) :
  objGet (str "amplitude") (spread v) = JStr s ->
  getProp v (str "amplitude") = Ok (JStr s).
Proof.
  destruct v; simpl; try discriminate.
  - rewrite (indexed_no_amplitude (fun c => JStr [c])). discriminate.
  - rewrite (indexed_no_amplitude (fun x => x)). discriminate.
  - intros ->. reflexivity.
Qed.

Lemma onmessage_envelope (JSON_parse : jstring -> option JSValue)
    (h : Handlers) (now : Z) (text : jstring) :
  (startsWith text (str "{") || startsWith text (str "[")) = true ->
  onmessage JSON_parse h now text = caught JsonParseFailed (onEnvelope JSON_parse h text).
Proof. intros H. unfold onmessage. rewrite H. reflexivity. Qed.

(** C2, what fails: the envelope whose payload amplitude is the string
    ["abc"] is handed to the data callback with that string as amplitude. *)
Lemma text_amplitude_stays_text :
  onmessage JSON_parse_text (listening (quietCallback 0)) 1000
            (jsonText "{'type':'earthquake-data','payload':{'amplitude':'abc'}}")
  = [EvData 0 (PObject [(str "amplitude", JStr (str "abc"))])].
Proof. vm_compute. reflexivity. Qed.

(** C2, as both transports have it: when the payload of an
    ['earthquake-data'] envelope has a string amplitude, the data callback is
    called once with the spread payload, whose amplitude is the number that
    [parseFloat] reads from the string when it reads one, and the string
    itself when it reads none; the Socket.IO listener treats the amplitude
    of its data in the same way before it calls the subscribers. *)
Theorem string_amplitude_normalized (JSON_parse : jstring -> option JSValue)
    (h : Handlers) (cb : Callback) (now : Z) (text : jstring)
    (data payload : JSValue) (s : jstring) :
  (startsWith text (str "{") || startsWith text (str "[")) = true ->
  JSON_parse text = Some data ->
  getProp data (str "type") = Ok (JStr (str "earthquake-data")) ->
  getProp data (str "payload") = Ok payload ->
  truthy payload = true ->
  objGet (str "amplitude") (spread payload) = JStr s ->
  onEarthquakeData h = Some cb ->
  let p := processed payload (JStr s) in
  onmessage JSON_parse h now text =
    EvData (cb_id cb) p :: (if cb_raises cb p then [EvError JsonParseFailed] else []) /\
  amplitudeOf p = (if isNaN (parseFloat s) then JStr s else JNum (parseFloat s)) /\
  (forall subs, dataListener subs payload = forEach subs p).
Proof.
  intros Hstart Hparse Hty Hpl Htr Hamp Hcb p. split; [|split].
  - rewrite onmessage_envelope by exact Hstart.
    unfold onEnvelope. rewrite Hparse, Hty, Hpl, jstring_eqb_refl, Htr. cbn [andb].
    rewrite Hamp. unfold callData. rewrite Hcb. unfold invoke, caught, p, processed.
    cbn [fst snd].
    destruct (cb_raises cb (PObject (normalizeAmplitude (JStr s) (spread payload))));
      reflexivity.
  - unfold p, processed, amplitudeOf. apply normalized_amplitude. exact Hamp.
  - intros subs. unfold dataListener.
    rewrite (getProp_spread _ _ Hamp). reflexivity.
Qed.

Lemma string_amplitude_normalized_witness :
  onmessage JSON_parse_text (listening (quietCallback 0)) 1000
            (jsonText "{'type':'earthquake-data','payload':{'amplitude':'3.5'}}")
  = [EvData 0 (PObject [(str "amplitude", JNum (Fin (7 # 2)))])].
Proof.
  exact (proj1 (string_amplitude_normalized JSON_parse_text (listening (quietCallback 0))
                  (quietCallback 0) 1000
                  (jsonText "{'type':'earthquake-data','payload':{'amplitude':'3.5'}}")
                  (JObj [(str "type", JStr (str "earthquake-data"));
                         (str "payload", JObj [(str "amplitude", JStr (str "3.5"))])])
                  (JObj [(str "amplitude", JStr (str "3.5"))]) (str "3.5")
                  eq_refl eq_refl eq_refl eq_refl eq_refl eq_refl eq_refl)).
Defined.

(** C3, what fails: on the text ["{"], which is not JSON, the handler
    leaves one [console.error] line and never calls [onError], although
    the caller gave one. *)
Lemma malformed_json_not_reported :
  let h := listening (quietCallback 0) in
  onError h = true /\
  JSON_parse_text (str "{") = None /\
  onmessage JSON_parse_text h 1000 (str "{") = [EvError JsonParseFailed] /\
  ~ In EvOnError (onmessage JSON_parse_text h 1000 (str "{")).
Proof.
  vm_compute. repeat split; try reflexivity. intros [H|[]]. discriminate.
Qed.

(** C3, as the handler has it: for a text that starts with [{] or [[] and
    that [JSON.parse] rejects, the handler writes one [console.error] line
    and does nothing else: it hands no sample to the data callback and
    does not call [onError].  The messages before and after it are handled
    as if the bad one had not come. *)
Theorem malformed_json_logged_only (JSON_parse : jstring -> option JSValue)
    (h : Handlers) (now : Z) (text : jstring) :
  (startsWith text (str "{") || startsWith text (str "[")) = true ->
  JSON_parse text = None ->
  onmessage JSON_parse h now text = [EvError JsonParseFailed] /\
  emittedSamples (onmessage JSON_parse h now text) = [] /\
  ~ In EvOnError (onmessage JSON_parse h now text) /\
  (forall before after,
      onmessages JSON_parse h (before ++ (now, text) :: after) =
      onmessages JSON_parse h before ++ EvError JsonParseFailed
        :: onmessages JSON_parse h after).
Proof.
  intros Hstart Hparse.
  assert (E : onmessage JSON_parse h now text = [EvError JsonParseFailed]).
  { rewrite onmessage_envelope by exact Hstart.
    unfold onEnvelope. rewrite Hparse. reflexivity. }
  split; [exact E|]. split; [rewrite E; reflexivity|].
  split; [rewrite E; intros [H|[]]; discriminate|].
  intros before after. unfold onmessages. rewrite flat_map_app.
  cbn [flat_map fst snd]. rewrite E. reflexivity.
Qed.

Lemma malformed_json_logged_only_witness :
  onmessage JSON_parse_text (listening (quietCallback 0)) 1000
            (jsonText "{'type':'earthquake-data','payload':")
  = [EvError JsonParseFailed].
Proof.
  exact (proj1 (malformed_json_logged_only JSON_parse_text (listening (quietCallback 0))
                  1000 (jsonText "{'type':'earthquake-data','payload':")
                  eq_refl eq_refl)).
Defined.

(** ** The text forwarded by the serial read loop *)

Lemma strippedControl_false (c : N) :
  Serial.strippedControl c = false ->
  Serial.isControl c = true -> (c = 9 \/ c = 10 \/ c = 13)%N.
Proof.
  unfold Serial.strippedControl, Serial.isControl.
  destruct (N.leb_spec c 8), (N.eqb_spec c 11), (N.eqb_spec c 12),
    (N.leb_spec 14 c), (N.leb_spec c 31), (N.eqb_spec c 127);
    simpl; intros Hs Hc; try discriminate; lia.
Qed.

Lemma chunkText_In (value : list N) (c : N) :
  In c (Serial.chunkText value) ->
  c <> Serial.replacement /\ Serial.strippedControl c = false.
Proof.
  unfold Serial.chunkText, Serial.stripControls, Serial.replaceReplacement.
  intros Hin. apply filter_In in Hin. destruct Hin as [Hin Hs].
  apply negb_true_iff in Hs. split; [|exact Hs].
  apply in_map_iff in Hin. destruct Hin as (x & Ex & _).
  destruct (N.eqb_spec x Serial.replacement) as [_|Hx]; subst c; [discriminate | exact Hx].
Qed.

Lemma chunkText_plain (value : list N) :
  forallb plainByte value = true -> Serial.chunkText value = value.
Proof.
  unfold Serial.chunkText, Serial.decode.
  induction value as [|b value IH]; intros H; [reflexivity|].
  simpl in H. apply andb_true_iff in H. destruct H as [Hb Hv].
  assert (Hr : (b = 9 \/ b = 10 \/ b = 13 \/ 32 <= b <= 126)%N).
  { unfold plainByte in Hb.
    repeat match goal with
           | H : (_ || _) = true |- _ => apply orb_true_iff in H; destruct H
           | H : (_ && _) = true |- _ => apply andb_true_iff in H; destruct H
           | H : (_ <=? _)%N = true |- _ => apply N.leb_le in H
           | H : (_ =? _)%N = true |- _ => apply N.eqb_eq in H
           end; lia. }
  cbn [Serial.utf8Decode]. unfold Serial.leadByte.
  destruct (N.leb_spec b 127) as [_|]; [|lia].
  cbn [app flat_map]. unfold Serial.codeUnits at 1.
  destruct (N.ltb_spec b 65536) as [_|]; [|lia].
  cbn [app Serial.replaceReplacement map Serial.stripControls filter].
  destruct (N.eqb_spec b Serial.replacement) as [E|_];
    [unfold Serial.replacement in E; lia|].
  assert (Serial.strippedControl b = false) as ->.
  { unfold Serial.strippedControl.
    repeat match goal with
           | |- (_ || _) = false => apply orb_false_iff; split
           | |- (_ && _) = false => apply andb_false_iff
           end;
    try (apply N.leb_gt; lia); try (apply N.eqb_neq; lia).
    destruct (N.leb_spec 14 b); [right; apply N.leb_gt; lia | left; reflexivity]. }
  cbn [negb]. f_equal. apply IH. exact Hv.
Qed.

Lemma chunkText_invalid (b : N) :
  invalidLead b = true -> Serial.chunkText [b] = [ch "?"].
Proof.
  unfold invalidLead. intros H.
  assert (Hr : (128 <= b <= 193 \/ 245 <= b)%N).
  { repeat match goal with
           | H : (_ || _) = true |- _ => apply orb_true_iff in H; destruct H
           | H : (_ && _) = true |- _ => apply andb_true_iff in H; destruct H
           | H : (_ <=? _)%N = true |- _ => apply N.leb_le in H
           end; lia. }
  unfold Serial.chunkText, Serial.decode. cbn [Serial.utf8Decode].
  unfold Serial.leadByte.
  destruct (N.leb_spec b 127); [lia|].
  destruct (N.leb_spec 194 b), (N.leb_spec b 223); cbn [andb]; try lia;
  destruct (N.leb_spec 224 b), (N.leb_spec b 239); cbn [andb]; try lia;
  destruct (N.leb_spec 240 b), (N.leb_spec b 244); cbn [andb]; try lia;
  reflexivity.
Qed.

(** C7, what fails: a chunk that holds a tab is forwarded with the tab, a
    control character that is neither newline nor carriage return. *)
Lemma tab_is_forwarded :
  Serial.chunkText [9%N] = [9%N] /\ Serial.isControl 9 = true /\
  9%N <> 10%N /\ 9%N <> 13%N.
Proof. repeat split; discriminate. Qed.

(** ** Closing the port and releasing the read handle *)





(** The invariant of the read handles, operation by operation. *)

















(** With a reader that has released its lock, [reader.cancel()] is
    rejected: a [closePort] that follows the end of the stream returns a
    failure and leaves the port set, and the reader stays released once. *)
Remark closePort_after_end_of_stream :
  let st := Serial.run [Serial.OpOpen true; Serial.OpStart None None;
                        Serial.OpRead Serial.Done] Serial.initialService in
  Serial.releases (Serial.platform st) = [0] /\
  match Serial.closePort None st with
  | Some (st', res, _) =>
      res = Serial.failed Serial.TypeError /\ Serial.port st' = true /\
      Serial.releases (Serial.platform st') = [0]
  | None => False
  end.
Proof. vm_compute. repeat split; reflexivity. Qed.

(** * More properties of the services *)

(** ** The registry across connections *)

Lemma calls_count (id : nat) (p : Payload) (cbs : list Callback) :
  calls id (map (called p) cbs) = count_occ Nat.eq_dec (map cb_id cbs) id.
Proof.
  induction cbs as [|cb cbs IH]; [reflexivity|].
  simpl. destruct (Nat.eq_dec (cb_id cb) id) as [E|E].
  - rewrite E, Nat.eqb_refl, IH. reflexivity.
  - destruct (Nat.eqb_spec (cb_id cb) id); [contradiction|]. rewrite IH. reflexivity.
Qed.

Lemma receive_quiet (st : Service) (s : Socket) (data amp : JSValue) :
  socket st = Some s ->
  getProp data (str "amplitude") = Ok amp ->
  Forall (fun cb => cb_raises cb (processed data amp) = false) (subscribers st) ->
  receive st data =
  (concat (repeat (map (called (processed data amp)) (subscribers st)) (dataListeners s)),
   Returned).
Proof.
  intros Hs Hamp Hq. unfold receive. rewrite Hs.
  apply emitTo_returned. unfold dataListener. rewrite Hamp.
  apply forEach_quiet. exact Hq.
Qed.

(** X1: callbacks registered before a disconnect stay in the registry.
    After [disconnectSocket] and a new [connectSocket] a message calls
    nobody, since the new socket has no listener; the first subscription on
    the new socket then makes each message call all the earlier callbacks
    and the new one, once each, in the order of registration. *)
Theorem subscribers_survive_reconnect (st : Service) (h : Handlers) (cb : Callback)
    (data amp : JSValue) :
  getProp data (str "amplitude") = Ok amp ->
  Forall (fun c => cb_raises c (processed data amp) = false) (subscribers st ++ [cb]) ->
  receive (connectSocket h (disconnectSocket st)) data = ([], Returned) /\
  receive (subscribeToEarthquakeData cb (connectSocket h (disconnectSocket st))) data =
  (map (called (processed data amp)) (subscribers st ++ [cb]), Returned).
Proof.
  intros Hamp Hq. split; [reflexivity|].
  rewrite (receive_quiet
             (subscribeToEarthquakeData cb (connectSocket h (disconnectSocket st)))
             {| lifecycle := h; dataListeners := 1 |} data amp eq_refl Hamp Hq).
  cbn [subscribers subscribeToEarthquakeData connectSocket disconnectSocket socket
       dataListeners repeat concat].
  apply f_equal2; [apply app_nil_r | reflexivity].
Qed.

Lemma subscribers_survive_reconnect_witness :
  receive (subscribeToEarthquakeData (quietCallback 2)
             (connectSocket (listening (quietCallback 9))
                (disconnectSocket
                   (subscribeAll [quietCallback 0; quietCallback 1]
                      (connectSocket (listening (quietCallback 9)) initialService)))))
          (JObj [(str "amplitude", JNum (Fin 1))])
  = (map (called (PObject [(str "amplitude", JNum (Fin 1))]))
         [quietCallback 0; quietCallback 1; quietCallback 2], Returned).
Proof.
  exact (proj2 (subscribers_survive_reconnect
                  (subscribeAll [quietCallback 0; quietCallback 1]
                     (connectSocket (listening (quietCallback 9)) initialService))
                  (listening (quietCallback 9)) (quietCallback 2)
                  (JObj [(str "amplitude", JNum (Fin 1))]) (JNum (Fin 1))
                  eq_refl ltac:(repeat constructor))).
Defined.

(** X2: [unsubscribeFromEarthquakeData] empties the registry and detaches
    every listener: after it no message calls any callback, whatever its
    data, and a callback subscribed next is called exactly once for each
    message, alone. *)
Theorem unsubscribe_resets_delivery (st : Service) (s : Socket) (cb : Callback)
    (data amp : JSValue) :
  socket st = Some s ->
  getProp data (str "amplitude") = Ok amp ->
  (forall d, receive (unsubscribeFromEarthquakeData st) d = ([], Returned)) /\
  receive (subscribeToEarthquakeData cb (unsubscribeFromEarthquakeData st)) data =
  ([called (processed data amp) cb],
   if cb_raises cb (processed data amp) then Raised else Returned).
Proof.
  intros Hs Hamp. split.
  - intros d. unfold receive, unsubscribeFromEarthquakeData. rewrite Hs. reflexivity.
  - unfold receive, subscribeToEarthquakeData, unsubscribeFromEarthquakeData.
    rewrite Hs. cbn [socket subscribers dataListeners app emitTo].
    unfold dataListener. rewrite Hamp. cbn [forEach invoke]. unfold processed.
    destruct (cb_raises cb (PObject (normalizeAmplitude amp (spread data))));
      reflexivity.
Qed.

Lemma unsubscribe_resets_delivery_witness :
  receive (subscribeToEarthquakeData (quietCallback 5)
             (unsubscribeFromEarthquakeData
                (subscribeAll [quietCallback 0; quietCallback 1]
                   (connectSocket (listening (quietCallback 9)) initialService))))
          (JObj [(str "amplitude", JNum (Fin 1))])
  = ([EvData 5 (PObject [(str "amplitude", JNum (Fin 1))])], Returned).
Proof.
  exact (proj2 (unsubscribe_resets_delivery
                  (subscribeAll [quietCallback 0; quietCallback 1]
                     (connectSocket (listening (quietCallback 9)) initialService))
                  {| lifecycle := listening (quietCallback 9); dataListeners := 2 |}
                  (quietCallback 5)
                  (JObj [(str "amplitude", JNum (Fin 1))]) (JNum (Fin 1))
                  eq_refl eq_refl)).
Defined.

(** X3: a message whose data is [null] or [undefined] reaches no
    subscriber: reading [data.amplitude] raises in the first listener,
    before [forEach], and the exception leaves the emitter. *)
Theorem null_data_reaches_nobody (st : Service) (s : Socket) (data : JSValue) :
  socket st = Some s ->
  1 <= dataListeners s ->
  data = JNull \/ data = JUndefined ->
  receive st data = ([], Raised).
Proof.
  intros Hs Hn Hd. unfold receive. rewrite Hs.
  destruct (dataListeners s) as [|n]; [lia|].
  apply emitTo_raised. destruct Hd as [-> | ->]; reflexivity.
Qed.

Lemma null_data_reaches_nobody_witness :
  receive (subscribeAll [quietCallback 0; quietCallback 1]
             (connectSocket (listening (quietCallback 9)) initialService)) JNull
  = ([], Raised).
Proof.
  apply (null_data_reaches_nobody _
           {| lifecycle := listening (quietCallback 9); dataListeners := 2 |} JNull).
  - reflexivity.
  - simpl. lia.
  - left. reflexivity.
Defined.

(** X4: in any state of the registry, when no callback raises, a message
    calls the callback with a given identity as many times as there are
    listeners attached times the number of times it is registered; a
    callback subscribed twice on a fresh socket is thus called four times
    for each message. *)
Theorem calls_are_listeners_times_registrations (st : Service) (s : Socket)
    (data amp : JSValue) (id : nat) :
  socket st = Some s ->
  getProp data (str "amplitude") = Ok amp ->
  Forall (fun cb => cb_raises cb (processed data amp) = false) (subscribers st) ->
  calls id (fst (receive st data)) =
  dataListeners s * count_occ Nat.eq_dec (map cb_id (subscribers st)) id.
Proof.
  intros Hs Hamp Hq. rewrite (receive_quiet st s data amp Hs Hamp Hq). cbn [fst].
  rewrite calls_repeat, calls_count. reflexivity.
Qed.

Lemma calls_are_listeners_times_registrations_witness :
  calls 0 (fst (receive (subscribeAll [quietCallback 0; quietCallback 0]
                           (connectSocket (listening (quietCallback 9)) initialService))
                        (JObj [(str "amplitude", JNum (Fin 1))]))) = 4.
Proof.
  exact (calls_are_listeners_times_registrations
           (subscribeAll [quietCallback 0; quietCallback 0]
              (connectSocket (listening (quietCallback 9)) initialService))
           {| lifecycle := listening (quietCallback 9); dataListeners := 2 |}
           (JObj [(str "amplitude", JNum (Fin 1))]) (JNum (Fin 1)) 0
           eq_refl eq_refl ltac:(repeat constructor)).
Defined.

(** ** What the handler of one message does, whatever the message *)

Lemma warnings_isWarn (w : option Channel) (pts : list jstring) :
  forallb isWarn (pointWarnings w pts) = true.
Proof.
  unfold pointWarnings. induction (filter _ pts) as [|p l IH]; [reflexivity | exact IH].
Qed.

Lemma optionalWarnings_isWarn (c : Channel) (w : option (list jstring)) :
  forallb isWarn (optionalWarnings c w) = true.
Proof. destruct w; [apply warnings_isWarn | reflexivity]. Qed.

Lemma caught_callData (h : Handlers) (site : LogSite) (cond : bool) (p : Payload)
    (ws : list Event) :
  (cond = true -> properPayload p) ->
  Ending h (caught site (fst (callData h cond p), snd (callData h cond p))) /\
  caught site (ws ++ fst (callData h cond p), snd (callData h cond p)) =
  ws ++ caught site (fst (callData h cond p), snd (callData h cond p)).
Proof.
  intros Hp. unfold callData.
  destruct (onEarthquakeData h) as [cb|] eqn:Hcb.
  - destruct cond.
    + unfold invoke, caught. cbn [fst snd].
      destruct (cb_raises cb p) eqn:Hr; split.
      * econstructor; eauto.
      * rewrite <- app_assoc. reflexivity.
      * econstructor; eauto.
      * reflexivity.
    + unfold caught. cbn [fst snd]. rewrite app_nil_r. split; [constructor | reflexivity].
  - unfold caught. cbn [fst snd]. rewrite app_nil_r. split; [constructor | reflexivity].
Qed.

Lemma batch_proper (l : list Sample) : (0 <? length l) = true -> properPayload (PBatch l).
Proof. destruct l; [discriminate | intros _; exact I]. Qed.

Section Shape.

Variable JSON_parse : jstring -> option JSValue.

Lemma envelope_shape (h : Handlers) (text : jstring) :
  Ending h (caught JsonParseFailed (onEnvelope JSON_parse h text)).
Proof.
  unfold onEnvelope.
  destruct (JSON_parse text) as [v|]; [|apply EndFailed].
  destruct (getProp v (str "type")) as [ty|]; [|apply EndFailed].
  destruct (getProp v (str "payload")) as [pl|]; [|apply EndFailed].
  destruct ty; try apply EndNothing.
  destruct (jstring_eqb s (str "earthquake-data") && truthy pl); [|apply EndNothing].
  match goal with
  | |- Ending h (caught ?site (callData h true ?p)) =>
      rewrite (surjective_pairing (callData h true p));
      apply (caught_callData h site true p []); intros _; exact I
  end.
Qed.

(** Every trace of the handler is a run of [console.warn] lines followed by
    one of the four endings. *)
Lemma onmessage_shape (h : Handlers) (now : Z) (data : jstring) :
  exists ws tail,
    onmessage JSON_parse h now data = ws ++ tail /\
    forallb isWarn ws = true /\ Ending h tail.
Proof.
  unfold onmessage.
  destruct (startsWith data (str "{") || startsWith data (str "[")).
  - exists [], (caught JsonParseFailed (onEnvelope JSON_parse h data)).
    split; [reflexivity|]. split; [reflexivity | apply envelope_shape].
  - destruct (includes data (str ",")).
    + unfold onCommaSeparated. destruct (readMetaPrefix data) as [meta0 pm].
      destruct (startsWith pm (str "X")).
      * destruct (splitWaveforms meta0 pm) as [[[[meta x] y] z]|].
        -- cbv zeta.
           match goal with
           | |- context [callData h ?c ?p] =>
               destruct (caught_callData h MessageHandlingFailed c p
                           (pointWarnings (Some ChX) x ++ optionalWarnings ChY y
                            ++ optionalWarnings ChZ z) (batch_proper _)) as [He Hc]
           end.
           eexists _, _. split; [exact Hc|]. split; [|exact He].
           rewrite !forallb_app, warnings_isWarn, !optionalWarnings_isWarn. reflexivity.
        -- exists [], [EvError MessageHandlingFailed].
           split; [reflexivity|]. split; [reflexivity | apply EndFailed].
      * cbv zeta.
        match goal with
        | |- context [callData h ?c ?p] =>
            destruct (caught_callData h MessageHandlingFailed c p
                        (pointWarnings None (points pm)) (batch_proper _)) as [He Hc]
        end.
        eexists _, _. split; [exact Hc|]. split; [apply warnings_isWarn | exact He].
    + unfold onSingleValue. destruct (isNaN (parseFloat data)); cbn [negb].
      * exists [EvWarn (UnparsableMessage data)], [].
        split; [reflexivity|]. split; [reflexivity | constructor].
      * match goal with
        | |- context [callData h true ?p] =>
            destruct (caught_callData h MessageHandlingFailed true p [] (fun _ => I))
              as [He _];
            exists [], (caught MessageHandlingFailed
                          (fst (callData h true p), snd (callData h true p)))
        end.
        split; [|split; [reflexivity | exact He]].
        cbn [app]. rewrite <- surjective_pairing. reflexivity.
Qed.

End Shape.

Lemma dataCalls_warnings (ws tail : list Event) :
  forallb isWarn ws = true -> dataCalls (ws ++ tail) = dataCalls tail.
Proof.
  induction ws as [|e ws IH]; intros H; [reflexivity|].
  simpl in H. apply andb_true_iff in H. destruct H as [He Hws].
  destruct e; try discriminate. simpl. apply IH. exact Hws.
Qed.

Lemma warnings_only (ws : list Event) (e : Event) :
  forallb isWarn ws = true -> In e ws -> isWarn e = true.
Proof. intros H Hin. rewrite forallb_forall in H. apply H. exact Hin. Qed.

(** X5: for every text message the handler calls the data callback at most
    once, and only the callback given as [onEarthquakeData]; it never hands
    it an empty batch; and it never calls [onError], [onConnect] or
    [onDisconnect]. *)
Theorem onmessage_calls_at_most_once (JSON_parse : jstring -> option JSValue)
    (h : Handlers) (now : Z) (data : jstring) :
  let tr := onmessage JSON_parse h now data in
  length (dataCalls tr) <= 1 /\
  (forall id p, In (id, p) (dataCalls tr) ->
     exists cb, onEarthquakeData h = Some cb /\ id = cb_id cb /\ properPayload p) /\
  ~ In EvOnError tr /\ ~ In EvOnConnect tr /\ ~ In EvOnDisconnect tr.
Proof.
  intros tr. destruct (onmessage_shape JSON_parse h now data) as (ws & tail & E & Hw & He).
  fold tr in E. rewrite E, (dataCalls_warnings ws tail Hw).
  assert (Hno : forall e, isWarn e = false ->
                 (forall id p, e <> EvData id p) -> (forall s, e <> EvError s) ->
                 ~ In e (ws ++ tail)).
  { intros e He1 He2 He3 Hin. apply in_app_or in Hin. destruct Hin as [Hin|Hin].
    - apply (warnings_only ws e Hw) in Hin. congruence.
    - destruct He as [|site|cb p Hcb Hp Hr|cb p site Hcb Hp Hr]; simpl in Hin;
        repeat (destruct Hin as [Hin|Hin]; [subst e|]); try contradiction;
        first [exact (He2 _ _ eq_refl) | exact (He3 _ eq_refl)]. }
  split; [|split; [|split; [|split]]].
  - destruct He; simpl; lia.
  - intros id p Hin.
    destruct He as [|site|cb q Hcb Hp Hr|cb q site Hcb Hp Hr]; simpl in Hin;
      try contradiction; destruct Hin as [[= <- <-]|[]]; exists cb; auto.
  - apply Hno; [reflexivity | discriminate | discriminate].
  - apply Hno; [reflexivity | discriminate | discriminate].
  - apply Hno; [reflexivity | discriminate | discriminate].
Qed.

(** X6: the native handler keeps a raising data callback to itself: the
    call of the callback is the last thing the handler does, but for one
    [console.error] line, written exactly when the callback raised. *)
Theorem raising_data_callback_is_contained (JSON_parse : jstring -> option JSValue)
    (h : Handlers) (now : Z) (data : jstring) (id : nat) (p : Payload) :
  In (id, p) (dataCalls (onmessage JSON_parse h now data)) ->
  exists ws cb,
    forallb isWarn ws = true /\ onEarthquakeData h = Some cb /\ id = cb_id cb /\
    ((cb_raises cb p = false /\
      onmessage JSON_parse h now data = ws ++ [EvData id p]) \/
     (cb_raises cb p = true /\
      exists site, onmessage JSON_parse h now data = ws ++ [EvData id p; EvError site])).
Proof.
  destruct (onmessage_shape JSON_parse h now data) as (ws & tail & E & Hw & He).
  rewrite E, (dataCalls_warnings ws tail Hw). intros Hin.
  destruct He as [|site|cb q Hcb Hp Hr|cb q site Hcb Hp Hr]; simpl in Hin;
    try contradiction; destruct Hin as [[= <- <-]|[]]; exists ws, cb;
    repeat split; auto.
  right. split; [exact Hr|]. exists site. reflexivity.
Qed.

Lemma raising_data_callback_is_contained_witness :
  onmessage JSON_parse_text (listening (raisingCallback 3)) 1000 (str "abc,1.5")
  = [EvWarn (UnparsablePoint None (str "abc"));
     EvData 3 (PBatch (dataPoints 1000 None emptyMeta [str "abc"; str "1.5"]));
     EvError MessageHandlingFailed].
Proof.
  destruct (raising_data_callback_is_contained JSON_parse_text
              (listening (raisingCallback 3)) 1000 (str "abc,1.5") 3
              (PBatch (dataPoints 1000 None emptyMeta [str "abc"; str "1.5"]))
              (or_introl eq_refl)) as (ws & cb & _ & _ & _ & _).
  reflexivity.
Defined.

(** ** What the samples of one message share *)

Lemma pointsFrom_fixed now w m n k l :
  Forall (fun s => source (metadata s) = str "external" /\ raw (metadata s) = true /\
                   frameMeta (metadata s) = m /\ batchSize (metadata s) = Some n /\
                   waveformType (metadata s) = w)
         (pointsFrom now w m n k l).
Proof.
  revert k. induction l as [|p l IH]; intros k; [constructor|].
  rewrite pointsFrom_cons. unfold mapPoint. cbn [fst snd].
  destruct (isNaN (parseFloat p)); [apply IH|].
  constructor; [cbn; auto | apply IH].
Qed.

Lemma optionalWave_fixed now c m y :
  Forall (fun s => source (metadata s) = str "external" /\ raw (metadata s) = true /\
                   frameMeta (metadata s) = m /\
                   batchSize (metadata s) = option_map (@length jstring) y /\
                   waveformType (metadata s) = Some c)
         (optionalWave now c m y).
Proof.
  destruct y as [pts|]; [|constructor]. unfold optionalWave.
  rewrite dataPoints_from. apply pointsFrom_fixed.
Qed.

Lemma delivered_uniform now ss :
  Delivered now ss ->
  exists meta (size : option Channel -> option nat),
    Forall (fun s => source (metadata s) = str "external" /\ raw (metadata s) = true /\
                     frameMeta (metadata s) = meta /\
                     batchSize (metadata s) = size (waveformType (metadata s))) ss.
Proof.
  intros [|amp Ha|meta pts|meta x y z].
  - exists emptyMeta, (fun _ => None). constructor.
  - exists emptyMeta, (fun _ => None). repeat constructor.
  - exists meta, (fun _ => Some (length pts)).
    rewrite dataPoints_from. eapply Forall_impl; [|apply pointsFrom_fixed].
    intros s (H1 & H2 & H3 & H4 & H5). auto.
  - exists meta, (fun c => match c with
                           | Some ChX => Some (length x)
                           | Some ChY => option_map (@length jstring) y
                           | Some ChZ => option_map (@length jstring) z
                           | None => None
                           end).
    repeat (apply Forall_app; split).
    + rewrite dataPoints_from. eapply Forall_impl; [|apply pointsFrom_fixed].
      intros s (H1 & H2 & H3 & H4 & H5). rewrite H5. auto.
    + eapply Forall_impl; [|apply optionalWave_fixed].
      intros s (H1 & H2 & H3 & H4 & H5). rewrite H5. auto.
    + eapply Forall_impl; [|apply optionalWave_fixed].
      intros s (H1 & H2 & H3 & H4 & H5). rewrite H5. auto.
Qed.

(** X7: every sample that the handler delivers has [source] ['external']
    and [raw] [true]; the samples delivered for one message all carry the
    same frame metadata, and those of the same waveform the same
    [batchSize]. *)
Theorem samples_of_one_message_agree (JSON_parse : jstring -> option JSValue)
    (h : Handlers) (now : Z) (data : jstring) :
  let ss := emittedSamples (onmessage JSON_parse h now data) in
  Forall (fun s => source (metadata s) = str "external" /\ raw (metadata s) = true) ss /\
  (forall s1 s2, In s1 ss -> In s2 ss ->
     frameMeta (metadata s1) = frameMeta (metadata s2) /\
     (waveformType (metadata s1) = waveformType (metadata s2) ->
      batchSize (metadata s1) = batchSize (metadata s2))).
Proof.
  intros ss.
  destruct (delivered_uniform now ss (onmessage_delivered JSON_parse h now data))
    as (meta & size & H).
  split.
  - eapply Forall_impl; [|exact H]. intros s (H1 & H2 & _). auto.
  - rewrite Forall_forall in H. intros s1 s2 H1 H2.
    destruct (H s1 H1) as (_ & _ & M1 & B1). destruct (H s2 H2) as (_ & _ & M2 & B2).
    split; [congruence|]. intros E. rewrite B1, B2, E. reflexivity.
Qed.

(** ** Frames that the handler drops *)

Lemma onmessage_X_prefixed (JSON_parse : jstring -> option JSValue)
    (h : Handlers) (now : Z) (t hu v m : jstring) :
  digitRun t -> digitRun hu -> digitRun v ->
  onmessage JSON_parse h now
    (ch "T" :: t ++ ch "H" :: hu ++ ch "V" :: v ++ comma :: ch "X" :: m) =
  caught MessageHandlingFailed
    (match splitWaveforms (prefixMeta t hu v) (ch "X" :: m) with
     | Throw => ([], Raised)
     | Ok (meta, x, y, z) =>
         let all := dataPoints now (Some ChX) meta x ++ optionalWave now ChY meta y
                    ++ optionalWave now ChZ meta z in
         let r := callData h (0 <? length all) (PBatch all) in
         ((pointWarnings (Some ChX) x ++ optionalWarnings ChY y
           ++ optionalWarnings ChZ z) ++ fst r, snd r)
     end).
Proof.
  intros Ht Hh Hv. unfold onmessage.
  change (startsWith (ch "T" :: t ++ ch "H" :: hu ++ ch "V" :: v ++ comma :: ch "X" :: m)
            (str "{")
          || startsWith (ch "T" :: t ++ ch "H" :: hu ++ ch "V" :: v ++ comma :: ch "X" :: m)
               (str "[")) with false.
  cbv iota.
  assert (includes (ch "T" :: t ++ ch "H" :: hu ++ ch "V" :: v ++ comma :: ch "X" :: m)
                   (str ",") = true) as ->.
  { apply (includes_In comma). right.
    apply in_or_app; right; right. apply in_or_app; right; right.
    apply in_or_app; right; left; reflexivity. }
  unfold onCommaSeparated. rewrite (readMetaPrefix_frame t hu v _ Ht Hh Hv).
  change (startsWith (ch "X" :: m) (str "X")) with true. cbv iota.
  fold (prefixMeta t hu v).
  destruct (splitWaveforms (prefixMeta t hu v) (ch "X" :: m)) as [[[[meta x] y] z]|];
    reflexivity.
Qed.

Lemma splitWaveforms_X_alone (meta0 : FrameMeta) (m : jstring) :
  includes (ch "X" :: m) markerZ = false ->
  includes (ch "X" :: m) markerY = false ->
  splitWaveforms meta0 (ch "X" :: m) =
  Ok (withDataType meta0 "waveform" None None, [], None, None).
Proof.
  intros Hz Hy. unfold splitWaveforms.
  change (str ",Z") with markerZ. change (str ",Y") with markerY.
  rewrite Hz, Hy. reflexivity.
Qed.

(** X8: a frame with the X marker and neither a Y nor a Z marker is
    dropped without a trace, with or without a metadata prefix: its points
    are stored in [dataPoints], which is not read again, so that no sample
    is built, no warning written and the data callback not called. *)
Theorem X_alone_is_dropped (JSON_parse : jstring -> option JSValue)
    (h : Handlers) (now : Z) (m : jstring) :
  includes (ch "X" :: m) (str ",") = true ->
  includes (ch "X" :: m) markerZ = false ->
  includes (ch "X" :: m) markerY = false ->
  onmessage JSON_parse h now (ch "X" :: m) = [] /\
  (forall t hu v, digitRun t -> digitRun hu -> digitRun v ->
     onmessage JSON_parse h now
       (ch "T" :: t ++ ch "H" :: hu ++ ch "V" :: v ++ comma :: ch "X" :: m) = []).
Proof.
  intros Hc Hz Hy.
  assert (Hcall : forall p, caught MessageHandlingFailed
                              (([] ++ [] ++ []) ++ fst (callData h false p),
                               snd (callData h false p)) = []).
  { intros p. unfold callData. destruct (onEarthquakeData h); reflexivity. }
  split.
  - rewrite (onmessage_X JSON_parse h now m Hc), (splitWaveforms_X_alone _ m Hz Hy).
    apply Hcall.
  - intros t hu v Ht Hh Hv.
    rewrite (onmessage_X_prefixed JSON_parse h now t hu v m Ht Hh Hv),
      (splitWaveforms_X_alone _ m Hz Hy). apply Hcall.
Qed.

Lemma X_alone_is_dropped_witness :
  onmessage JSON_parse_text (listening (quietCallback 0)) 1000 (str "X1.0,abc,3.0") = [] /\
  onmessage JSON_parse_text (listening (quietCallback 0)) 1000
            (str "T25H60V90,X1.0,abc,3.0") = [].
Proof.
  destruct (X_alone_is_dropped JSON_parse_text (listening (quietCallback 0)) 1000
              (str "1.0,abc,3.0") eq_refl eq_refl eq_refl) as [H1 H2].
  split; [exact H1|].
  apply (H2 (str "25") (str "60") (str "90"));
    (split; [discriminate | repeat constructor]).
Defined.

(** X9: a frame with the X marker whose text before the first Z marker
    has no Y marker makes the handler fail on [xyParts[1]]: it writes one
    [console.error] line and delivers nothing, although the frame has X
    and Z points. *)
Theorem Z_without_Y_fails (JSON_parse : jstring -> option JSValue)
    (h : Handlers) (now : Z) (a d : jstring) :
  includes (ch "X" :: a) markerZ = false ->
  includes (ch "X" :: a) markerY = false ->
  onmessage JSON_parse h now (ch "X" :: a ++ comma :: ch "Z" :: d) =
  [EvError MessageHandlingFailed].
Proof.
  intros Hz Hy.
  assert (Hc : includes (ch "X" :: a ++ comma :: ch "Z" :: d) (str ",") = true).
  { apply (includes_In comma). right. apply in_or_app. right. left. reflexivity. }
  rewrite (onmessage_X JSON_parse h now _ Hc).
  assert (splitWaveforms emptyMeta (ch "X" :: a ++ comma :: ch "Z" :: d) = Throw) as ->;
    [|reflexivity].
  change (ch "X" :: a ++ comma :: ch "Z" :: d) with ((ch "X" :: a) ++ comma :: ch "Z" :: d).
  unfold splitWaveforms. change (str ",Z") with markerZ. change (str ",Y") with markerY.
  assert (includes ((ch "X" :: a) ++ comma :: ch "Z" :: d) markerZ = true) as ->.
  { apply (includes_here (ch "X" :: a) markerZ d). }
  assert (Ep : split markerZ ((ch "X" :: a) ++ comma :: ch "Z" :: d)
               = (ch "X" :: a) :: split markerZ d).
  { apply split_pair_first; [discriminate | exact Hz]. }
  rewrite Ep. cbn [nth]. rewrite (split_absent _ _ Hy). reflexivity.
Qed.

Lemma Z_without_Y_fails_witness :
  onmessage JSON_parse_text (listening (quietCallback 0)) 1000 (str "X1.0,2.0,Z3.0")
  = [EvError MessageHandlingFailed].
Proof.
  exact (Z_without_Y_fails JSON_parse_text (listening (quietCallback 0)) 1000
           (str "1.0,2.0") (str "3.0") eq_refl eq_refl).
Defined.

(** ** Dual-waveform frames and unlabeled batches behind a prefix *)

Lemma map_constant {A B : Type} (f : A -> B) (b : B) (l : list A) :
  Forall (fun a => f a = b) l -> map f l = repeat b (length l).
Proof. induction 1 as [|a l Ha _ IH]; [reflexivity|]. simpl. rewrite Ha, IH. reflexivity. Qed.

Lemma wave_facts now w m (xs : list jstring) :
  Forall numericToken xs ->
  map amplitude (dataPoints now w m (map trim xs)) = map parseFloat xs /\
  map timestamp (dataPoints now w m (map trim xs)) =
    map (pointTime now (length xs)) (seq 0 (length xs)) /\
  map channelOf (dataPoints now w m (map trim xs)) = repeat w (length xs) /\
  Forall (fun s => frameMeta (metadata s) = m) (dataPoints now w m (map trim xs)).
Proof.
  intros Hx. destruct (points_numeric_join xs Hx) as [_ Hn].
  rewrite dataPoints_from, length_map.
  assert (Hf := pointsFrom_fixed now w m (length xs) 0 (map trim xs)).
  assert (Hl := pointsFrom_length now w m (length xs) 0 (map trim xs) Hn).
  rewrite length_map in Hl.
  split; [rewrite pointsFrom_amplitudes; apply numeric_amplitudes; exact Hx|].
  split; [rewrite pointsFrom_numeric, length_map by exact Hn; reflexivity|].
  split.
  - rewrite <- Hl at 2. apply map_constant.
    eapply Forall_impl; [|exact Hf]. intros s (_ & _ & _ & _ & H). exact H.
  - eapply Forall_impl; [|exact Hf]. intros s (_ & _ & H & _). exact H.
Qed.

Lemma dualFrame_samples (JSON_parse : jstring -> option JSValue)
    (h : Handlers) (cb : Callback) (now : Z)
    (t hu v : jstring) (xs ys : list jstring) :
  onEarthquakeData h = Some cb ->
  digitRun t -> digitRun hu -> digitRun v ->
  Forall numericToken xs -> Forall numericToken ys ->
  emittedSamples (onmessage JSON_parse h now (dualFrame t hu v xs ys)) =
  dataPoints now (Some ChX)
    (withDataType (prefixMeta t hu v) "dual-waveform" (Some true) None) (map trim xs)
  ++ dataPoints now (Some ChY)
    (withDataType (prefixMeta t hu v) "dual-waveform" (Some true) None) (map trim ys).
Proof.
  intros Hcb Ht Hh Hv Hxs Hys.
  destruct (points_numeric_join xs Hxs) as [Epx _].
  destruct (points_numeric_join ys Hys) as [Epy _].
  destruct (join_no_marker (ch "Y") xs Hxs eq_refl ltac:(discriminate)) as [HxY _].
  destruct (join_no_marker (ch "Z") xs Hxs eq_refl ltac:(discriminate)) as [HxZ _].
  destruct (join_no_marker (ch "Y") ys Hys eq_refl ltac:(discriminate)) as [HyY _].
  destruct (join_no_marker (ch "Z") ys Hys eq_refl ltac:(discriminate)) as [HyZ _].
  fold markerY in HxY, HyY. fold markerZ in HxZ, HyZ.
  set (jx := join (str ",") xs) in *. set (jy := join (str ",") ys) in *.
  set (body := ch "X" :: jx ++ comma :: ch "Y" :: jy).
  assert (Hbody : includes body markerZ = false).
  { unfold body. change (ch "X" :: jx ++ comma :: ch "Y" :: jy)
      with ((ch "X" :: jx) ++ comma :: ch "Y" :: jy).
    apply includes_pair_app.
    - cbn [includes]. fold markerZ. rewrite HxZ. reflexivity.
    - cbn [includes]. fold markerZ. rewrite HyZ. reflexivity.
    - discriminate. }
  assert (Hsplit : split markerY body = [ch "X" :: jx; jy]).
  { unfold body. change (ch "X" :: jx ++ comma :: ch "Y" :: jy)
      with ((ch "X" :: jx) ++ comma :: ch "Y" :: jy).
    unfold markerY at 1. rewrite split_pair_first.
    - fold markerY. rewrite (split_absent _ _ HyY). reflexivity.
    - discriminate.
    - cbn [includes]. fold markerY. rewrite HxY. reflexivity. }
  assert (Ef : dualFrame t hu v xs ys
               = ch "T" :: t ++ ch "H" :: hu ++ ch "V" :: v ++ comma :: body).
  { reflexivity. }
  rewrite Ef.
  rewrite (samples_X JSON_parse h cb now _ (jx ++ comma :: ch "Y" :: jy)
             (prefixMeta t hu v) Hcb).
  - fold body. rewrite (splitWaveforms_Y _ body jx jy [] Hbody Hsplit).
    cbn [optionalWave]. rewrite Epx, Epy, app_nil_r. reflexivity.
  - reflexivity.
  - apply (includes_In comma). right.
    apply in_or_app; right; right.
    apply in_or_app; right; right.
    apply in_or_app; right; left; reflexivity.
  - apply (readMetaPrefix_frame t hu v _ Ht Hh Hv).
Qed.

Lemma dualFrame_facts (JSON_parse : jstring -> option JSValue)
    (h : Handlers) (cb : Callback) (now : Z)
    (t hu v : jstring) (xs ys : list jstring) :
  onEarthquakeData h = Some cb ->
  digitRun t -> digitRun hu -> digitRun v ->
  Forall numericToken xs -> Forall numericToken ys ->
  let ss := emittedSamples (onmessage JSON_parse h now (dualFrame t hu v xs ys)) in
  map amplitude ss = map parseFloat (xs ++ ys) /\
  map channelOf ss = repeat (Some ChX) (length xs) ++ repeat (Some ChY) (length ys) /\
  map timestamp ss = map (pointTime now (length xs)) (seq 0 (length xs))
                     ++ map (pointTime now (length ys)) (seq 0 (length ys)) /\
  Forall (fun s => frameMeta (metadata s) =
                   {| temperature := Some (parseInt t); humidity := Some (parseInt hu);
                      voltage := Some (parseInt v);
                      dataType := Some (str "dual-waveform");
                      secondWaveform := Some true; thirdWaveform := None |}) ss.
Proof.
  intros Hcb Ht Hh Hv Hxs Hys ss. unfold ss.
  rewrite (dualFrame_samples JSON_parse h cb now t hu v xs ys Hcb Ht Hh Hv Hxs Hys).
  destruct (wave_facts now (Some ChX)
              (withDataType (prefixMeta t hu v) "dual-waveform" (Some true) None) xs Hxs)
    as (A1 & T1 & C1 & M1).
  destruct (wave_facts now (Some ChY)
              (withDataType (prefixMeta t hu v) "dual-waveform" (Some true) None) ys Hys)
    as (A2 & T2 & C2 & M2).
  rewrite !map_app, A1, A2, T1, T2, C1, C2.
  split; [reflexivity|]. split; [reflexivity|]. split; [reflexivity|].
  apply Forall_app. split; assumption.
Qed.

(** X10: a frame [T{t}H{h}V{v},X{xs},Y{ys}] whose points are free of commas
    and read as numbers is delivered as the X samples followed by the Y
    samples, with the values of the points in order; each waveform is dated
    on its own, 10 ms apart and ending at the arrival time; every sample
    carries the prefix values, [dataType] ['dual-waveform'],
    [secondWaveform] [true] and no [thirdWaveform].  The frame that
    [sendDualWaveformTestData] sends is delivered in this way with the
    numbers it drew. *)
Theorem dual_frame_decodes (JSON_parse : jstring -> option JSValue)
    (h : Handlers) (cb : Callback) (now : Z) :
  onEarthquakeData h = Some cb ->
  (forall (t hu v : jstring) (xs ys : list jstring),
      digitRun t -> digitRun hu -> digitRun v ->
      Forall numericToken xs -> Forall numericToken ys ->
      let ss := emittedSamples (onmessage JSON_parse h now (dualFrame t hu v xs ys)) in
      map amplitude ss = map parseFloat (xs ++ ys) /\
      map channelOf ss = repeat (Some ChX) (length xs) ++ repeat (Some ChY) (length ys) /\
      map timestamp ss = map (pointTime now (length xs)) (seq 0 (length xs))
                         ++ map (pointTime now (length ys)) (seq 0 (length ys)) /\
      Forall (fun s => frameMeta (metadata s) =
                       {| temperature := Some (parseInt t); humidity := Some (parseInt hu);
                          voltage := Some (parseInt v);
                          dataType := Some (str "dual-waveform");
                          secondWaveform := Some true; thirdWaveform := None |}) ss) /\
  (forall (tN hN vN : N) (xs ys : list N) (text : jstring),
      sendDualWaveformTestData (Some OPEN) tN hN vN xs ys = (true, Some text) ->
      let ss := emittedSamples (onmessage JSON_parse h now text) in
      map amplitude ss = map hundredths (xs ++ ys) /\
      map channelOf ss = repeat (Some ChX) (length xs) ++ repeat (Some ChY) (length ys) /\
      Forall (fun s => frameMeta (metadata s) =
                       {| temperature := Some tN; humidity := Some hN; voltage := Some vN;
                          dataType := Some (str "dual-waveform");
                          secondWaveform := Some true; thirdWaveform := None |}) ss).
Proof.
  intros Hcb. split.
  - intros t hu v xs ys. apply (dualFrame_facts JSON_parse h cb now); exact Hcb.
  - intros tN hN vN xs ys text Hsent.
    unfold sendDualWaveformTestData in Hsent. cbn [isOpen] in Hsent.
    injection Hsent as <-.
    change (ch "T" :: digitsOf tN ++ ch "H" :: digitsOf hN ++ ch "V" :: digitsOf vN
            ++ str ",X" ++ join (str ",") (map toFixed2 xs)
            ++ str ",Y" ++ join (str ",") (map toFixed2 ys))
      with (dualFrame (digitsOf tN) (digitsOf hN) (digitsOf vN)
              (map toFixed2 xs) (map toFixed2 ys)).
    assert (Hn : forall l, Forall numericToken (map toFixed2 l)).
    { intros l. apply Forall_map, Forall_forall. intros n _. apply toFixed2_numericToken. }
    destruct (dualFrame_facts JSON_parse h cb now
                (digitsOf tN) (digitsOf hN) (digitsOf vN)
                (map toFixed2 xs) (map toFixed2 ys) Hcb
                (digitsOf_digitRun tN) (digitsOf_digitRun hN) (digitsOf_digitRun vN)
                (Hn xs) (Hn ys))
      as (H1 & H2 & _ & H4).
    repeat rewrite length_map in H2. cbv zeta.
    split; [|split; [exact H2|]].
    + etransitivity; [exact H1|]. rewrite <- !map_app, parseFloat_sent. reflexivity.
    + eapply Forall_impl; [|exact H4]. unfold parseInt.
      rewrite !digitsOf_value. intros s Hs. exact Hs.
Qed.

Lemma dual_frame_decodes_witness :
  let ss := emittedSamples
              (onmessage JSON_parse_text (listening (quietCallback 0)) 1000
                         (str "T25H60V90,X1.0,2.0,3.5,Y0.5,0.7")) in
  map amplitude ss =
    map parseFloat [str "1.0"; str "2.0"; str "3.5"; str "0.5"; str "0.7"] /\
  map channelOf ss = [Some ChX; Some ChX; Some ChX; Some ChY; Some ChY] /\
  map timestamp ss = [980; 990; 1000; 990; 1000]%Z /\
  Forall (fun s => frameMeta (metadata s) =
                   {| temperature := Some 25%N; humidity := Some 60%N;
                      voltage := Some 90%N;
                      dataType := Some (str "dual-waveform");
                      secondWaveform := Some true; thirdWaveform := None |}) ss.
Proof.
  apply (proj1 (dual_frame_decodes JSON_parse_text (listening (quietCallback 0))
                  (quietCallback 0) 1000 eq_refl)
               (str "25") (str "60") (str "90")
               [str "1.0"; str "2.0"; str "3.5"] [str "0.5"; str "0.7"]).
  - split; [discriminate | repeat constructor].
  - split; [discriminate | repeat constructor].
  - split; [discriminate | repeat constructor].
  - repeat constructor; unfold commaFree; simpl; intuition discriminate.
  - repeat constructor; unfold commaFree; simpl; intuition discriminate.
Defined.

Lemma prefixedBatch_samples (JSON_parse : jstring -> option JSValue)
    (h : Handlers) (cb : Callback) (now : Z)
    (t hu v : jstring) (ts : list jstring) :
  onEarthquakeData h = Some cb ->
  digitRun t -> digitRun hu -> digitRun v ->
  Forall numericToken ts ->
  emittedSamples (onmessage JSON_parse h now (prefixedBatch t hu v ts)) =
  dataPoints now None (prefixMeta t hu v) (map trim ts).
Proof.
  intros Hcb Ht Hh Hv Hts.
  destruct (points_numeric_join ts Hts) as [Ep _].
  rewrite samples_onmessage.
  change (startsWith (prefixedBatch t hu v ts) (str "{")
          || startsWith (prefixedBatch t hu v ts) (str "[")) with false.
  cbv iota.
  assert (includes (prefixedBatch t hu v ts) (str ",") = true) as ->.
  { apply (includes_In comma). right.
    apply in_or_app; right; right. apply in_or_app; right; right.
    apply in_or_app; right; left; reflexivity. }
  rewrite samples_comma, Hcb. unfold prefixedBatch.
  rewrite (readMetaPrefix_frame t hu v _ Ht Hh Hv). fold (prefixMeta t hu v).
  assert (startsWith (join (str ",") ts) (str "X") = false) as ->.
  { apply startsWith_one.
    destruct (join_no_marker (ch "X") ts Hts eq_refl ltac:(discriminate)) as [_ H].
    exact H. }
  rewrite Ep. reflexivity.
Qed.

(** X11: a batch of numbers behind a metadata prefix and without the X
    marker, [T{t}H{h}V{v},{ts}], is delivered as one unlabeled batch: the
    values in order, no [waveformType], 10 ms apart and ending at the
    arrival time, and in each sample's metadata the three prefix values
    and no [dataType]. *)
Theorem prefixed_batch_decodes (JSON_parse : jstring -> option JSValue)
    (h : Handlers) (cb : Callback) (now : Z)
    (t hu v : jstring) (ts : list jstring) :
  onEarthquakeData h = Some cb ->
  digitRun t -> digitRun hu -> digitRun v ->
  Forall numericToken ts ->
  let ss := emittedSamples (onmessage JSON_parse h now (prefixedBatch t hu v ts)) in
  map amplitude ss = map parseFloat ts /\
  map channelOf ss = repeat None (length ts) /\
  map timestamp ss = map (pointTime now (length ts)) (seq 0 (length ts)) /\
  Forall (fun s => frameMeta (metadata s) =
                   {| temperature := Some (parseInt t); humidity := Some (parseInt hu);
                      voltage := Some (parseInt v);
                      dataType := None; secondWaveform := None;
                      thirdWaveform := None |}) ss.
Proof.
  intros Hcb Ht Hh Hv Hts ss. unfold ss.
  rewrite (prefixedBatch_samples JSON_parse h cb now t hu v ts Hcb Ht Hh Hv Hts).
  destruct (wave_facts now None (prefixMeta t hu v) ts Hts) as (A & T & C & M).
  auto.
Qed.

Lemma prefixed_batch_decodes_witness :
  let ss := emittedSamples
              (onmessage JSON_parse_text (listening (quietCallback 0)) 1000
                         (str "T25H60V90,1.5,-2,3e1")) in
  map amplitude ss = map parseFloat [str "1.5"; str "-2"; str "3e1"] /\
  map channelOf ss = [None; None; None] /\
  map timestamp ss = [980; 990; 1000]%Z /\
  Forall (fun s => frameMeta (metadata s) =
                   {| temperature := Some 25%N; humidity := Some 60%N;
                      voltage := Some 90%N;
                      dataType := None; secondWaveform := None;
                      thirdWaveform := None |}) ss.
Proof.
  apply (prefixed_batch_decodes JSON_parse_text (listening (quietCallback 0))
           (quietCallback 0) 1000 (str "25") (str "60") (str "90")
           [str "1.5"; str "-2"; str "3e1"] eq_refl).
  - split; [discriminate | repeat constructor].
  - split; [discriminate | repeat constructor].
  - split; [discriminate | repeat constructor].
  - repeat constructor; unfold commaFree; simpl; intuition discriminate.
Defined.

(** ** Single values *)

Lemma parseFloat_digitsOf (n : N) : parseFloat (digitsOf n) = whole n.
Proof.
  assert (Hd := digitsOf_digits n). assert (Hv := digitsOf_value n).
  assert (Hne := digitsOf_nonempty n).
  destruct (digitsOf n) as [|x a]; [congruence|].
  apply Forall_cons_iff in Hd. destruct Hd as [Hx Ha].
  unfold parseFloat, trimStart. cbn [dropWhile].
  rewrite (digit_not_ws _ Hx).
  rewrite !(digit_neq _ _ Hx) by (right + left; reflexivity).
  unfold unsignedLiteral.
  assert (startsWith (x :: a) (str "Infinity") = false) as ->.
  { change (str "Infinity") with (ch "I" :: str "nfinity"). cbn [startsWith].
    rewrite N.eqb_sym, (digit_neq _ _ Hx) by (right; reflexivity). reflexivity. }
  rewrite span_digits_all by (constructor; assumption).
  rewrite Hv. unfold whole, signed, decimalQ. cbn [Z.leb Z.compare Z.pow Z.pow_pos Pos.iter].
  rewrite Z.mul_1_r. reflexivity.
Qed.

Lemma digit_canStart (x : N) : isDigit x = true -> canStartNumber x = true.
Proof.
  intros Hx. unfold canStartNumber. rewrite Hx, orb_true_r. reflexivity.
Qed.

Lemma single_value_sample (JSON_parse : jstring -> option JSValue)
    (h : Handlers) (cb : Callback) (now : Z) (x : N) (r : jstring) :
  onEarthquakeData h = Some cb ->
  canStartNumber x = true -> commaFree (x :: r) ->
  isNaN (parseFloat (x :: r)) = false ->
  onmessage JSON_parse h now (x :: r) =
  caught MessageHandlingFailed
    (callData h true (PSample (singleSample now (parseFloat (x :: r))))).
Proof.
  intros Hcb Hx Hc Hn. unfold onmessage.
  destruct (number_head_routes x r Hx) as (H1 & H2 & _).
  rewrite H1, H2. cbn [orb]. cbv iota.
  change (str ",") with [comma]. rewrite (includes_free comma (x :: r) [] Hc).
  unfold onSingleValue. rewrite Hn. reflexivity.
Qed.

(** X12: what [sendRawAmplitude] sends for a whole number [n] up to
    [2^53], or for a text printed by [toFixed(2)], comes back from the
    handler as one call of the data callback with a single sample: the
    number sent as amplitude, the arrival time as timestamp, [source]
    ['external'], [raw] [true], and no batch index, batch size, waveform
    type or frame metadata. *)
Theorem raw_amplitude_round_trip (JSON_parse : jstring -> option JSValue)
    (h : Handlers) (cb : Callback) (now : Z)
    (a : RawAmplitude) (value : Number) (text : jstring) :
  onEarthquakeData h = Some cb ->
  (forall p, cb_raises cb p = false) ->
  (exists n safe, a = RawCount n safe /\ value = whole n) \/
  (exists k, a = RawText (toFixed2 k) /\ value = hundredths k) ->
  sendRawAmplitude (Some OPEN) a = (true, Some text) ->
  onmessage JSON_parse h now text =
  [EvData (cb_id cb)
     (PSample {| amplitude := value; timestamp := now;
                 metadata := {| source := str "external"; raw := true;
                                batchIndex := None; batchSize := None;
                                waveformType := None; frameMeta := emptyMeta |} |})].
Proof.
  intros Hcb Hq Ha Hsent.
  unfold sendRawAmplitude in Hsent. cbn [isOpen] in Hsent. injection Hsent as <-.
  assert (Hgo : forall s, canStartNumber (hd 0%N s) = true -> s <> [] -> commaFree s ->
                          parseFloat s = value ->
                          isNaN value = false ->
                          onmessage JSON_parse h now s =
                          [EvData (cb_id cb) (PSample (singleSample now value))]).
  { intros [|x r] Hx Hne Hc Hv Hnan; [congruence|]. cbn [hd] in Hx.
    rewrite (single_value_sample JSON_parse h cb now x r Hcb Hx Hc)
      by (rewrite Hv; exact Hnan).
    rewrite Hv. unfold callData, invoke. rewrite Hcb, Hq. reflexivity. }
  destruct Ha as [(n & safe & -> & ->)|(k & -> & ->)]; cbn [amplitudeToString]; apply Hgo.
  - assert (Hd := digitsOf_digits n). assert (Hne := digitsOf_nonempty n).
    destruct (digitsOf n) as [|x r]; [congruence|]. cbn [hd].
    apply Forall_cons_iff in Hd. destruct Hd as [Hx _].
    apply digit_canStart, Hx.
  - apply digitsOf_nonempty.
  - intros Hin. apply (digits_commaFree (digitsOf n) (digitsOf_digits n) Hin).
  - apply parseFloat_digitsOf.
  - reflexivity.
  - destruct (toFixed2_parts k) as (x & b & c & E & Hd & _).
    rewrite E. cbn [hd app]. apply Forall_cons_iff in Hd. destruct Hd as [Hx _].
    apply digit_canStart, Hx.
  - destruct (toFixed2_parts k) as (x & b & c & E & _). rewrite E. discriminate.
  - apply toFixed2_commaFree.
  - apply parseFloat_toFixed2.
  - reflexivity.
Qed.

Lemma raw_amplitude_round_trip_witness :
  onmessage JSON_parse_text (listening (quietCallback 0)) 1000 (str "42") =
  [EvData 0 (PSample {| amplitude := whole 42; timestamp := 1000%Z;
                        metadata := {| source := str "external"; raw := true;
                                       batchIndex := None; batchSize := None;
                                       waveformType := None;
                                       frameMeta := emptyMeta |} |})].
Proof.
  apply (raw_amplitude_round_trip JSON_parse_text (listening (quietCallback 0))
           (quietCallback 0) 1000 (RawCount 42 eq_refl) (whole 42) (str "42") eq_refl).
  - intros p. reflexivity.
  - left. exists 42%N, eq_refl. split; reflexivity.
  - reflexivity.
Defined.

(** ** The serial port after reading was started, with calls made in turn *)

Lemma readerKept_started d e (st st1 : Serial.Service) (res : Serial.Result) :
  Serial.startReading d e st = (st1, res) -> Serial.success res = true ->
  readerKept st1.
Proof.
  unfold Serial.startReading.
  destruct (Serial.port st) eqn:Hp; cbn [negb]; [|intros [= <- <-]; discriminate].
  unfold Serial.getReader.
  destruct (Serial.portOpened (Serial.platform st)) eqn:Ho; [|intros [= <- <-]; discriminate].
  destruct (Serial.lockedBy (Serial.platform st)) eqn:Hl; [intros [= <- <-]; discriminate|].
  intros [= <- <-] _. unfold readerKept. cbn.
  split; [reflexivity|]. split; [reflexivity|]. eexists. split; [reflexivity|]. left. auto.
Qed.

Lemma readerKept_openPort ok (st : Serial.Service) :
  readerKept st -> readerKept (fst (Serial.openPort ok st)).
Proof.
  intros (Hp & Ho & r & Hr & H). unfold Serial.openPort. rewrite Ho. cbn.
  unfold readerKept. cbn.
  split; [reflexivity|]. split; [first [reflexivity | assumption]|].
  exists r. split; [exact Hr | exact H].
Qed.

Lemma readerKept_startReading d e (st : Serial.Service) :
  readerKept st -> readerKept (fst (Serial.startReading d e st)).
Proof.
  intros (Hp & Ho & r & Hr & H). unfold Serial.startReading, Serial.getReader.
  rewrite Hp, Ho. cbn [negb].
  destruct (Serial.lockedBy (Serial.platform st)) as [r0|] eqn:Hl; unfold readerKept; cbn.
  - split; [first [reflexivity | assumption]|].
    split; [first [reflexivity | assumption]|].
    exists r. split; [exact Hr|]. first [exact H | rewrite Hl; exact H].
  - split; [first [reflexivity | assumption]|]. split; [reflexivity|].
    eexists. split; [reflexivity|]. left. auto.
Qed.

Lemma readerKept_finish r pr (st : Serial.Service) :
  pr = Serial.Fulfilled \/ pr = Serial.Rejected ->
  Serial.port st = true -> Serial.portOpened (Serial.platform st) = true ->
  Serial.reader st = Some r -> Serial.lockedBy (Serial.platform st) = Some r ->
  readerKept (Serial.finish r pr st).
Proof.
  intros Hpr Hp Ho Hr Hl. unfold readerKept, Serial.finish. cbn.
  unfold Serial.holdsLock. rewrite Hl, Nat.eqb_refl.
  split; [exact Hp|]. split; [exact Ho|]. exists r. split; [exact Hr|].
  right. split; [|reflexivity]. destruct Hpr as [-> | ->]; auto.
Qed.

Lemma readerKept_readLoop rr (st : Serial.Service) :
  readerKept st -> readerKept (fst (Serial.readLoop rr st)).
Proof.
  intros H. assert (H0 := H). destruct H as (Hp & Ho & r & Hr & [[Hpr Hl]|[Hpr Hl]]).
  - unfold Serial.readLoop. rewrite Hpr.
    assert (Hc : forall e, readerKept (fst (Serial.catchPath r e st))).
    { intros e. unfold Serial.catchPath.
      destruct (Serial.errorCallback st) as [ecb|]; cbn [fst];
        apply readerKept_finish; auto. destruct (ecb e); auto. }
    destruct rr as [value| |].
    + destruct (match Serial.dataCallback st with Some cb => cb _ | None => false end).
      * specialize (Hc Serial.CallbackError).
        destruct (Serial.catchPath r Serial.CallbackError st). exact Hc.
      * destruct (Serial.keepReading st); cbn [fst]; [exact H0|].
        apply readerKept_finish; auto.
    + cbn [fst]. apply readerKept_finish; auto.
    + apply Hc.
  - unfold Serial.readLoop. destruct Hpr as [-> | ->]; exact H0.
Qed.

(** With a reader kept, the end of [closePort] fails and changes nothing. *)
Lemma closeAfterLoop_kept (st : Serial.Service) :
  readerKept st -> Serial.lockedBy (Serial.platform st) = None ->
  fst (Serial.closeAfterLoop st) = st /\
  Serial.success (snd (Serial.closeAfterLoop st)) = false.
Proof.
  intros (Hp & Ho & r & Hr & _) Hl. unfold Serial.closeAfterLoop.
  destruct (Serial.readLoopPromise st) as [[r0| |]|];
    try (split; reflexivity);
    rewrite Hr; unfold Serial.cancel, Serial.holdsLock; rewrite Hl; split; reflexivity.
Qed.

Lemma readLoop_stopping rr r (st : Serial.Service) :
  Serial.readLoopPromise st = Some (Serial.Pending r) ->
  Serial.lockedBy (Serial.platform st) = Some r ->
  Serial.keepReading st = false ->
  Serial.lockedBy (Serial.platform (fst (Serial.readLoop rr st))) = None.
Proof.
  intros Hpr Hl Hk. unfold Serial.readLoop. rewrite Hpr, Hk.
  assert (Hf : forall pr, Serial.lockedBy (Serial.platform (Serial.finish r pr st)) = None).
  { intros pr. unfold Serial.finish. cbn. unfold Serial.holdsLock.
    rewrite Hl, Nat.eqb_refl. reflexivity. }
  assert (Hc : forall e, Serial.lockedBy (Serial.platform (fst (Serial.catchPath r e st)))
                         = None).
  { intros e. unfold Serial.catchPath.
    destruct (Serial.errorCallback st) as [ecb|]; cbn [fst]; apply Hf. }
  destruct rr as [value| |].
  - destruct (match Serial.dataCallback st with Some cb => cb _ | None => false end).
    + specialize (Hc Serial.CallbackError).
      destruct (Serial.catchPath r Serial.CallbackError st). exact Hc.
    + cbn [fst]. apply Hf.
  - cbn [fst]. apply Hf.
  - apply Hc.
Qed.

Lemma readerKept_keepReading (st : Serial.Service) k :
  readerKept st -> readerKept (Serial.withKeepReading st k).
Proof. exact (fun H => H). Qed.

Lemma closePort_kept next (st st' : Serial.Service) res ev :
  readerKept st -> Serial.closePort next st = Some (st', res, ev) ->
  Serial.success res = false /\ readerKept st'.
Proof.
  intros H. unfold Serial.closePort.
  assert (Hk := readerKept_keepReading st false H).
  set (st1 := Serial.withKeepReading st false) in *.
  destruct H as (Hp & _). rewrite Hp. cbn [negb].
  destruct (Serial.readLoopPromise st1) as [[r0| |]|] eqn:Hpr.
  - destruct next as [rr|]; [|discriminate].
    assert (Hl : Serial.lockedBy (Serial.platform st1) = Some r0).
    { destruct Hk as (_ & _ & r & _ & [[E Hl]|[[E|E] _]]); congruence. }
    assert (H2 := readerKept_readLoop rr st1 Hk).
    assert (L2 := readLoop_stopping rr r0 st1 Hpr Hl eq_refl).
    destruct (Serial.readLoop rr st1) as [st2 ev2]. cbn [fst] in H2, L2.
    destruct (closeAfterLoop_kept st2 H2 L2) as [E1 E2].
    destruct (Serial.closeAfterLoop st2) as [st3 res3]. cbn [fst snd] in E1, E2.
    intros [= <- <- <-]. subst st3. auto.
  - assert (Hl : Serial.lockedBy (Serial.platform st1) = None).
    { destruct Hk as (_ & _ & r & _ & [[E Hl]|[_ Hl]]); congruence. }
    destruct (closeAfterLoop_kept st1 Hk Hl) as [E1 E2].
    destruct (Serial.closeAfterLoop st1) as [st3 res3]. cbn [fst snd] in E1, E2.
    intros [= <- <- <-]. subst st3. auto.
  - assert (Hl : Serial.lockedBy (Serial.platform st1) = None).
    { destruct Hk as (_ & _ & r & _ & [[E Hl]|[_ Hl]]); congruence. }
    destruct (closeAfterLoop_kept st1 Hk Hl) as [E1 E2].
    destruct (Serial.closeAfterLoop st1) as [st3 res3]. cbn [fst snd] in E1, E2.
    intros [= <- <- <-]. subst st3. auto.
  - exfalso. destruct Hk as (_ & _ & r & _ & [[E _]|[[E|E] _]]); congruence.
Qed.

Lemma readerKept_run ops (st : Serial.Service) :
  readerKept st -> readerKept (Serial.run ops st).
Proof.
  revert st. induction ops as [|op ops IH]; intros st H; [exact H|].
  cbn [Serial.run]. destruct op as [ok|d e|rr|next]; cbn [Serial.step].
  - apply IH, readerKept_openPort, H.
  - apply IH, readerKept_startReading, H.
  - apply IH, readerKept_readLoop, H.
  - destruct (Serial.closePort next st) as [[[st' res] ev]|] eqn:E; [|exact H].
    apply IH. exact (proj2 (closePort_kept next st st' res ev H E)).
Qed.

(** X13: once [startReading] has succeeded, a client that makes its calls
    one after the other, each call returning before the next is made,
    cannot close the port any more.  Whatever such calls of [openPort]
    for the same port, [startReading] and [closePort] follow, and whatever
    reads the device completes between them, the port stays set and open,
    and every [closePort] that returns reports a failure: the read loop has
    released the reader that [closePort] then asks to cancel.  Calls that
    overlap, a [startReading] made while a [closePort] is still waiting,
    are not runs of [Serial.run] and are not covered. *)
Theorem sequential_calls_cannot_close_after_reading d e (st st1 : Serial.Service)
    (res : Serial.Result) (ops : list Serial.Op) :
  Serial.startReading d e st = (st1, res) -> Serial.success res = true ->
  Serial.port (Serial.run ops st1) = true /\
  Serial.portOpened (Serial.platform (Serial.run ops st1)) = true /\
  (forall next st' res' ev,
      Serial.closePort next (Serial.run ops st1) = Some (st', res', ev) ->
      Serial.success res' = false /\
      Serial.port st' = true /\ Serial.portOpened (Serial.platform st') = true).
Proof.
  intros E Hs.
  assert (H := readerKept_run ops st1 (readerKept_started d e st st1 res E Hs)).
  split; [apply H|]. split; [apply H|].
  intros next st' res' ev Ec.
  destruct (closePort_kept next _ st' res' ev H Ec) as [Hf Hk].
  split; [exact Hf|]. split; apply Hk.
Qed.

Lemma sequential_calls_cannot_close_after_reading_witness :
  let st1 := fst (Serial.startReading None None
                    (fst (Serial.openPort true Serial.initialService))) in
  let st2 := Serial.run [Serial.OpRead (Serial.Chunk (str "1.0"));
                         Serial.OpClose (Some Serial.Done);
                         Serial.OpStart None None] st1 in
  Serial.port st2 = true /\
  Serial.portOpened (Serial.platform st2) = true /\
  (forall next st' res' ev,
      Serial.closePort next st2 = Some (st', res', ev) ->
      Serial.success res' = false /\
      Serial.port st' = true /\ Serial.portOpened (Serial.platform st') = true).
Proof.
  exact (sequential_calls_cannot_close_after_reading None None
           (fst (Serial.openPort true Serial.initialService)) _ Serial.succeeded
           [Serial.OpRead (Serial.Chunk (str "1.0"));
            Serial.OpClose (Some Serial.Done); Serial.OpStart None None]
           eq_refl eq_refl).
Defined.

(** ** The callbacks of the read loop *)










(** ** Closed ports and chunk boundaries *)

(** X16: an [openPort] that fails on the device leaves [this.port] set.
    The service then no longer answers "no open port": [startReading] fails
    with a TypeError on the missing stream after it has stored its
    callbacks, and [closePort] fails with an InvalidStateError and leaves
    the port set, however often it is called. *)
Theorem failed_openPort_keeps_port (st : Serial.Service) :
  Serial.portOpened (Serial.platform st) = false ->
  Serial.reader st = None -> Serial.readLoopPromise st = None ->
  let st1 := fst (Serial.openPort false st) in
  snd (Serial.openPort false st) = Serial.failed Serial.DeviceError /\
  Serial.port st1 = true /\
  (forall d e,
      snd (Serial.startReading d e st1) = Serial.failed Serial.TypeError /\
      Serial.dataCallback (fst (Serial.startReading d e st1)) = d /\
      Serial.readLoopPromise (fst (Serial.startReading d e st1)) = None) /\
  (forall next,
      Serial.closePort next st1 =
        Some (Serial.withKeepReading st1 false,
              Serial.failed Serial.InvalidStateError, []) /\
      Serial.closePort next (Serial.withKeepReading st1 false) =
        Some (Serial.withKeepReading st1 false,
              Serial.failed Serial.InvalidStateError, [])).
Proof.
  intros Ho Hr Hpr. unfold Serial.openPort. rewrite Ho. cbn [fst snd].
  split; [reflexivity|]. split; [reflexivity|]. split.
  - intros d e. unfold Serial.startReading, Serial.getReader. cbn. rewrite Ho. cbn.
    auto.
  - intros next. unfold Serial.closePort, Serial.closeAfterLoop, Serial.close. cbn.
    rewrite Hpr, Hr. cbn. rewrite Ho. cbn. split; reflexivity.
Qed.

Lemma failed_openPort_keeps_port_witness :
  let st1 := fst (Serial.openPort false Serial.initialService) in
  Serial.port st1 = true /\
  snd (Serial.startReading None None st1) = Serial.failed Serial.TypeError /\
  Serial.closePort None st1 =
    Some (Serial.withKeepReading st1 false, Serial.failed Serial.InvalidStateError, []).
Proof.
  destruct (failed_openPort_keeps_port Serial.initialService eq_refl eq_refl eq_refl)
    as (_ & H1 & H2 & H3).
  split; [exact H1|]. split; [apply (H2 None None) | apply (H3 None)].
Defined.

Lemma plainByte_range (b : N) :
  plainByte b = true -> (b = 9 \/ b = 10 \/ b = 13 \/ 32 <= b <= 126)%N.
Proof.
  unfold plainByte. intros Hb.
  repeat match goal with
         | H : (_ || _) = true |- _ => apply orb_true_iff in H; destruct H
         | H : (_ && _) = true |- _ => apply andb_true_iff in H; destruct H
         | H : (_ <=? _)%N = true |- _ => apply N.leb_le in H
         | H : (_ =? _)%N = true |- _ => apply N.eqb_eq in H
         end; lia.
Qed.

Lemma kept_unit (c : N) :
  (c = 9 \/ c = 10 \/ c = 13 \/ 32 <= c <= 126 \/ 128 <= c < 65533)%N ->
  Serial.stripControls (Serial.replaceReplacement [c]) = [c].
Proof.
  intros Hr. cbn [Serial.replaceReplacement map Serial.stripControls filter].
  destruct (N.eqb_spec c Serial.replacement) as [E|_];
    [unfold Serial.replacement in E; lia|].
  assert (Serial.strippedControl c = false) as ->; [|reflexivity].
  unfold Serial.strippedControl.
  repeat match goal with
         | |- (_ || _) = false => apply orb_false_iff; split
         | |- (_ && _) = false => apply andb_false_iff
         end;
    try (apply N.leb_gt; lia); try (apply N.eqb_neq; lia).
  destruct (N.leb_spec 14 c); [right; apply N.leb_gt; lia | left; reflexivity].
Qed.

Lemma clean_app (a b : jstring) :
  Serial.stripControls (Serial.replaceReplacement (a ++ b)) =
  Serial.stripControls (Serial.replaceReplacement a)
  ++ Serial.stripControls (Serial.replaceReplacement b).
Proof.
  unfold Serial.stripControls, Serial.replaceReplacement.
  rewrite map_app, filter_app. reflexivity.
Qed.

Lemma chunkText_ascii (b : N) (rest : list N) :
  plainByte b = true -> Serial.chunkText (b :: rest) = b :: Serial.chunkText rest.
Proof.
  intros Hb. apply plainByte_range in Hb.
  unfold Serial.chunkText, Serial.decode. cbn [Serial.utf8Decode]. unfold Serial.leadByte.
  destruct (N.leb_spec b 127) as [_|]; [|lia].
  cbn [app flat_map]. unfold Serial.codeUnits at 1.
  destruct (N.ltb_spec b 65536) as [_|]; [|lia].
  change ([b] ++ flat_map Serial.codeUnits (Serial.utf8Decode None rest))
    with ([b] ++ flat_map Serial.codeUnits (Serial.utf8Decode None rest)).
  rewrite clean_app, kept_unit by lia. reflexivity.
Qed.

Lemma chunkText_plain_app (pre rest : list N) :
  forallb plainByte pre = true ->
  Serial.chunkText (pre ++ rest) = pre ++ Serial.chunkText rest.
Proof.
  induction pre as [|b pre IH]; intros H; [reflexivity|].
  simpl in H. apply andb_true_iff in H. destruct H as [Hb Hp].
  cbn [app]. rewrite chunkText_ascii by exact Hb. rewrite IH by exact Hp. reflexivity.
Qed.

Lemma leadByte_two (l : N) :
  (194 <= l <= 223)%N ->
  Serial.leadByte l =
  inr {| Serial.codePoint := N.land l 31; Serial.bytesNeeded := 1;
         Serial.lower := 128; Serial.upper := 191 |}.
Proof.
  intros Hl. unfold Serial.leadByte.
  destruct (N.leb_spec l 127); [lia|].
  destruct (N.leb_spec 194 l), (N.leb_spec l 223); cbn [andb]; try lia. reflexivity.
Qed.

Lemma leadByte_continuation (c : N) :
  (128 <= c <= 191)%N -> Serial.leadByte c = inl Serial.replacement.
Proof.
  intros Hc. unfold Serial.leadByte.
  destruct (N.leb_spec c 127); [lia|].
  destruct (N.leb_spec 194 c), (N.leb_spec c 223); cbn [andb]; try lia;
  destruct (N.leb_spec 224 c), (N.leb_spec c 239); cbn [andb]; try lia;
  destruct (N.leb_spec 240 c), (N.leb_spec c 244); cbn [andb]; try lia;
  reflexivity.
Qed.

Lemma two_byte_value (l c : N) :
  (194 <= l <= 223)%N -> (128 <= c <= 191)%N ->
  N.lor (N.shiftl (N.land l 31) 6) (N.land c 63) = (64 * (l - 192) + (c - 128))%N.
Proof.
  intros Hl Hc.
  change 31%N with (N.ones 5). change 63%N with (N.ones 6).
  rewrite !N.land_ones, N.shiftl_mul_pow2.
  change (2 ^ 5)%N with 32%N. change (2 ^ 6)%N with 64%N.
  assert (El : (l mod 32 = l - 192)%N).
  { symmetry. apply (N.mod_unique l 32 6); lia. }
  assert (Ec : (c mod 64 = c - 128)%N).
  { symmetry. apply (N.mod_unique c 64 2); lia. }
  rewrite El, Ec.
  assert (Hland : N.land ((l - 192) * 64) (c - 128) = 0%N).
  { apply N.bits_inj_0. intros n. rewrite N.land_spec.
    destruct (N.lt_ge_cases n 6) as [Hn|Hn].
    + change 64%N with (2 ^ 6)%N.
      rewrite <- (N.shiftl_mul_pow2 _ 6), N.shiftl_spec_low by exact Hn.
      reflexivity.
    + assert (N.testbit (c - 128) n = false) as ->; [|apply andb_false_r].
      change 64%N with (2 ^ 6)%N in *.
      destruct (N.eq_dec (c - 128) 0) as [->|Hz]; [apply N.bits_0|].
      apply N.bits_above_log2. apply N.lt_le_trans with 6%N; [|exact Hn].
      apply N.log2_lt_pow2; [lia|]. change (2 ^ 6)%N with 64%N. lia. }
  rewrite <- (N.lxor_lor _ _ Hland), <- (N.add_nocarry_lxor _ _ Hland). lia.
Qed.

(** X17: each chunk is decoded on its own.  A two-byte UTF-8 sequence that
    arrives within one chunk, between printable ASCII, is forwarded as its
    character; when the chunk ends after its first byte, the first chunk is
    forwarded with [?] in its place and the next chunk with [?] for the
    second byte, so the character is lost. *)
Theorem split_sequence_becomes_question_marks (pre post : list N) (l c : N) :
  forallb plainByte pre = true -> forallb plainByte post = true ->
  (194 <= l <= 223)%N -> (128 <= c <= 191)%N ->
  Serial.chunkText (pre ++ l :: c :: post) =
    pre ++ (64 * (l - 192) + (c - 128))%N :: post /\
  Serial.chunkText (pre ++ [l]) = pre ++ [ch "?"] /\
  Serial.chunkText (c :: post) = ch "?" :: post.
Proof.
  intros Hpre Hpost Hl Hc.
  assert (Hpost' := chunkText_plain post Hpost).
  split; [|split].
  - rewrite chunkText_plain_app by exact Hpre. f_equal.
    unfold Serial.chunkText, Serial.decode in *. cbn [Serial.utf8Decode].
    rewrite (leadByte_two l Hl). cbn [app Serial.utf8Decode Serial.lower Serial.upper
                                        Serial.bytesNeeded Serial.codePoint].
    destruct (N.ltb_spec c 128); [lia|]. destruct (N.ltb_spec 191 c); [lia|].
    cbn [orb]. rewrite (two_byte_value l c Hl Hc).
    cbn [flat_map]. unfold Serial.codeUnits at 1.
    destruct (N.ltb_spec (64 * (l - 192) + (c - 128)) 65536); [|lia].
    rewrite clean_app, kept_unit by lia. rewrite Hpost'. reflexivity.
  - rewrite chunkText_plain_app by exact Hpre. f_equal.
    unfold Serial.chunkText, Serial.decode. cbn [Serial.utf8Decode].
    rewrite (leadByte_two l Hl). reflexivity.
  - unfold Serial.chunkText, Serial.decode in *. cbn [Serial.utf8Decode].
    rewrite (leadByte_continuation c Hc). cbn [app flat_map].
    change (Serial.codeUnits Serial.replacement) with [Serial.replacement].
    rewrite clean_app, Hpost'. reflexivity.
Qed.

Lemma split_sequence_becomes_question_marks_witness :
  Serial.chunkText [50; 53; 194; 176; 67]%N = [50; 53; 176; 67]%N /\
  Serial.chunkText [50; 53; 194]%N = [50; 53; 63]%N /\
  Serial.chunkText [176; 67]%N = [63; 67]%N.
Proof.
  apply (split_sequence_becomes_question_marks [50; 53]%N [67%N] 194 176);
    first [reflexivity | lia].
Defined.

(** ** Sending to the serial port *)






(** ** What is sent and read back *)

Lemma chunkText_two (l c : N) (rest : list N) :
  (194 <= l <= 223)%N -> (128 <= c <= 191)%N ->
  Serial.chunkText (l :: c :: rest) =
  (64 * (l - 192) + (c - 128))%N :: Serial.chunkText rest.
Proof.
  intros Hl Hc.
  unfold Serial.chunkText, Serial.decode. cbn [Serial.utf8Decode].
  rewrite (leadByte_two l Hl). cbn [app Serial.utf8Decode Serial.lower Serial.upper
                                      Serial.bytesNeeded Serial.codePoint].
  destruct (N.ltb_spec c 128); [lia|]. destruct (N.ltb_spec 191 c); [lia|].
  cbn [orb]. rewrite (two_byte_value l c Hl Hc).
  cbn [flat_map]. unfold Serial.codeUnits at 1.
  destruct (N.ltb_spec (64 * (l - 192) + (c - 128)) 65536); [|lia].
  rewrite clean_app, kept_unit by lia. reflexivity.
Qed.

Lemma carried_cases (c : N) :
  carried c = true -> plainByte c = true \/ (128 <= c <= 2047)%N.
Proof.
  unfold carried. intros H. apply orb_true_iff in H. destruct H as [H|H]; [left; exact H|].
  right. apply andb_true_iff in H. destruct H as [H1 H2].
  apply N.leb_le in H1, H2. lia.
Qed.

Lemma encode_cons (c : N) (rest : jstring) :
  (c < 55296)%N ->
  SerialIO.encode (c :: rest) = SerialIO.utf8Bytes c ++ SerialIO.encode rest.
Proof.
  intros Hc. cbn [SerialIO.encode].
  unfold SerialIO.isHighSurrogate, SerialIO.isLowSurrogate.
  destruct (N.leb_spec 55296 c); [lia|]. destruct (N.leb_spec 56320 c); [lia|].
  reflexivity.
Qed.

(** X19: a text of printable ASCII, tabs, line feeds, carriage returns and
    characters from U+0080 to U+07FF that [sendData] encodes is, when it
    comes back in one chunk, handed to the data callback as the same
    text. *)
Theorem sent_text_reads_back (data : jstring) :
  forallb carried data = true ->
  Serial.chunkText (SerialIO.encode data) = data.
Proof.
  induction data as [|c data IH]; intros H; [reflexivity|].
  cbn [forallb] in H. apply andb_true_iff in H. destruct H as [Hc Hd].
  specialize (IH Hd). destruct (carried_cases c Hc) as [Hp|Hr].
  - assert (Hr := plainByte_range c Hp).
    rewrite encode_cons by lia. unfold SerialIO.utf8Bytes.
    destruct (N.ltb_spec c 128); [|lia]. cbn [app].
    rewrite chunkText_ascii by exact Hp. rewrite IH. reflexivity.
  - rewrite encode_cons by lia. unfold SerialIO.utf8Bytes.
    destruct (N.ltb_spec c 128); [lia|]. destruct (N.ltb_spec c 2048); [|lia].
    cbn [app].
    assert (Hq : (c / 64 < 32)%N) by (apply N.Div0.div_lt_upper_bound; lia).
    assert (Hq2 : (2 <= c / 64)%N) by (apply N.div_le_lower_bound; lia).
    assert (Hm : (c mod 64 < 64)%N) by (apply N.mod_lt; lia).
    assert (E := N.div_mod c 64 ltac:(lia)).
    generalize dependent (c / 64)%N. generalize dependent (c mod 64)%N.
    intros m Hm q E Hq Hq2.
    rewrite chunkText_two by lia. rewrite IH. f_equal. lia.
Qed.

Lemma sent_text_reads_back_witness :
  Serial.chunkText (SerialIO.encode [50; 53; 176; 67; 13; 10]%N) =
  [50; 53; 176; 67; 13; 10]%N.
Proof. apply sent_text_reads_back. reflexivity. Defined.

(** ** The list of ports *)

Lemma digitsOf_inj (n m : N) : digitsOf n = digitsOf m -> n = m.
Proof.
  intros E. rewrite <- (digitsOf_value n), <- (digitsOf_value m), E. reflexivity.
Qed.

Lemma indexed_from_spec {A : Type} (l : list A) (i k : nat) :
  nth_error (indexed_from i l) k = option_map (fun a => (i + k, a)) (nth_error l k).
Proof.
  revert i k. induction l as [|a l IH]; intros i [|k]; cbn; try reflexivity.
  - rewrite Nat.add_0_r. reflexivity.
  - rewrite IH. rewrite <- plus_n_Sm. reflexivity.
Qed.

Lemma indexed_from_length {A : Type} (l : list A) (i : nat) :
  length (indexed_from i l) = length l.
Proof. revert i. induction l as [|a l IH]; intros i; cbn; [|rewrite IH]; reflexivity. Qed.

(** X20: [getAvailablePorts] returns one entry per port that the browser
    lists, in the browser's order, the entry at index [k] holding that port
    under the id [port_k]; two entries never share a [portId] or a
    [portName].  It returns the empty list when the API is missing or the
    browser refuses the list. *)
Theorem ports_listed_with_distinct_ids {P : Type} (ports : list P) :
  let entries := SerialIO.getAvailablePorts true (Some ports) in
  map (@SerialIO.portOf P) entries = ports /\
  (forall k e, nth_error entries k = Some e ->
               SerialIO.portId e = SerialIO.portIdOf k /\
               SerialIO.portName e = SerialIO.portNameOf k) /\
  (forall j k e1 e2, nth_error entries j = Some e1 -> nth_error entries k = Some e2 ->
                     SerialIO.portId e1 = SerialIO.portId e2 \/
                     SerialIO.portName e1 = SerialIO.portName e2 -> j = k) /\
  SerialIO.getAvailablePorts false (Some ports) = [] /\
  SerialIO.getAvailablePorts true (@None (list P)) = [].
Proof.
  intros entries.
  assert (Hnth : forall k e, nth_error entries k = Some e ->
                             SerialIO.portId e = SerialIO.portIdOf k /\
                             SerialIO.portName e = SerialIO.portNameOf k).
  { intros k e. unfold entries, SerialIO.getAvailablePorts.
    rewrite nth_error_map, indexed_from_spec.
    destruct (nth_error ports k); cbn; [|discriminate].
    intros [= <-]. cbn. auto. }
  split; [|split; [exact Hnth|split; [|split; reflexivity]]].
  - unfold entries, SerialIO.getAvailablePorts. rewrite map_map. cbn [SerialIO.portOf].
    clear. generalize 0. induction ports as [|p ports IH]; intros i; [reflexivity|].
    cbn [indexed_from map snd]. rewrite IH. reflexivity.
  - intros j k e1 e2 H1 H2 E.
    destruct (Hnth j e1 H1) as [I1 N1]. destruct (Hnth k e2 H2) as [I2 N2].
    rewrite I1, I2, N1, N2 in E. unfold SerialIO.portIdOf, SerialIO.portNameOf in E.
    destruct E as [E|E]; apply app_inv_head in E; apply digitsOf_inj in E; lia.
Qed.

(** ** Envelopes and the amplitude normalisation *)

Lemma objSet_keys (k : jstring) (v : JSValue) (o : JSObject) :
  In k (map fst o) -> map fst (objSet k v o) = map fst o.
Proof.
  induction o as [|[k' v'] o IH]; intros Hin; [contradiction|].
  cbn [objSet]. destruct (jstring_eqb k' k) eqn:E; [reflexivity|].
  cbn [map fst]. f_equal. apply IH. destruct Hin as [Hk|Hin]; [|exact Hin].
  cbn [fst] in Hk. subst k'. rewrite jstring_eqb_refl in E. discriminate.
Qed.

Lemma jstring_eqb_eq (a b : jstring) : jstring_eqb a b = true -> a = b.
Proof. unfold jstring_eqb. destruct (list_eq_dec N.eq_dec a b); [auto | discriminate]. Qed.

Lemma objGet_objSet_other (k k0 : jstring) (v : JSValue) (o : JSObject) :
  k0 <> k -> objGet k0 (objSet k v o) = objGet k0 o.
Proof.
  intros Hne. induction o as [|[k' v'] o IH]; cbn [objSet objGet].
  - destruct (jstring_eqb k k0) eqn:E; [|reflexivity].
    apply jstring_eqb_eq in E. congruence.
  - destruct (jstring_eqb k' k) eqn:E; cbn [objGet].
    + apply jstring_eqb_eq in E. subst k'.
      destruct (jstring_eqb k k0) eqn:E0; [|reflexivity].
      apply jstring_eqb_eq in E0. congruence.
    + rewrite IH. reflexivity.
Qed.

Lemma objGet_In (k : jstring) (o : JSObject) :
  objGet k o <> JUndefined -> In k (map fst o).
Proof.
  induction o as [|[k' v'] o IH]; cbn [objGet]; [congruence|].
  destruct (jstring_eqb k' k) eqn:E; intros H.
  - left. apply jstring_eqb_eq in E. exact E.
  - right. apply IH, H.
Qed.

(** X21: the amplitude normalisation that both transports apply to the
    copied payload changes nothing but the amplitude: the object keeps its
    keys in their order and the value of every other key; an amplitude that
    is not a string, or a string that [parseFloat] cannot read, leaves the
    object as it was; and normalising the result again changes nothing. *)
Theorem normalization_touches_only_amplitude (o : JSObject) :
  let o' := normalizeAmplitude (objGet (str "amplitude") o) o in
  map fst o' = map fst o /\
  (forall k, k <> str "amplitude" -> objGet k o' = objGet k o) /\
  ((forall s, objGet (str "amplitude") o = JStr s -> isNaN (parseFloat s) = true) ->
   o' = o) /\
  normalizeAmplitude (objGet (str "amplitude") o') o' = o'.
Proof.
  intros o'. unfold o', normalizeAmplitude.
  destruct (objGet (str "amplitude") o) as [| | | |s| |] eqn:Ea;
    try (repeat split; try reflexivity; rewrite Ea; reflexivity).
  destruct (isNaN (parseFloat s)) eqn:En; cbn [negb].
  - repeat split; try reflexivity. rewrite Ea, En. reflexivity.
  - split; [|split; [|split]].
    + apply objSet_keys, objGet_In. rewrite Ea. discriminate.
    + intros k Hk. apply objGet_objSet_other. exact Hk.
    + intros H. specialize (H s eq_refl). congruence.
    + rewrite objGet_objSet. reflexivity.
Qed.

Lemma envelope_samples (JSON_parse : jstring -> option JSValue)
    (h : Handlers) (now : Z) (text : jstring) :
  (startsWith text (str "{") || startsWith text (str "[")) = true ->
  emittedSamples (onmessage JSON_parse h now text) = [].
Proof. intros H. rewrite samples_onmessage, H. reflexivity. Qed.

(** X22: a text that starts with [{] or [[] is only ever handled as JSON:
    no sample is built from it, also when it holds numbers and commas.
    When it parses to an array, or to an object that is not an
    ['earthquake-data'] envelope with a truthy payload, the handler calls
    no callback and writes no [console.warn] and no [console.error] line;
    the [console.log] line of the parsed value, which the trace does not
    record, is all it leaves. *)
Theorem json_text_is_never_a_frame (JSON_parse : jstring -> option JSValue)
    (h : Handlers) (now : Z) (text : jstring) :
  (startsWith text (str "{") || startsWith text (str "[")) = true ->
  emittedSamples (onmessage JSON_parse h now text) = [] /\
  (forall l, JSON_parse text = Some (JArr l) -> onmessage JSON_parse h now text = []) /\
  (forall o, JSON_parse text = Some (JObj o) ->
             objGet (str "type") o <> JStr (str "earthquake-data") \/
             truthy (objGet (str "payload") o) = false ->
             onmessage JSON_parse h now text = []).
Proof.
  intros Hs. split; [apply envelope_samples, Hs|].
  split.
  - intros l Hp. rewrite onmessage_envelope by exact Hs.
    unfold onEnvelope. rewrite Hp. reflexivity.
  - intros o Hp Hno. rewrite onmessage_envelope by exact Hs.
    unfold onEnvelope. rewrite Hp. cbn [getProp].
    destruct (objGet (str "type") o) as [| | | |t| |]; try reflexivity.
    destruct (jstring_eqb t (str "earthquake-data")) eqn:E; [|reflexivity].
    apply jstring_eqb_eq in E. subst t.
    destruct Hno as [Hno|Hno]; [congruence|]. rewrite Hno. reflexivity.
Qed.

Lemma json_text_is_never_a_frame_witness :
  emittedSamples (onmessage JSON_parse_text (listening (quietCallback 0)) 1000
                            (str "[1.5,2.5]")) = [] /\
  onmessage JSON_parse_text (listening (quietCallback 0)) 1000 (str "[1.5,2.5]") = [].
Proof.
  destruct (json_text_is_never_a_frame JSON_parse_text (listening (quietCallback 0)) 1000
              (str "[1.5,2.5]") eq_refl) as (H1 & H2 & _).
  split; [exact H1|]. eapply H2. reflexivity.
Defined.

(** ** Opening and closing without reading *)

(** X23: on a closed port on which no read loop was started, [openPort]
    followed by [closePort] succeeds both times and gives back the state
    before, with [keepReading] false and [this.port] unset: the service
    can open and close the port again and again as long as it does not
    read. *)
Theorem open_close_round_trip (st : Serial.Service) (k : nat) :
  Serial.portOpened (Serial.platform st) = false ->
  Serial.lockedBy (Serial.platform st) = None ->
  Serial.reader st = None -> Serial.readLoopPromise st = None ->
  let closed := {| Serial.port := false; Serial.reader := None;
                   Serial.readLoopPromise := None;
                   Serial.dataCallback := Serial.dataCallback st;
                   Serial.errorCallback := Serial.errorCallback st;
                   Serial.keepReading := false;
                   Serial.platform := Serial.platform st |} in
  snd (Serial.openPort true st) = Serial.succeeded /\
  (forall next, Serial.closePort next (fst (Serial.openPort true st)) =
                Some (closed, Serial.succeeded, [])) /\
  Serial.run (concat (repeat [Serial.OpOpen true; Serial.OpClose None] (S k))) st = closed.
Proof.
  intros Ho Hl Hr Hpr closed.
  assert (Hone : forall s, Serial.portOpened (Serial.platform s) = false ->
                           Serial.lockedBy (Serial.platform s) = None ->
                           Serial.reader s = None -> Serial.readLoopPromise s = None ->
                           forall next,
                             Serial.closePort next (fst (Serial.openPort true s)) =
                             Some ({| Serial.port := false; Serial.reader := None;
                                      Serial.readLoopPromise := None;
                                      Serial.dataCallback := Serial.dataCallback s;
                                      Serial.errorCallback := Serial.errorCallback s;
                                      Serial.keepReading := false;
                                      Serial.platform := Serial.platform s |},
                                   Serial.succeeded, [])).
  { intros s Hso Hsl Hsr Hsp next. unfold Serial.openPort. rewrite Hso. cbn [fst].
    unfold Serial.closePort, Serial.closeAfterLoop, Serial.close. cbn.
    rewrite Hsp, Hsr. cbn. rewrite Hsl. cbn.
    destruct s as [p0 r0 pr0 d0 e0 k0 [po lb nr rl cl]]. cbn in *. subst.
    reflexivity. }
  split; [unfold Serial.openPort; rewrite Ho; reflexivity|].
  split; [apply Hone; assumption|].
  assert (Hstep : forall s, Serial.portOpened (Serial.platform s) = false ->
                            Serial.lockedBy (Serial.platform s) = None ->
                            Serial.reader s = None -> Serial.readLoopPromise s = None ->
                            forall ops,
                              Serial.run (Serial.OpOpen true :: Serial.OpClose None :: ops) s =
                              Serial.run ops
                                {| Serial.port := false; Serial.reader := None;
                                   Serial.readLoopPromise := None;
                                   Serial.dataCallback := Serial.dataCallback s;
                                   Serial.errorCallback := Serial.errorCallback s;
                                   Serial.keepReading := false;
                                   Serial.platform := Serial.platform s |}).
  { intros s Hso Hsl Hsr Hsp ops. cbn [Serial.run Serial.step].
    rewrite (Hone s Hso Hsl Hsr Hsp None). reflexivity. }
  cbn [repeat concat app]. rewrite (Hstep st Ho Hl Hr Hpr). fold closed.
  assert (Hc : forall j, Serial.run (concat (repeat [Serial.OpOpen true; Serial.OpClose None] j))
                           closed = closed).
  { induction j as [|j IH]; [reflexivity|].
    cbn [repeat concat app]. rewrite (Hstep closed Ho Hl eq_refl eq_refl). exact IH. }
  apply Hc.
Qed.

Lemma open_close_round_trip_witness :
  Serial.run [Serial.OpOpen true; Serial.OpClose None;
              Serial.OpOpen true; Serial.OpClose None] Serial.initialService =
  Serial.initialService.
Proof.
  exact (proj2 (proj2 (open_close_round_trip Serial.initialService 1
                         eq_refl eq_refl eq_refl eq_refl))).
Defined.

(** ** The place of each sample among the points of its waveform *)

Lemma pointsFrom_places now w m n k l :
  map placeOf (pointsFrom now w m n k l) =
  map (placeAt now n)
      (filter (fun i => negb (isNaN (parseFloat (nth (i - k) l [])))) (seq k (length l))) /\
  map amplitude (pointsFrom now w m n k l) =
  map (fun i => parseFloat (nth (i - k) l []))
      (filter (fun i => negb (isNaN (parseFloat (nth (i - k) l [])))) (seq k (length l))).
Proof.
  revert k. induction l as [|p l IH]; intros k; [split; reflexivity|].
  rewrite pointsFrom_cons.
  change (seq k (length (p :: l))) with (k :: seq (S k) (length l)).
  cbn [filter].
  assert (Hext : forall (A : Type) (f : jstring -> A),
             filter (fun i => negb (isNaN (parseFloat (nth (i - k) (p :: l) []))))
                    (seq (S k) (length l)) =
             filter (fun i => negb (isNaN (parseFloat (nth (i - S k) l []))))
                    (seq (S k) (length l)) /\
             map (fun i => f (nth (i - k) (p :: l) []))
                 (filter (fun i => negb (isNaN (parseFloat (nth (i - S k) l []))))
                         (seq (S k) (length l))) =
             map (fun i => f (nth (i - S k) l []))
                 (filter (fun i => negb (isNaN (parseFloat (nth (i - S k) l []))))
                         (seq (S k) (length l)))).
  { intros A f.
    assert (Hn : forall i, In i (seq (S k) (length l)) ->
                           nth (i - k) (p :: l) [] = nth (i - S k) l []).
    { intros i Hi. apply in_seq in Hi.
      replace (i - k) with (S (i - S k)) by lia. reflexivity. }
    split.
    - apply filter_ext_in. intros i Hi. rewrite (Hn i Hi). reflexivity.
    - apply map_ext_in. intros i Hi. apply filter_In in Hi. destruct Hi as [Hi _].
      rewrite (Hn i Hi). reflexivity. }
  destruct (Hext Number parseFloat) as [Ef Em]. rewrite Ef. clear Hext.
  destruct (IH (S k)) as [IH1 IH2].
  unfold mapPoint. cbn [fst snd].
  rewrite Nat.sub_diag. change (nth 0 (p :: l) []) with p.
  destruct (isNaN (parseFloat p)) eqn:E; cbn [negb].
  - split; [exact IH1 | rewrite IH2, Em; reflexivity].
  - cbn [map]. rewrite Nat.sub_diag. change (nth 0 (p :: l) []) with p. split.
    + rewrite IH1. reflexivity.
    + rewrite IH2, Em. reflexivity.
Qed.

Lemma dataPoints_places now w m pts :
  map placeOf (dataPoints now w m pts) = placesOf now pts /\
  map amplitude (dataPoints now w m pts) =
    map (fun i => parseFloat (nth i pts [])) (readableIndices pts).
Proof.
  rewrite dataPoints_from. destruct (pointsFrom_places now w m (length pts) 0 pts) as [H1 H2].
  unfold placesOf, readableIndices.
  assert (Ef : filter (fun i => negb (isNaN (parseFloat (nth (i - 0) pts []))))
                      (seq 0 (length pts)) =
               filter (fun i => negb (isNaN (parseFloat (nth i pts []))))
                      (seq 0 (length pts))).
  { apply filter_ext. intros i. rewrite Nat.sub_0_r. reflexivity. }
  rewrite Ef in H1, H2. split; [exact H1|].
  rewrite H2. apply map_ext. intros i. rewrite Nat.sub_0_r. reflexivity.
Qed.

Lemma unlabeled_samples (JSON_parse : jstring -> option JSValue)
    (h : Handlers) (cb : Callback) (now : Z) (ts : list jstring) :
  onEarthquakeData h = Some cb ->
  Forall commaFree ts -> 2 <= length ts ->
  startsWith (join (str ",") ts) (str "{") = false ->
  startsWith (join (str ",") ts) (str "[") = false ->
  startsWith (join (str ",") ts) (str "X") = false ->
  matchMetaPrefix (join (str ",") ts) = false ->
  emittedSamples (onmessage JSON_parse h now (join (str ",") ts)) =
  dataPoints now None emptyMeta (pointsOf ts).
Proof.
  intros Hcb Hts Hlen Hbrace Hbracket HX Hmeta.
  rewrite samples_onmessage, Hbrace, Hbracket. cbn [orb].
  destruct ts as [|t [|t2 l]]; [cbn in Hlen; lia | cbn in Hlen; lia|].
  assert (includes (join (str ",") (t :: t2 :: l)) (str ",") = true) as ->.
  { change (join (str ",") (t :: t2 :: l))
      with (t ++ str "," ++ join (str ",") (t2 :: l)).
    apply includes_here. }
  rewrite samples_comma, Hcb, (readMetaPrefix_none _ Hmeta), HX.
  rewrite points_join by assumption. reflexivity.
Qed.

Lemma optionalWave_places now c m y :
  map placeOf (optionalWave now c m y) = optionalPlaces now y.
Proof.
  destruct y as [pts|]; [|reflexivity]. apply dataPoints_places.
Qed.

(** C5, as the handler has it: a waveform of [n] points gives one sample
    for each point that [parseFloat] reads as a number, in order; the
    sample made from the point at index [i] among all [n] points,
    unreadable points included, records [batchIndex = i] and
    [batchSize = n] and is dated [A - (n - 1 - i) * 10] for the arrival time
    [A] of its frame, the same for all the waveforms of the frame; a single
    value is dated [A].  This holds of the samples of every waveform that
    the handler reads from a comma-separated message, and so of a batch of
    comma-joined points.  Within a waveform the dates increase and none is
    later than [A].  When every point of a waveform reads as a number, its
    samples are as many as its points, sample [i] is dated
    [A - (n - 1 - i) * 10], and the last one is dated [A]. *)
Theorem timestamps_follow_batch_position
    (JSON_parse : jstring -> option JSValue) (h : Handlers) (now : Z) (data : jstring) :
  let ss := emittedSamples (onmessage JSON_parse h now data) in
  Forall (sampleTimeOk now) ss /\
  Forall (fun s => (timestamp s <= now)%Z) ss /\
  (forall c, StronglySorted Z.lt (map timestamp (filter (hasChannel c) ss))) /\
  (forall w meta pts,
      Forall numeric pts ->
      map timestamp (dataPoints now w meta pts) =
      map (fun i => (now - (Z.of_nat (length pts) - 1 - Z.of_nat i) * 10)%Z)
          (seq 0 (length pts)) /\
      (pts <> [] ->
       nth_error (map timestamp (dataPoints now w meta pts)) (length pts - 1) = Some now)) /\
  (forall w meta pts,
      map placeOf (dataPoints now w meta pts) = placesOf now pts /\
      map amplitude (dataPoints now w meta pts) =
        map (fun i => parseFloat (nth i pts [])) (readableIndices pts)) /\
  (forall c meta y,
      map placeOf (optionalWave now c meta y) = optionalPlaces now y) /\
  (forall cb,
      onEarthquakeData h = Some cb ->
      (startsWith data (str "{") || startsWith data (str "[")) = false ->
      includes data (str ",") = true ->
      map placeOf ss =
      let (meta0, parsedMessage) := readMetaPrefix data in
      if startsWith parsedMessage (str "X") then
        match splitWaveforms meta0 parsedMessage with
        | Throw => []
        | Ok (meta, x, y, z) =>
            placesOf now x ++ optionalPlaces now y ++ optionalPlaces now z
        end
      else placesOf now (points parsedMessage)) /\
  (forall cb ts,
      onEarthquakeData h = Some cb ->
      Forall commaFree ts -> 2 <= length ts ->
      startsWith (join (str ",") ts) (str "{") = false ->
      startsWith (join (str ",") ts) (str "[") = false ->
      startsWith (join (str ",") ts) (str "X") = false ->
      matchMetaPrefix (join (str ",") ts) = false ->
      map placeOf (emittedSamples (onmessage JSON_parse h now (join (str ",") ts))) =
      placesOf now (pointsOf ts)).
Proof.
  intros ss.
  pose proof (onmessage_delivered JSON_parse h now data) as Hd. fold ss in Hd.
  pose proof (delivered_timeOk now ss Hd) as Ht.
  split; [|split; [|split; [|split; [|split; [|split; [|split]]]]]].
  - eapply Forall_impl; [|exact Ht]. intros s Hs. apply Hs.
  - eapply Forall_impl; [|exact Ht]. intros s Hs. apply Hs.
  - intros c. apply (delivered_sorted now). exact Hd.
  - intros w meta pts Hn.
    assert (E : map timestamp (dataPoints now w meta pts) =
                map (fun i => (now - (Z.of_nat (length pts) - 1 - Z.of_nat i) * 10)%Z)
                    (seq 0 (length pts))).
    { rewrite dataPoints_from, pointsFrom_numeric by assumption. reflexivity. }
    split; [exact E|]. intros Hne. rewrite E.
    assert (0 < length pts) by (destruct pts; [congruence | simpl; lia]).
    rewrite nth_error_map, nth_error_seq.
    destruct (Nat.ltb_spec (length pts - 1) (length pts)) as [_|]; [|lia].
    simpl. f_equal. lia.
  - intros w meta pts. apply dataPoints_places.
  - intros c meta y. apply optionalWave_places.
  - intros cb Hcb Hj Hc. unfold ss.
    rewrite samples_onmessage, Hj, Hc, samples_comma, Hcb.
    destruct (readMetaPrefix data) as [meta0 pm].
    destruct (startsWith pm (str "X")); [|apply dataPoints_places].
    destruct (splitWaveforms meta0 pm) as [[[[meta x] y] z]|]; [|reflexivity].
    rewrite !map_app, !optionalWave_places.
    rewrite (proj1 (dataPoints_places now (Some ChX) meta x)). reflexivity.
  - intros cb ts Hcb Hts Hlen H1 H2 H3 H4.
    rewrite (unlabeled_samples JSON_parse h cb now ts Hcb Hts Hlen H1 H2 H3 H4).
    apply dataPoints_places.
Qed.

Lemma timestamps_follow_batch_position_witness :
  map placeOf
      (emittedSamples (onmessage JSON_parse_text (listening (quietCallback 0)) 1000
                                 (str "1.0,abc,2.0,xyz")))
  = [(970%Z, Some 0, Some 4); (990%Z, Some 2, Some 4)] /\
  map placeOf
      (emittedSamples (onmessage JSON_parse_text (listening (quietCallback 0)) 1000
                                 (str "X1.0,abc,2.0,Yfoo,3.0")))
  = [(980%Z, Some 0, Some 3); (1000%Z, Some 2, Some 3); (1000%Z, Some 1, Some 2)].
Proof.
  split.
  - destruct (timestamps_follow_batch_position JSON_parse_text
                (listening (quietCallback 0)) 1000 (str "1.0,abc,2.0,xyz"))
      as (_ & _ & _ & _ & _ & _ & _ & H).
    apply (H (quietCallback 0) [str "1.0"; str "abc"; str "2.0"; str "xyz"]).
    + reflexivity.
    + repeat constructor; unfold commaFree; simpl; intuition discriminate.
    + simpl. lia.
    + reflexivity.
    + reflexivity.
    + reflexivity.
    + reflexivity.
  - destruct (timestamps_follow_batch_position JSON_parse_text
                (listening (quietCallback 0)) 1000 (str "X1.0,abc,2.0,Yfoo,3.0"))
      as (_ & _ & _ & _ & _ & _ & H & _).
    exact (H (quietCallback 0) eq_refl eq_refl eq_refl).
Defined.

(** ** Batches of written points *)









(** ** Every chunk, piece by piece *)

Lemma lor_shift6 (x c : N) :
  (128 <= c <= 191)%N ->
  N.lor (N.shiftl x 6) (N.land c 63) = (x * 64 + (c - 128))%N.
Proof.
  intros Hc.
  change 63%N with (N.ones 6). rewrite N.land_ones, N.shiftl_mul_pow2.
  assert (Ec : (c mod 2 ^ 6 = c - 128)%N).
  { symmetry. apply (N.mod_unique c (2 ^ 6) 2); change (2 ^ 6)%N with 64%N; lia. }
  rewrite Ec.
  assert (Hland : N.land (x * 2 ^ 6) (c - 128) = 0%N).
  { apply N.bits_inj_0. intros n. rewrite N.land_spec.
    destruct (N.lt_ge_cases n 6) as [Hn|Hn].
    - rewrite <- (N.shiftl_mul_pow2 _ 6), N.shiftl_spec_low by exact Hn. reflexivity.
    - assert (N.testbit (c - 128) n = false) as ->; [|apply andb_false_r].
      destruct (N.eq_dec (c - 128) 0) as [->|Hz]; [apply N.bits_0|].
      apply N.bits_above_log2. apply N.lt_le_trans with 6%N; [|exact Hn].
      apply N.log2_lt_pow2; [lia|]. change (2 ^ 6)%N with 64%N. lia. }
  rewrite <- (N.lxor_lor _ _ Hland), <- (N.add_nocarry_lxor _ _ Hland).
  change (2 ^ 6)%N with 64%N. reflexivity.
Qed.

Lemma land_low (l k base : N) (bits : N) :
  (base = k * 2 ^ bits)%N -> (base <= l < base + 2 ^ bits)%N ->
  N.land l (N.ones bits) = (l - base)%N.
Proof.
  intros Eb Hl. rewrite N.land_ones. symmetry.
  apply (N.mod_unique l (2 ^ bits) k); [lia|]. rewrite N.mul_comm, <- Eb. lia.
Qed.

Lemma leadByte_lead (l : N) :
  (194 <= l <= 244)%N ->
  Serial.leadByte l =
  inr {| Serial.codePoint := l - leadBase l; Serial.bytesNeeded := needed l;
         Serial.lower := firstLow l; Serial.upper := firstHigh l |}.
Proof.
  intros Hl. unfold Serial.leadByte, leadBase, needed, firstLow, firstHigh.
  destruct (N.leb_spec l 127); [lia|].
  destruct (N.leb_spec l 223) as [H223|H223].
  - destruct (N.leb_spec 194 l); [|lia]. cbn [andb].
    change 31%N with (N.ones 5). rewrite (land_low l 6 192 5) by (first [reflexivity | cbn; lia]).
    destruct (N.eqb_spec l 224); [lia|]. destruct (N.eqb_spec l 240); [lia|].
    destruct (N.eqb_spec l 237); [lia|]. destruct (N.eqb_spec l 244); [lia|].
    reflexivity.
  - destruct (N.leb_spec 194 l); cbn [andb]; [|lia].
    destruct (N.leb_spec l 239) as [H239|H239].
    + destruct (N.leb_spec 224 l); [|lia]. cbn [andb].
      change 15%N with (N.ones 4).
      rewrite (land_low l 14 224 4) by (first [reflexivity | cbn; lia]).
      destruct (N.eqb_spec l 240); [lia|]. destruct (N.eqb_spec l 244); [lia|].
      destruct (N.eqb_spec l 224), (N.eqb_spec l 237); try lia; reflexivity.
    + destruct (N.leb_spec 224 l); cbn [andb]; [|lia].
      destruct (N.leb_spec 240 l); [|lia]. destruct (N.leb_spec l 244); [|lia].
      cbn [andb]. change 7%N with (N.ones 3).
      rewrite (land_low l 30 240 3) by (first [reflexivity | cbn; lia]).
      destruct (N.eqb_spec l 224); [lia|]. destruct (N.eqb_spec l 237); [lia|].
      destruct (N.eqb_spec l 240), (N.eqb_spec l 244); try lia; reflexivity.
Qed.

Lemma firstRange (l : N) : (128 <= firstLow l)%N /\ (firstHigh l <= 191)%N.
Proof.
  unfold firstLow, firstHigh.
  destruct (l =? 224)%N, (l =? 240)%N, (l =? 237)%N, (l =? 244)%N; lia.
Qed.

Lemma fresh_after_replacement (b : N) (rest : list N) :
  match Serial.leadByte b with
  | inl c => [Serial.replacement] ++ c :: Serial.utf8Decode None rest
  | inr s => [Serial.replacement] ++ Serial.utf8Decode (Some s) rest
  end = Serial.replacement :: Serial.utf8Decode None (b :: rest).
Proof. cbn [Serial.utf8Decode]. destruct (Serial.leadByte b); reflexivity. Qed.

(** The decoder inside a sequence: [cs] are the bytes that continue it.  *)
Lemma utf8Decode_tail (cs rest : list N) (s : Serial.Utf8) :
  match cs with
  | [] => True
  | c :: more => (Serial.lower s <= c <= Serial.upper s)%N /\ Forall continuation more
  end ->
  (length cs = Serial.bytesNeeded s -> 1 <= Serial.bytesNeeded s ->
   Serial.utf8Decode (Some s) (cs ++ rest) =
   fold_left (fun acc c => N.lor (N.shiftl acc 6) (N.land c 63)) cs (Serial.codePoint s)
   :: Serial.utf8Decode None rest) /\
  (length cs < Serial.bytesNeeded s ->
   match rest with
   | [] => True
   | b :: _ => ~ match cs with
                 | [] => (Serial.lower s <= b <= Serial.upper s)%N
                 | _ => continuation b
                 end
   end ->
   Serial.utf8Decode (Some s) (cs ++ rest) =
   Serial.replacement :: Serial.utf8Decode None rest).
Proof.
  revert s. induction cs as [|c more IH]; intros s Hv.
  - split; [cbn; intros; lia|]. intros _ Hrest. cbn [app].
    destruct rest as [|b r]; [reflexivity|].
    cbn [Serial.utf8Decode].
    assert (((b <? Serial.lower s) || (Serial.upper s <? b))%N = true) as ->.
    { destruct (N.ltb_spec b (Serial.lower s)); [reflexivity|].
      destruct (N.ltb_spec (Serial.upper s) b); [reflexivity|]. exfalso. apply Hrest. lia. }
    apply fresh_after_replacement.
  - destruct Hv as [Hc Hmore]. cbn [app Serial.utf8Decode].
    assert (((c <? Serial.lower s) || (Serial.upper s <? c))%N = false) as ->.
    { destruct (N.ltb_spec c (Serial.lower s)); [lia|].
      destruct (N.ltb_spec (Serial.upper s) c); [lia|]. reflexivity. }
    set (c' := N.lor (N.shiftl (Serial.codePoint s) 6) (N.land c 63)).
    assert (Hv' : forall k, match more with
                            | [] => True
                            | c0 :: more0 =>
                                (Serial.lower {| Serial.codePoint := c'; Serial.bytesNeeded := k;
                                                 Serial.lower := 128; Serial.upper := 191 |}
                                 <= c0 <=
                                 Serial.upper {| Serial.codePoint := c'; Serial.bytesNeeded := k;
                                                 Serial.lower := 128; Serial.upper := 191 |})%N
                                /\ Forall continuation more0
                            end).
    { intros k. destruct more as [|c0 more0]; [exact I|].
      inversion Hmore as [|? ? H0 Hm]; subst. split; [exact H0 | exact Hm]. }
    cbn [length fold_left]. fold c'.
    destruct (Serial.bytesNeeded s) as [|[|k]] eqn:En.
    + split; intros; lia.
    + split; [|intros; lia]. intros Hlen _.
      destruct more; [reflexivity | cbn in Hlen; lia].
    + destruct (IH {| Serial.codePoint := c'; Serial.bytesNeeded := S k;
                      Serial.lower := 128; Serial.upper := 191 |} (Hv' (S k)))
        as [IH1 IH2].
      cbn [Serial.bytesNeeded Serial.codePoint Serial.lower Serial.upper] in IH1, IH2.
      split.
      * intros Hlen _. apply IH1; lia.
      * intros Hlen Hrest. apply IH2; [lia|].
        destruct rest as [|b r]; [exact I|].
        destruct more; exact Hrest.
Qed.

Lemma fold_values (cs : list N) (a : N) :
  Forall continuation cs ->
  fold_left (fun acc c => N.lor (N.shiftl acc 6) (N.land c 63)) cs a =
  fold_left (fun acc c => (acc * 64 + (c - 128))%N) cs a.
Proof.
  intros H. revert a. induction H as [|c cs Hc _ IH]; intros a; [reflexivity|].
  cbn [fold_left]. rewrite (lor_shift6 a c Hc). apply IH.
Qed.

Lemma validTail_all (l : N) (cs : list N) : validTail l cs -> Forall continuation cs.
Proof.
  destruct cs as [|c more]; [constructor|]. intros [Hc Hm].
  destruct (firstRange l). constructor; [unfold continuation; lia | exact Hm].
Qed.

Lemma utf8Decode_sequence (l : N) (cs rest : list N) :
  pieceOk (Sequence l cs) ->
  Serial.utf8Decode None (l :: cs ++ rest) = seqValue l cs :: Serial.utf8Decode None rest.
Proof.
  intros (Hl & Hlen & Hv). cbn [Serial.utf8Decode]. rewrite (leadByte_lead l Hl).
  cbn [app].
  destruct (utf8Decode_tail cs rest
              {| Serial.codePoint := l - leadBase l; Serial.bytesNeeded := needed l;
                 Serial.lower := firstLow l; Serial.upper := firstHigh l |}) as [H _].
  { exact Hv. }
  cbn [Serial.bytesNeeded Serial.codePoint] in H. rewrite H.
  - rewrite (fold_values cs _ (validTail_all l cs Hv)). reflexivity.
  - exact Hlen.
  - unfold needed. destruct (l <=? 223)%N; [lia|]. destruct (l <=? 239)%N; lia.
Qed.

Lemma utf8Decode_broken (l : N) (cs rest : list N) :
  pieceOk (Broken l cs) ->
  match rest with
  | [] => True
  | b :: _ => ~ continues l cs b
  end ->
  Serial.utf8Decode None (l :: cs ++ rest) =
  Serial.replacement :: Serial.utf8Decode None rest.
Proof.
  intros (Hl & Hlen & Hv) Hrest. cbn [Serial.utf8Decode]. rewrite (leadByte_lead l Hl).
  cbn [app].
  destruct (utf8Decode_tail cs rest
              {| Serial.codePoint := l - leadBase l; Serial.bytesNeeded := needed l;
                 Serial.lower := firstLow l; Serial.upper := firstHigh l |}) as [_ H].
  { exact Hv. }
  apply H; [exact Hlen|]. destruct rest as [|b r]; [exact I|]. exact Hrest.
Qed.

Lemma seqValue_range (l : N) (cs : list N) :
  pieceOk (Sequence l cs) -> (128 <= seqValue l cs <= 1114111)%N.
Proof.
  intros (Hl & Hlen & Hv). unfold seqValue.
  unfold needed in Hlen. unfold validTail, firstLow, firstHigh in Hv. unfold leadBase.
  destruct (N.leb_spec l 223).
  - destruct cs as [|c1 [|c2 cs]]; try (cbn in Hlen; lia).
    destruct Hv as [Hc _]. cbn [fold_left].
    destruct (N.eqb_spec l 224); [lia|]. destruct (N.eqb_spec l 240); [lia|].
    destruct (N.eqb_spec l 237); [lia|]. destruct (N.eqb_spec l 244); [lia|]. lia.
  - destruct (N.leb_spec l 239).
    + destruct cs as [|c1 [|c2 [|c3 cs]]]; try (cbn in Hlen; lia).
      destruct Hv as [Hc Hm]. inversion Hm as [|? ? H2 _]; subst.
      unfold continuation in H2. cbn [fold_left].
      destruct (N.eqb_spec l 240); [lia|]. destruct (N.eqb_spec l 244); [lia|].
      destruct (N.eqb_spec l 224), (N.eqb_spec l 237); lia.
    + destruct cs as [|c1 [|c2 [|c3 [|c4 cs]]]]; try (cbn in Hlen; lia).
      destruct Hv as [Hc Hm]. inversion Hm as [|? ? H2 Hm']; subst.
      inversion Hm' as [|? ? H3 _]; subst.
      unfold continuation in H2, H3. cbn [fold_left].
      destruct (N.eqb_spec l 224); [lia|]. destruct (N.eqb_spec l 237); [lia|].
      destruct (N.eqb_spec l 240), (N.eqb_spec l 244); lia.
Qed.

Lemma chunkText_cons (c : N) (rest : list N) (out : jstring) :
  Serial.stripControls (Serial.replaceReplacement (Serial.codeUnits c)) = out ->
  Serial.stripControls
    (Serial.replaceReplacement
       (flat_map Serial.codeUnits (c :: Serial.utf8Decode None rest))) =
  out ++ Serial.chunkText rest.
Proof.
  intros <-. cbn [flat_map]. rewrite clean_app. reflexivity.
Qed.

Lemma high_unit (c : N) :
  (128 <= c)%N -> c <> Serial.replacement ->
  Serial.stripControls (Serial.replaceReplacement [c]) = [c].
Proof.
  intros Hc Hr. cbn [Serial.replaceReplacement map Serial.stripControls filter].
  destruct (N.eqb_spec c Serial.replacement) as [E|_]; [congruence|].
  assert (Serial.strippedControl c = false) as ->; [|reflexivity].
  unfold Serial.strippedControl.
  repeat match goal with
         | |- (_ || _) = false => apply orb_false_iff; split
         | |- (_ && _) = false => apply andb_false_iff
         end;
    try (apply N.leb_gt; lia); try (apply N.eqb_neq; lia).
  right. apply N.leb_gt. lia.
Qed.

Lemma clean_codeUnits (v : N) :
  (128 <= v <= 1114111)%N ->
  Serial.stripControls (Serial.replaceReplacement (Serial.codeUnits v)) =
  if (v =? Serial.replacement)%N then [ch "?"] else Serial.codeUnits v.
Proof.
  intros Hv. unfold Serial.codeUnits.
  destruct (N.ltb_spec v 65536) as [Hlt|Hge].
  - destruct (N.eqb_spec v Serial.replacement) as [->|Hne]; [reflexivity|].
    apply high_unit; [lia | exact Hne].
  - destruct (N.eqb_spec v Serial.replacement) as [E|_];
      [unfold Serial.replacement in E; lia|].
    assert (Hs : (N.shiftr (v - 65536) 10 < 1024)%N).
    { rewrite N.shiftr_div_pow2. apply N.Div0.div_lt_upper_bound.
      change (2 ^ 10)%N with 1024%N. lia. }
    assert (Hm : (N.land (v - 65536) 1023 < 1024)%N).
    { change 1023%N with (N.ones 10). rewrite N.land_ones.
      apply N.mod_lt. discriminate. }
    change [55296 + N.shiftr (v - 65536) 10; 56320 + N.land (v - 65536) 1023]%N
      with ([55296 + N.shiftr (v - 65536) 10] ++ [56320 + N.land (v - 65536) 1023])%N.
    rewrite clean_app, !high_unit; try reflexivity; unfold Serial.replacement; lia.
Qed.

Lemma chunkText_piece (p : Piece) (rest : list N) :
  pieceOk p ->
  match p with
  | Broken l cs => match rest with [] => True | b :: _ => ~ continues l cs b end
  | _ => True
  end ->
  Serial.chunkText (pieceBytes p ++ rest) = pieceText p ++ Serial.chunkText rest.
Proof.
  intros Hp Hnext. destruct p as [b|b|l cs|l cs]; cbn [pieceBytes pieceText app].
  - cbn [pieceOk] in Hp. unfold Serial.chunkText at 1, Serial.decode.
    cbn [Serial.utf8Decode]. unfold Serial.leadByte.
    destruct (N.leb_spec b 127); [|lia]. cbn [app].
    apply chunkText_cons. unfold Serial.codeUnits.
    destruct (N.ltb_spec b 65536); [|lia].
    cbn [Serial.replaceReplacement map Serial.stripControls filter].
    destruct (N.eqb_spec b Serial.replacement) as [E|_];
      [unfold Serial.replacement in E; lia|].
    destruct (Serial.strippedControl b); reflexivity.
  - cbn [pieceOk] in Hp. unfold Serial.chunkText at 1, Serial.decode.
    cbn [Serial.utf8Decode].
    assert (Serial.leadByte b = inl Serial.replacement) as ->.
    { unfold invalidLead in Hp. unfold Serial.leadByte.
      assert (Hr : (128 <= b <= 193 \/ 245 <= b)%N).
      { repeat match goal with
               | H : (_ || _) = true |- _ => apply orb_true_iff in H; destruct H
               | H : (_ && _) = true |- _ => apply andb_true_iff in H; destruct H
               | H : (_ <=? _)%N = true |- _ => apply N.leb_le in H
               end; lia. }
      destruct (N.leb_spec b 127); [lia|].
      destruct (N.leb_spec 194 b), (N.leb_spec b 223); cbn [andb]; try lia;
      destruct (N.leb_spec 224 b), (N.leb_spec b 239); cbn [andb]; try lia;
      destruct (N.leb_spec 240 b), (N.leb_spec b 244); cbn [andb]; try lia;
      reflexivity. }
    cbn [app]. exact (chunkText_cons Serial.replacement rest [ch "?"] eq_refl).
  - unfold Serial.chunkText at 1, Serial.decode.
    rewrite (utf8Decode_sequence l cs rest Hp).
    apply chunkText_cons, clean_codeUnits, seqValue_range, Hp.
  - unfold Serial.chunkText at 1, Serial.decode.
    rewrite (utf8Decode_broken l cs rest Hp Hnext).
    exact (chunkText_cons Serial.replacement rest [ch "?"] eq_refl).
Qed.

Lemma chunkText_pieces (ps : list Piece) :
  piecesOk ps -> Serial.chunkText (flat_map pieceBytes ps) = flat_map pieceText ps.
Proof.
  induction ps as [|p ps IH]; intros H; [reflexivity|].
  destruct H as (Hp & Hnext & Hrest). cbn [flat_map].
  rewrite (chunkText_piece p (flat_map pieceBytes ps) Hp).
  - rewrite (IH Hrest). reflexivity.
  - destruct p; try exact I. exact Hnext.
Qed.

(** ** What every chunk keeps *)

Lemma keptAscii_range (c : N) :
  keptAscii c = true -> (c <= 126)%N /\ c <> ch "?" /\ Serial.strippedControl c = false.
Proof.
  unfold keptAscii. intros H. apply andb_true_iff in H. destruct H as [Hp Hq].
  apply negb_true_iff in Hq. apply N.eqb_neq in Hq.
  assert (Hr := plainByte_range c Hp). split; [lia|]. split; [exact Hq|].
  unfold Serial.strippedControl.
  repeat match goal with
         | |- (_ || _) = false => apply orb_false_iff; split
         | |- (_ && _) = false => apply andb_false_iff
         end;
    try (apply N.leb_gt; lia); try (apply N.eqb_neq; lia).
  destruct (N.leb_spec 14 c); [right; apply N.leb_gt; lia | left; reflexivity].
Qed.

Lemma kept_of_high (us : jstring) :
  Forall (fun u => (128 <= u)%N) us ->
  filter keptAscii (Serial.stripControls (Serial.replaceReplacement us)) = [].
Proof.
  induction 1 as [|u us Hu _ IH]; [reflexivity|].
  cbn [Serial.replaceReplacement map Serial.stripControls filter].
  fold (Serial.replaceReplacement us). fold (Serial.stripControls (Serial.replaceReplacement us)).
  destruct (N.eqb_spec u Serial.replacement).
  - change (Serial.strippedControl (ch "?")) with false. cbn [negb filter].
    change (keptAscii (ch "?")) with false. exact IH.
  - destruct (Serial.strippedControl u); cbn [negb filter]; [exact IH|].
    destruct (keptAscii u) eqn:Ek; [|exact IH].
    apply keptAscii_range in Ek. lia.
Qed.

Lemma kept_of_code (c : N) :
  (128 <= c)%N ->
  filter keptAscii
         (Serial.stripControls (Serial.replaceReplacement (Serial.codeUnits c))) = [].
Proof.
  intros Hc. apply kept_of_high. unfold Serial.codeUnits.
  destruct (N.ltb_spec c 65536); repeat constructor; lia.
Qed.

Lemma kept_of_ascii (b : N) :
  (b <= 127)%N ->
  filter keptAscii
         (Serial.stripControls (Serial.replaceReplacement (Serial.codeUnits b))) =
  filter keptAscii [b].
Proof.
  intros Hb. unfold Serial.codeUnits. destruct (N.ltb_spec b 65536); [|lia].
  cbn [Serial.replaceReplacement map Serial.stripControls filter].
  destruct (N.eqb_spec b Serial.replacement) as [E|_];
    [unfold Serial.replacement in E; lia|].
  destruct (Serial.strippedControl b) eqn:Es; cbn [negb filter]; [|reflexivity].
  destruct (keptAscii b) eqn:Ek; [|reflexivity].
  apply keptAscii_range in Ek. destruct Ek as (_ & _ & Ek). congruence.
Qed.

Lemma kept_high_byte (b : N) : (128 <= b)%N -> filter keptAscii [b] = [].
Proof.
  intros Hb. cbn [filter]. destruct (keptAscii b) eqn:Ek; [|reflexivity].
  apply keptAscii_range in Ek. lia.
Qed.

(** The states of the decoder inside a sequence that the lead bytes and the
    steps give: the bytes they accept are not ASCII, and the code point they
    lead to is not ASCII either. *)
Lemma kept_decoded (bytes : list N) :
  (filter keptAscii
          (Serial.stripControls
             (Serial.replaceReplacement
                (flat_map Serial.codeUnits (Serial.utf8Decode None bytes)))) =
   filter keptAscii bytes) /\
  (forall s,
      (128 <= Serial.lower s)%N -> (Serial.upper s <= 191)%N ->
      match Serial.bytesNeeded s with
      | 0 | 1 => (2 <= Serial.codePoint s)%N
      | _ => (1 <= Serial.codePoint s)%N \/ (144 <= Serial.lower s)%N
      end ->
      filter keptAscii
             (Serial.stripControls
                (Serial.replaceReplacement
                   (flat_map Serial.codeUnits (Serial.utf8Decode (Some s) bytes)))) =
      filter keptAscii bytes).
Proof.
  induction bytes as [|b rest [IHn IHs]].
  - split; [reflexivity|]. intros s _ _ _. reflexivity.
  - assert (Hfresh :
      forall pre,
        pre = [] \/ pre = [Serial.replacement] ->
        filter keptAscii
          (Serial.stripControls
             (Serial.replaceReplacement
                (flat_map Serial.codeUnits
                   (match Serial.leadByte b with
                    | inl c => pre ++ c :: Serial.utf8Decode None rest
                    | inr s => pre ++ Serial.utf8Decode (Some s) rest
                    end)))) =
        filter keptAscii (b :: rest)).
    { intros pre Hpre.
      assert (Hp : forall tail,
                 filter keptAscii
                   (Serial.stripControls
                      (Serial.replaceReplacement (flat_map Serial.codeUnits (pre ++ tail)))) =
                 filter keptAscii
                   (Serial.stripControls
                      (Serial.replaceReplacement (flat_map Serial.codeUnits tail)))).
      { intros tail. destruct Hpre as [-> | ->]; [reflexivity|].
        cbn [app flat_map]. rewrite clean_app, filter_app.
        rewrite (kept_of_code Serial.replacement) by (unfold Serial.replacement; lia).
        reflexivity. }
      change (b :: rest) with ([b] ++ rest). rewrite filter_app.
      destruct (N.leb_spec b 127) as [Ha|Ha].
      - unfold Serial.leadByte. destruct (N.leb_spec b 127); [|lia].
        rewrite Hp. cbn [flat_map]. rewrite clean_app, filter_app, IHn.
        rewrite (kept_of_ascii b Ha). reflexivity.
      - rewrite (kept_high_byte b) by lia. cbn [app].
        destruct (N.leb_spec 194 b) as [Hl|Hl].
        + destruct (N.leb_spec b 244) as [Hu|Hu].
          * rewrite (leadByte_lead b (conj Hl Hu)). rewrite Hp.
            apply IHs; cbn [Serial.lower Serial.upper Serial.bytesNeeded Serial.codePoint].
            -- apply firstRange.
            -- apply firstRange.
            -- unfold needed, leadBase, firstLow.
               destruct (N.leb_spec b 223); [lia|].
               destruct (N.leb_spec b 239).
               ++ destruct (N.eqb_spec b 224); [right; lia | left; lia].
               ++ destruct (N.eqb_spec b 224); [lia|].
                  destruct (N.eqb_spec b 240); [right; lia | left; lia].
          * assert (Serial.leadByte b = inl Serial.replacement) as ->.
            { unfold Serial.leadByte.
              destruct (N.leb_spec b 127); [lia|].
              destruct (N.leb_spec 194 b), (N.leb_spec b 223); cbn [andb]; try lia;
              destruct (N.leb_spec 224 b), (N.leb_spec b 239); cbn [andb]; try lia;
              destruct (N.leb_spec 240 b), (N.leb_spec b 244); cbn [andb]; try lia;
              reflexivity. }
            rewrite Hp. cbn [flat_map]. rewrite clean_app, filter_app, IHn.
            rewrite (kept_of_code Serial.replacement) by (unfold Serial.replacement; lia).
            reflexivity.
        + assert (Serial.leadByte b = inl Serial.replacement) as ->.
          { unfold Serial.leadByte.
            destruct (N.leb_spec b 127); [lia|].
            destruct (N.leb_spec 194 b), (N.leb_spec b 223); cbn [andb]; try lia;
            destruct (N.leb_spec 224 b), (N.leb_spec b 239); cbn [andb]; try lia;
            destruct (N.leb_spec 240 b), (N.leb_spec b 244); cbn [andb]; try lia;
            reflexivity. }
          rewrite Hp. cbn [flat_map]. rewrite clean_app, filter_app, IHn.
          rewrite (kept_of_code Serial.replacement) by (unfold Serial.replacement; lia).
          reflexivity. }
    split.
    + cbn [Serial.utf8Decode]. apply (Hfresh []). left. reflexivity.
    + intros s Hlo Hhi Hcp. cbn [Serial.utf8Decode].
      destruct ((b <? Serial.lower s) || (Serial.upper s <? b))%N eqn:Eout.
      * apply (Hfresh [Serial.replacement]). right. reflexivity.
      * apply orb_false_iff in Eout. destruct Eout as [E1 E2].
        apply N.ltb_ge in E1, E2.
        assert (Hb : (128 <= b <= 191)%N) by lia.
        rewrite (lor_shift6 (Serial.codePoint s) b Hb).
        change (b :: rest) with ([b] ++ rest). rewrite filter_app.
        rewrite (kept_high_byte b) by lia. cbn [app].
        destruct (Serial.bytesNeeded s) as [|[|k]] eqn:En.
        -- cbn [flat_map]. rewrite clean_app, filter_app, IHn.
           rewrite kept_of_code by lia. reflexivity.
        -- cbn [flat_map]. rewrite clean_app, filter_app, IHn.
           rewrite kept_of_code by lia. reflexivity.
        -- apply IHs; cbn [Serial.lower Serial.upper Serial.bytesNeeded Serial.codePoint];
             try lia.
           destruct k; [|left]; destruct Hcp; lia.
Qed.

Lemma chunkText_keeps_ascii (value : list N) :
  filter keptAscii (Serial.chunkText value) = filter keptAscii value.
Proof. apply (proj1 (kept_decoded value)). Qed.

(** ** Every chunk is made of pieces *)

Lemma longest_tail (k : nat) (lo hi : N) (rest : list N) :
  exists cs rest',
    rest = cs ++ rest' /\ length cs <= k /\
    match cs with
    | [] => True
    | c :: more => (lo <= c <= hi)%N /\ Forall continuation more
    end /\
    (length cs = k \/
     match rest' with
     | [] => True
     | b :: _ => ~ match cs with
                   | [] => (lo <= b <= hi)%N
                   | _ => continuation b
                   end
     end).
Proof.
  revert lo hi rest. induction k as [|k IH]; intros lo hi rest.
  - exists [], rest. cbn [app length].
    split; [reflexivity|]. split; [lia|]. split; [exact I|]. left. reflexivity.
  - destruct rest as [|b r].
    + exists [], []. cbn [app length].
      split; [reflexivity|]. split; [lia|]. split; [exact I|]. right. exact I.
    + destruct (N.le_gt_cases lo b) as [Hlo|Hlo];
        [destruct (N.le_gt_cases b hi) as [Hhi|Hhi]|].
      * destruct (IH 128%N 191%N r) as (cs & rest' & E & Hlen & Hv & Hend).
        exists (b :: cs), rest'. subst r. cbn [app length].
        split; [reflexivity|]. split; [lia|]. split.
        -- split; [lia|]. destruct cs as [|c more]; [constructor|].
           destruct Hv as [Hc Hm]. constructor; [exact Hc | exact Hm].
        -- destruct Hend as [Hend|Hend]; [left; lia|]. right.
           destruct rest' as [|b' r']; [exact I|]. destruct cs; exact Hend.
      * exists [], (b :: r). cbn [app length].
        split; [reflexivity|]. split; [lia|]. split; [exact I|]. right. intros H. lia.
      * exists [], (b :: r). cbn [app length].
        split; [reflexivity|]. split; [lia|]. split; [exact I|]. right. intros H. lia.
Qed.

Lemma pieces_exist (value : list N) :
  exists ps, piecesOk ps /\ flat_map pieceBytes ps = value.
Proof.
  assert (H : forall n value, length value <= n ->
                              exists ps, piecesOk ps /\ flat_map pieceBytes ps = value).
  { induction n as [|n IH]; intros v Hn.
    - destruct v; [|cbn in Hn; lia]. exists []. split; [exact I | reflexivity].
    - destruct v as [|b rest]; [exists []; split; [exact I | reflexivity]|].
      cbn [length] in Hn.
      destruct (N.le_gt_cases b 127) as [Ha|Ha].
      { destruct (IH rest ltac:(lia)) as (ps & Hps & E).
        exists (Ascii b :: ps). cbn [piecesOk flat_map pieceBytes pieceOk app].
        split; [auto|]. rewrite E. reflexivity. }
      destruct (N.le_gt_cases 194 b) as [Hl|Hl];
        [destruct (N.le_gt_cases b 244) as [Hu|Hu]|].
      + destruct (longest_tail (needed b) (firstLow b) (firstHigh b) rest)
          as (cs & rest' & E & Hlen & Hv & Hend).
        assert (Hr : length rest' <= n).
        { subst rest. rewrite length_app in Hn. lia. }
        destruct (IH rest' Hr) as (ps & Hps & Eps).
        destruct (Nat.eq_dec (length cs) (needed b)) as [Hfull|Hshort].
        * exists (Sequence b cs :: ps).
          cbn [piecesOk flat_map pieceBytes pieceOk app].
          split; [|rewrite Eps, E; reflexivity].
          split; [|split; [exact I | exact Hps]].
          split; [lia|]. split; [exact Hfull | exact Hv].
        * exists (Broken b cs :: ps).
          cbn [piecesOk flat_map pieceBytes pieceOk app].
          split; [|rewrite Eps, E; reflexivity].
          split; [|split; [|exact Hps]].
          -- split; [lia|]. split; [lia | exact Hv].
          -- rewrite Eps. destruct Hend as [Hend|Hend]; [lia|].
             destruct rest' as [|b' r']; [exact I|]. exact Hend.
      + destruct (IH rest ltac:(lia)) as (ps & Hps & E).
        exists (Invalid b :: ps). cbn [piecesOk flat_map pieceBytes pieceOk app].
        split; [|rewrite E; reflexivity].
        split; [|auto]. unfold invalidLead.
        destruct (N.leb_spec 245 b); [apply orb_true_r | lia].
      + destruct (IH rest ltac:(lia)) as (ps & Hps & E).
        exists (Invalid b :: ps). cbn [piecesOk flat_map pieceBytes pieceOk app].
        split; [|rewrite E; reflexivity].
        split; [|auto]. unfold invalidLead.
        destruct (N.leb_spec 128 b); [|lia]. destruct (N.leb_spec b 193); [|lia].
        reflexivity. }
  exact (H (length value) value (le_n _)).
Qed.

(** C7, as the read loop has it.  The text handed to the data callback has
    no replacement character, each one having become [?], and none of the
    code units U+0000 to U+0008, U+000B, U+000C, U+000E to U+001F and
    U+007F; among the ASCII control characters only tab, line feed and
    carriage return can remain.  Every chunk keeps its printable ASCII,
    tabs, line feeds and carriage returns, in their order, whatever else
    it holds.  Every chunk is a row of pieces, and the text forwarded for
    it is the text of its pieces in a row: an ASCII byte as it is, unless
    it is one of the stripped control characters, which gives nothing; [?]
    for a byte that starts no UTF-8 sequence, for a sequence that breaks
    off, and for an encoded U+FFFD; the character of any other complete
    sequence. *)
Theorem forwarded_text_is_cleaned :
  (forall value c,
      In c (Serial.chunkText value) ->
      c <> Serial.replacement /\ Serial.strippedControl c = false /\
      (Serial.isControl c = true -> (c = 9 \/ c = 10 \/ c = 13)%N)) /\
  (forall b, invalidLead b = true -> Serial.chunkText [b] = [ch "?"]) /\
  (forall value, forallb plainByte value = true -> Serial.chunkText value = value) /\
  (forall value,
      filter keptAscii (Serial.chunkText value) = filter keptAscii value) /\
  (forall ps,
      piecesOk ps ->
      Serial.chunkText (flat_map pieceBytes ps) = flat_map pieceText ps) /\
  (forall value,
      exists ps, piecesOk ps /\ flat_map pieceBytes ps = value /\
                 Serial.chunkText value = flat_map pieceText ps).
Proof.
  split; [|split; [|split; [|split; [|split]]]].
  - intros value c Hin. destruct (chunkText_In value c Hin) as [H1 H2].
    split; [exact H1|]. split; [exact H2|]. apply strippedControl_false. exact H2.
  - exact chunkText_invalid.
  - exact chunkText_plain.
  - exact chunkText_keeps_ascii.
  - exact chunkText_pieces.
  - intros value. destruct (pieces_exist value) as (ps & Hps & E).
    exists ps. split; [exact Hps|]. split; [exact E|].
    rewrite <- E. apply chunkText_pieces. exact Hps.
Qed.

Lemma forwarded_text_is_cleaned_witness :
  Serial.chunkText [49; 46; 53; 0; 44; 255; 194; 176; 195; 67; 27; 226; 130; 172; 9]%N =
  [49; 46; 53; 44; 63; 176; 63; 67; 8364; 9]%N.
Proof.
  apply (proj1 (proj2 (proj2 (proj2 (proj2 forwarded_text_is_cleaned))))
               [Ascii 49; Ascii 46; Ascii 53; Ascii 0; Ascii 44; Invalid 255;
                Sequence 194 [176%N]; Broken 195 []; Ascii 67; Ascii 27;
                Sequence 226 [130; 172]%N; Ascii 9]).
  cbn. unfold continuation.
  repeat split; try lia; try reflexivity; try (repeat constructor; lia).
Defined.
